(** * AiAssistantPro: the subtitle pipeline, embedded and verified

    A shallow embedding of the subtitle code of the repository
    ([translator.py], [transcriber.py], [subtitle_burner.py], [utils.py])
    together with the properties its specification states about it.

    Conventions of the embedding:
    - a Python [str] is a list of Unicode code points ([list N]);
    - a Python [int] is a [Z];
    - a Python object whose type the code does not fix (a decoded JSON
      document, the value a translation call returns) is a [json];
    - code that raises returns a [result]; code that reads or writes files
      or talks to the network is a function of the [world] it runs in and
      returns the world it leaves behind;
    - [print] and [time.sleep] have no effect the properties depend on and
      are left out. *)

From Stdlib Require Import ZArith NArith List Bool Lia String Ascii Floats.
From stdpp Require Import base tactics option list gmap.

Local Open Scope N_scope.

(** ** Python strings *)

(** A string literal of the development, one code point per character. *)
Definition u (s : string) : list N :=
  List.map N_of_ascii (list_ascii_of_string s).
Arguments u s%_string.

Definition LF : N := 10.
Definition CR : N := 13.

(** [str.isspace] on one code point, which is also what [\s] matches in a
    [str] pattern and what [str.strip()] removes. *)
Definition isspace (c : N) : bool :=
  ((9 <=? c) && (c <=? 13)) || ((28 <=? c) && (c <=? 32)) ||
  (c =? 133) || (c =? 160) || (c =? 5760) ||
  ((8192 <=? c) && (c <=? 8202)) || (c =? 8232) || (c =? 8233) ||
  (c =? 8239) || (c =? 8287) || (c =? 12288).

Fixpoint lstrip (s : list N) : list N :=
  match s with
  | c :: r => if isspace c then lstrip r else s
  | [] => []
  end.

Definition rstrip (s : list N) : list N := rev (lstrip (rev s)).

(** [s.strip()] *)
Definition strip (s : list N) : list N := rstrip (lstrip s).

(** [s.split(sep)] for a one-character separator. *)
Fixpoint split_on (sep : N) (s : list N) : list (list N) :=
  match s with
  | [] => [[]]
  | c :: r =>
      if c =? sep then [] :: split_on sep r
      else match split_on sep r with
           | l :: ls => (c :: l) :: ls
           | [] => [[c]]
           end
  end.

(** [sep.join(ls)] *)
Fixpoint join (sep : list N) (ls : list (list N)) : list N :=
  match ls with
  | [] => []
  | l :: ls' =>
      match ls' with
      | [] => l
      | _ :: _ => l ++ sep ++ join sep ls'
      end
  end.

(** [re.split(r'\n\s*\n', s)].  The pattern matches a line feed, then the
    longest run of whitespace that still ends in a line feed.  The scanner
    keeps the piece under construction in [cur] and is in one of three
    states. *)
Inductive sep_state :=
| Plain
    (* not inside a candidate separator *)
| Pending (ws : list N)
    (* a line feed and then [ws], whitespace without a line feed *)
| Matched (tail : list N).
    (* a separator is matched; [tail] is the whitespace after its last
       line feed, which belongs to the next piece unless another line feed
       extends the match *)

Fixpoint split_blank_go (st : sep_state) (cur s : list N) : list (list N) :=
  match s with
  | [] =>
      match st with
      | Plain => [cur]
      | Pending ws => [cur ++ LF :: ws]
      | Matched tail => [cur; tail]
      end
  | c :: r =>
      match st with
      | Plain =>
          if c =? LF then split_blank_go (Pending []) cur r
          else split_blank_go Plain (cur ++ [c]) r
      | Pending ws =>
          if c =? LF then split_blank_go (Matched []) cur r
          else if isspace c then split_blank_go (Pending (ws ++ [c])) cur r
          else split_blank_go Plain (cur ++ LF :: ws ++ [c]) r
      | Matched tail =>
          if c =? LF then split_blank_go (Matched []) cur r
          else if isspace c then split_blank_go (Matched (tail ++ [c])) cur r
          else cur :: split_blank_go Plain (tail ++ [c]) r
      end
  end.

Definition split_blank (s : list N) : list (list N) := split_blank_go Plain [] s.

(** ** Python integers and their decimal text *)

(** The whitespace [int] passes over at both ends of its argument: what
    [str.isspace] accepts, except the four separators U+001C to U+001F,
    which [int] refuses. *)
Definition int_space (c : N) : bool :=
  isspace c && negb ((28 <=? c) && (c <=? 31)).

Fixpoint int_lstrip (s : list N) : list N :=
  match s with
  | c :: r => if int_space c then int_lstrip r else s
  | [] => []
  end.

Definition int_strip (s : list N) : list N :=
  rev (int_lstrip (rev (int_lstrip s))).

(** [sys.get_int_max_str_digits()], at its default: the number of decimal
    digits beyond which [int(s)] and [str(n)] raise [ValueError]. *)
Definition int_max_str_digits : nat := 4300.

(** [int(s)] for a [str] in base 10: surrounding whitespace is dropped, one
    sign is allowed, and the digits may be grouped by single underscores;
    more than [int_max_str_digits] digits, leading zeros counted, are
    refused.  [dec] is the decimal-digit table of the interpreter's Unicode
    database ([Py_UNICODE_TODECIMAL]). *)
Section PyInt.
Variable dec : N -> option N.

Fixpoint digits_value (acc : N) (after_digit : bool) (s : list N) : option N :=
  match s with
  | [] => if after_digit then Some acc else None
  | c :: r =>
      if c =? 95 then
        if after_digit then digits_value acc false r else None
      else
        match dec c with
        | Some d => digits_value (10 * acc + d) true r
        | None => None
        end
  end.

(** The digits of a literal: its characters other than underscores. *)
Definition digit_count (s : list N) : nat :=
  length (List.filter (fun c => negb (c =? 95)) s).

Definition int_value (s : list N) : option N :=
  if (digit_count s <=? int_max_str_digits)%nat
  then digits_value 0 false s
  else None.

Definition py_int (s : list N) : option Z :=
  match int_strip s with
  | [] => None
  | c :: r =>
      if c =? 43 then Z.of_N <$> int_value r
      else if c =? 45 then (fun n => (- Z.of_N n)%Z) <$> int_value r
      else Z.of_N <$> int_value (c :: r)
  end.
End PyInt.

(** The ASCII part of the digit table. *)
Definition ascii_decimal (c : N) : option N :=
  if (48 <=? c) && (c <=? 57) then Some (c - 48) else None.

(** [str(n)] for a natural number: the digits, most significant first. *)
Fixpoint to_digits (fuel : nat) (n : N) (acc : list N) : list N :=
  match fuel with
  | O => acc
  | S f =>
      let acc' := (48 + n mod 10) :: acc in
      if n <? 10 then acc' else to_digits f (n / 10) acc'
  end.

Definition str_of_N (n : N) : list N :=
  to_digits (S (N.to_nat (N.log2 n))) n [].

(** The decimal text of an integer: what [str(z)] and an f-string field
    give for an [int] of at most [int_max_str_digits] digits.  Beyond that
    they raise, see [format_int]. *)
Definition py_str (z : Z) : list N :=
  match z with
  | Zneg p => 45 :: str_of_N (Npos p)
  | _ => str_of_N (Z.to_N z)
  end.

(** Whether an integer can be printed: its digits, the sign left out, are
    at most [int_max_str_digits]. *)
Definition printable_int (z : Z) : bool :=
  (length (str_of_N (Z.abs_N z)) <=? int_max_str_digits)%nat.

(** Characters between ['-'] and ['9']: what the text of an integer is made
    of. *)
Definition int_char (c : N) : Prop := 45 <= c <= 57.

(** ** Exceptions and results *)

(** The classes of [Exception] the code can meet.  [HTTPError] and
    [RequestsJSONDecodeError] are subclasses of [RequestException];
    [RequestsJSONDecodeError], [JSONDecodeError], [UnicodeDecodeError] and
    [UnicodeEncodeError] are subclasses of [ValueError];
    [FileNotFoundError] is a subclass of [OSError]. *)
Inductive exn_class :=
| RequestException | HTTPError | RequestsJSONDecodeError
| ValueError | JSONDecodeError | UnicodeDecodeError | UnicodeEncodeError
| KeyError | IndexError | TypeError | AttributeError
| OSError | FileNotFoundError
| Exception.

(** An exception: its class and [str(e)]. *)
Record exn := Exn { exn_cls : exn_class; exn_msg : list N }.

(** [isinstance(e, requests.exceptions.RequestException)] *)
Definition is_RequestException (e : exn) : bool :=
  match exn_cls e with
  | RequestException | HTTPError | RequestsJSONDecodeError => true
  | _ => false
  end.

Inductive result (A : Type) :=
| Ok (a : A)
| Raise (e : exn).
Arguments Ok {A} a.
Arguments Raise {A} e.


(** What [str(z)] and an f-string field raise for an [int] of more than
    [int_max_str_digits] digits. *)
Definition int_limit_error : exn :=
  Exn ValueError
    (u "Exceeds the limit (4300 digits) for integer string conversion").

(** [f"{z}"] for an [int]. *)
Definition format_int (z : Z) : result (list N) :=
  if printable_int z then Ok (py_str z) else Raise int_limit_error.

(** ** Python objects of no fixed type *)

(** What [response.json()] can return, and so what a translation call can
    hand back to its caller. *)
#[warnings="-register-all"]
Inductive json :=
| JNull
| JBool (b : bool)
| JInt (z : Z)
| JFloat (f : float)
| JStr (s : list N)
| JList (l : list json)
| JDict (kv : list (list N * json)).

(** Whether an object can be printed: it holds no [int] of more than
    [int_max_str_digits] digits. *)
Fixpoint printable (v : json) : bool :=
  match v with
  | JInt z => printable_int z
  | JList l => forallb printable l
  | JDict kv => forallb (fun p : list N * json => let (_, x) := p in printable x) kv
  | _ => true
  end.

Definition str_eqb (a b : list N) : bool := bool_decide (a = b).

(** Lookup in a [dict] with [str] keys. *)
Fixpoint assoc {V} (k : list N) (kv : list (list N * V)) : option V :=
  match kv with
  | [] => None
  | (k', v) :: r => if str_eqb k k' then Some v else assoc k r
  end.

(** [obj.get(key, default)]: only a [dict] has the method. *)
Definition py_get (obj : json) (key : list N) (default : json) : result json :=
  match obj with
  | JDict kv =>
      match assoc key kv with
      | Some v => Ok v
      | None => Ok default
      end
  | _ => Raise (Exn AttributeError (u "object has no attribute 'get'"))
  end.

(** [obj[key]] for a [str] key. *)
Definition py_getitem (obj : json) (key : list N) : result json :=
  match obj with
  | JDict kv =>
      match assoc key kv with
      | Some v => Ok v
      | None => Raise (Exn KeyError key)
      end
  | _ => Raise (Exn TypeError (u "object is not subscriptable by str"))
  end.

(** [v == 200] *)
Definition py_eq_200 (v : json) : bool :=
  match v with
  | JInt z => (z =? 200)%Z
  | JFloat f => PrimFloat.eqb f 200%float
  | _ => false
  end.

(** ** The world: files and the network *)

(** A file holds text (its decoded characters, as stored) or bytes that are
    not UTF-8, of which only the number matters here. *)
Inductive file_data :=
| TextFile (content : list N)
| BinaryFile (size : N).

Inductive http_method := GET | POST.

Record request := Request {
  req_method : http_method;
  req_url : list N;
  req_fields : list (list N * list N)
}.

(** An HTTP response: the status and what [response.json()] does. *)
Record response := Response {
  status_code : Z;
  json_body : result json
}.

Record world := World {
  files : gmap (list N) file_data;
  sent : list request;              (* every request made so far, oldest first *)
  api_key : option (list N)         (* os.getenv("OPENAI_API_KEY") *)
}.

(** What lies outside the program.  [http] answers a request, knowing the
    requests made before it; [openai_client] is the constructor
    [OpenAI(api_key=key)], which can raise; [whisper] is the
    speech-to-text call made through the client; [writable] tells which
    paths [open(path, 'w')] can create or truncate. *)
Record services := Services {
  http : list request -> request -> result response;
  openai_client : list N -> result unit;
  whisper : list N -> file_data -> result (list N);
  writable : list N -> bool
}.

(** What the interpreter and its platform fix. *)
Class Python := {
  (* Py_UNICODE_TODECIMAL *)
  todecimal : N -> option N;
  todecimal_ascii : forall c, c < 128 -> todecimal c = ascii_decimal c;
  todecimal_digit : forall c d, todecimal c = Some d -> d < 10;
  (* str.lower *)
  lower : list N -> list N;
  lower_ascii : forall s,
    Forall (fun c => c < 128) s ->
    lower s = List.map (fun c => if (65 <=? c) && (c <=? 90) then c + 32 else c) s;
  (* what an f-string field prints for an object *)
  format_value : json -> list N;
  format_value_str : forall s, format_value (JStr s) = s;
  (* Path(p).stem, os.path.join(a, b), os.path.splitext(p)[1] *)
  path_stem : list N -> list N;
  path_join : list N -> list N -> list N;
  path_ext : list N -> list N;
  (* os.linesep is "\r\n" *)
  crlf : bool
}.

(** ** Effects *)

Definition M (A : Type) : Type := world -> result A * world.

Definition ret {A} (a : A) : M A := fun w => (Ok a, w).
Definition raise {A} (e : exn) : M A := fun w => (Raise e, w).
Definition lift {A} (r : result A) : M A := fun w => (r, w).

Definition bind {A B} (m : M A) (k : A -> M B) : M B :=
  fun w =>
    match m w with
    | (Ok a, w') => k a w'
    | (Raise e, w') => (Raise e, w')
    end.

(** [try: m  except Exception as e: h e] *)
Definition try_except {A} (m : M A) (h : exn -> M A) : M A :=
  fun w =>
    match m w with
    | (Ok a, w') => (Ok a, w')
    | (Raise e, w') => h e w'
    end.

Notation "x <- m ;; k" := (bind m (fun x => k))
  (at level 100, m at level 99, k at level 200, right associativity).
Notation "m ;;; k" := (bind m (fun _ => k))
  (at level 100, k at level 200, right associativity).

(** [for x in l: body x], stopping at the first exception. *)
Fixpoint for_each {A} (l : list A) (body : A -> M unit) : M unit :=
  match l with
  | [] => ret tt
  | x :: r => body x ;;; for_each r body
  end.

(** A loop that appends one result per element to a list. *)
Fixpoint for_collect {A B} (l : list A) (body : A -> M B) : M (list B) :=
  match l with
  | [] => ret []
  | x :: r => y <- body x ;; ys <- for_collect r body ;; ret (y :: ys)
  end.

(** ** Text files *)

(** Reading in text mode turns ["\r\n"] and a lone ["\r"] into ["\n"]. *)
Fixpoint universal_newlines (s : list N) : list N :=
  match s with
  | [] => []
  | c :: r =>
      if c =? CR then
        LF :: match r with
              | c' :: r' =>
                  if c' =? LF then universal_newlines r' else universal_newlines r
              | [] => []
              end
      else c :: universal_newlines r
  end.

(** UTF-8 encodes every code point except the surrogates. *)
Definition encodable (c : N) : bool :=
  (c <? 55296) || ((57343 <? c) && (c <=? 1114111)).

Definition utf8_len (s : list N) : N :=
  fold_right (fun c n =>
    (if c <? 128 then 1 else if c <? 2048 then 2 else if c <? 65536 then 3 else 4) + n)
    0 s.

(** The size of a file in bytes. *)
Definition file_size (d : file_data) : N :=
  match d with
  | TextFile s => utf8_len s
  | BinaryFile n => n
  end.

Definition set_files (f : gmap (list N) file_data) (w : world) : world :=
  {| files := f; sent := sent w; api_key := api_key w |}.

(** The world in which the file at [path] holds the text [content]. *)
Definition with_file (path content : list N) (w : world) : world :=
  set_files (<[path := TextFile content]> (files w)) w.

Section Files.
Context {py : Python} (sv : services).

(** Writing in text mode turns ["\n"] into [os.linesep]. *)
Definition write_newlines (s : list N) : list N :=
  if crlf then flat_map (fun c => if c =? LF then [CR; LF] else [c]) s else s.

(** [with open(path, 'r', encoding='utf-8') as file: file.read()] *)
Definition read_text (path : list N) : M (list N) :=
  fun w =>
    match files w !! path with
    | None => (Raise (Exn FileNotFoundError path), w)
    | Some (BinaryFile _) => (Raise (Exn UnicodeDecodeError path), w)
    | Some (TextFile s) => (Ok (universal_newlines s), w)
    end.

(** [open(path, 'w', encoding='utf-8')]: the file is created or emptied. *)
Definition open_w (path : list N) : M unit :=
  fun w =>
    if writable sv path
    then (Ok tt, with_file path [] w)
    else (Raise (Exn OSError path), w).

(** [file.write(s)] on the file opened at [path]: the text is encoded at
    once, and what was written before stays in the file. *)
Definition write (path s : list N) : M unit :=
  fun w =>
    if forallb encodable s then
      match files w !! path with
      | Some (TextFile old) =>
          (Ok tt, with_file path (old ++ write_newlines s) w)
      | _ => (Raise (Exn OSError path), w)
      end
    else (Raise (Exn UnicodeEncodeError s), w).

(** [os.path.exists(path)], [os.path.getsize(path)] *)
Definition path_exists (path : list N) (w : world) : bool :=
  bool_decide (is_Some (files w !! path)).

Definition getsize (path : list N) : M N :=
  fun w =>
    match files w !! path with
    | None => (Raise (Exn FileNotFoundError path), w)
    | Some d => (Ok (file_size d), w)
    end.
End Files.

(** ** translator.py *)

(** A subtitle entry: the [dict] with keys ['index'], ['timestamp'] and
    ['text']. *)
Record cue := Cue {
  index : Z;
  timestamp : list N;
  text : json
}.

Definition LANGUAGE_MAP : list (list N * list N) :=
  [ (u "Hebrew", u "he");
    (u "Spanish", u "es");
    (u "French", u "fr");
    (u "German", u "de");
    (u "Italian", u "it");
    (u "Portuguese", u "pt");
    (u "Arabic", u "ar");
    (u "Russian", u "ru");
    (u "Chinese", u "zh");
    (u "Japanese", u "ja") ].

(** [re.sub(r'<[^>]+>', '', s)]: a tag runs from a ['<'] to the first ['>']
    after it and has at least one character in between.  [inside] holds
    the characters read since an open ['<']. *)
Fixpoint strip_tags_go (inside : option (list N)) (s : list N) : list N :=
  match s with
  | [] =>
      match inside with
      | None => []
      | Some buf => 60 :: buf
      end
  | c :: r =>
      match inside with
      | None =>
          if c =? 60 then strip_tags_go (Some []) r
          else c :: strip_tags_go None r
      | Some buf =>
          if c =? 62 then
            match buf with
            | [] => 60 :: 62 :: strip_tags_go None r
            | _ :: _ => strip_tags_go None r
            end
          else strip_tags_go (Some (buf ++ [c])) r
      end
  end.

Definition strip_tags (s : list N) : list N := strip_tags_go None s.

(** The text [translate_srt] sends for a subtitle. *)
Definition clean_text (t : list N) : list N := strip (strip_tags t).

Definition libretranslate_request (text target_lang source_lang : list N) : request :=
  {| req_method := POST;
     req_url := u "https://libretranslate.de/translate";
     req_fields := [ (u "q", text); (u "source", source_lang);
                     (u "target", target_lang); (u "format", u "text") ] |}.

Definition mymemory_request (text target_lang source_lang : list N) : request :=
  {| req_method := GET;
     req_url := u "https://api.mymemory.translated.net/get";
     req_fields := [ (u "q", take 500 text);
                     (u "langpair", source_lang ++ u "|" ++ target_lang) ] |}.

(** The world after more requests, and after one more. *)
Definition add_requests (rs : list request) (w : world) : world :=
  {| files := files w; sent := sent w ++ rs; api_key := api_key w |}.

Definition after_request (r : request) (w : world) : world := add_requests [r] w.

Section Translator.
Context {py : Python} (sv : services).

(** [requests.post(url, data=..., timeout=30)] and
    [requests.get(url, params=..., timeout=15)] *)
Definition http_request (r : request) : M response :=
  fun w =>
    (http sv (sent w) r, after_request r w).

(** [response.raise_for_status()] *)
Definition raise_for_status (r : response) : M unit :=
  if ((400 <=? status_code r) && (status_code r <? 600))%Z
  then raise (Exn HTTPError (u "HTTP error"))
  else ret tt.

(** The [try] block of [translate_text_fallback]: [Some v] when it
    returns [v], [None] when it falls off its end. *)
Definition fallback_attempt (text target_lang source_lang : list N)
  : M (option json) :=
  response <- http_request (mymemory_request text target_lang source_lang) ;;
  raise_for_status response ;;;
  result <- lift (json_body response) ;;
  status <- lift (py_get result (u "responseStatus") JNull) ;;
  if py_eq_200 status then
    data <- lift (py_getitem result (u "responseData")) ;;
    translated <- lift (py_getitem data (u "translatedText")) ;;
    ret (Some translated)
  else ret None.

Definition translate_text_fallback (text target_lang source_lang : list N)
  : M json :=
  returned <- try_except (fallback_attempt text target_lang source_lang)
                         (fun _ => ret None) ;;
  match returned with
  | Some v => ret v
  | None => ret (JStr text)
  end.

(** The [try] block of [translate_text_libretranslate]. *)
Definition libretranslate_attempt (text target_lang source_lang : list N)
  : M json :=
  response <- http_request (libretranslate_request text target_lang source_lang) ;;
  raise_for_status response ;;;
  result <- lift (json_body response) ;;
  lift (py_get result (u "translatedText") (JStr text)).

Definition translate_text_libretranslate (text target_lang source_lang : list N)
  : M json :=
  try_except
    (libretranslate_attempt text target_lang source_lang)
    (fun e =>
       if is_RequestException e
       then translate_text_fallback text target_lang source_lang
       else ret (JStr text)).

(** The body of the loop of [parse_srt_file] on one block: [None] when
    the block is skipped. *)
Definition parse_block (block : list N) : option cue :=
  let lines := split_on LF (strip block) in
  if (3 <=? length lines)%nat then
    match py_int todecimal (nth 0 lines []) with
    | Some idx =>
        Some {| index := idx;
                timestamp := nth 1 lines [];
                text := JStr (join [LF] (drop 2 lines)) |}
    | None => None
    end
  else None.

(** The work of [parse_srt_file] on the content it has read. *)
Definition parse_srt (content : list N) : list cue :=
  omap parse_block (split_blank (strip content)).

Definition parse_srt_file (srt_path : list N) : M (list cue) :=
  content <- read_text srt_path ;;
  ret (parse_srt content).

(** [f"{v}"] for the text of a subtitle, whatever object it is. *)
Definition format_text (v : json) : result (list N) :=
  if printable v then Ok (format_value v) else Raise int_limit_error.

(** The three writes of [create_translated_srt] for one subtitle; each
    f-string is built before its [write] is called. *)
Definition write_subtitle (output_path : list N) (subtitle : cue) : M unit :=
  index_line <- lift (format_int (index subtitle)) ;;
  write output_path (index_line ++ [LF]) ;;;
  write output_path (timestamp subtitle ++ [LF]) ;;;
  text_lines <- lift (format_text (text subtitle)) ;;
  write output_path (text_lines ++ [LF; LF]).

Definition create_translated_srt (subtitles : list cue) (output_path : list N)
  : M (list N) :=
  open_w sv output_path ;;;
  for_each subtitles (write_subtitle output_path) ;;;
  ret output_path.

(** The body of the loop of [translate_srt]. *)
Definition translate_subtitle (target_lang_code : list N) (subtitle : cue) : M cue :=
  match text subtitle with
  | JStr t =>
      translated_text <-
        match clean_text t with
        | [] => ret (text subtitle)
        | _ :: _ =>
            translate_text_libretranslate (clean_text t) target_lang_code (u "en")
        end ;;
      ret {| index := index subtitle;
             timestamp := timestamp subtitle;
             text := translated_text |}
  | _ => raise (Exn TypeError (u "expected string or bytes-like object"))
  end.

Definition output_path_for (srt_path target_language output_dir : list N) : list N :=
  path_join output_dir
    (path_stem srt_path ++ u "_" ++ lower target_language ++ u ".srt").

Definition translate_srt (srt_path target_language output_dir : list N)
  : M (list N) :=
  match assoc target_language LANGUAGE_MAP with
  | None =>
      (* ValueError(f"Unsupported language: {target_language}") *)
      raise (Exn ValueError (u "Unsupported language: " ++ target_language))
  | Some target_lang_code =>
      subtitles <- parse_srt_file srt_path ;;
      match subtitles with
      | [] => raise (Exn ValueError (u "No subtitles found in SRT file"))
      | _ :: _ =>
          translated_subtitles <-
            for_collect subtitles (translate_subtitle target_lang_code) ;;
          create_translated_srt translated_subtitles
            (output_path_for srt_path target_language output_dir)
      end
  end.

(** The loop of [batch_translate_srt], with the [dict] built so far. *)
Fixpoint batch_loop (srt_path output_dir : list N) (languages : list (list N))
    (translated_files : gmap (list N) (list N)) : M (gmap (list N) (list N)) :=
  match languages with
  | [] => ret translated_files
  | language :: rest =>
      translated_files' <-
        try_except
          (translated_file <- translate_srt srt_path language output_dir ;;
           ret (<[language := translated_file]> translated_files))
          (fun _ => ret translated_files) ;;
      batch_loop srt_path output_dir rest translated_files'
  end.

Definition batch_translate_srt (srt_path : list N) (target_languages : list (list N))
    (output_dir : list N) : M (gmap (list N) (list N)) :=
  batch_loop srt_path output_dir target_languages ∅.

(** What the call of [translate_srt] in each round of that loop comes to:
    the languages in the order they are tried, each with the path
    returned or the exception caught. *)
Fixpoint batch_outcomes (srt_path output_dir : list N) (languages : list (list N))
    (w : world) : list (list N * result (list N)) :=
  match languages with
  | [] => []
  | language :: rest =>
      let (r, w') := translate_srt srt_path language output_dir w in
      (language, r) :: batch_outcomes srt_path output_dir rest w'
  end.
End Translator.

(** How one subtitle fares in the loop of [translate_srt]: the cue it
    becomes and the requests made for it.  A subtitle whose cleaned text is
    empty is kept as it is and causes no request; any other keeps its index
    and timestamp, and its cleaned text goes to the primary service and, at
    most, to the fallback after it. *)
Inductive subtitle_step (target_lang_code : list N) (c c' : cue)
    (reqs : list request) : Prop :=
| step_kept t :
    text c = JStr t -> clean_text t = [] ->
    c' = c -> reqs = [] ->
    subtitle_step target_lang_code c c' reqs
| step_translated t v :
    text c = JStr t -> clean_text t <> [] ->
    c' = {| index := index c; timestamp := timestamp c; text := v |} ->
    reqs = [libretranslate_request (clean_text t) target_lang_code (u "en")]
    \/ reqs = [libretranslate_request (clean_text t) target_lang_code (u "en");
               mymemory_request (clean_text t) target_lang_code (u "en")] ->
    subtitle_step target_lang_code c c' reqs.

(** The two [ValueError]s of [translate_srt]. *)
Definition unsupported_language (target_language : list N) : exn :=
  Exn ValueError (u "Unsupported language: " ++ target_language).

Definition no_subtitles : exn :=
  Exn ValueError (u "No subtitles found in SRT file").

(** ** Cues the subtitle format can hold *)

(** A line shows something when it has a character that is not
    whitespace. *)
Definition visible (l : list N) : bool :=
  existsb (fun c => negb (isspace c)) l.

Definition starts_visible (s : list N) : bool :=
  match s with
  | c :: _ => negb (isspace c)
  | [] => false
  end.

Definition ends_visible (s : list N) : bool := starts_visible (rev s).

(** A character that a text file gives back as it was written: it can be
    encoded and is not a carriage return. *)
Definition storable (c : N) : bool := negb (c =? CR) && encodable c.

(** A timestamp line is one line that shows something. *)
Definition timestamp_ok (ts : list N) : bool :=
  visible ts && forallb (fun c => negb (c =? LF) && storable c) ts.

(** A text has no blank line and no whitespace at its end. *)
Definition text_ok (t : list N) : bool :=
  forallb visible (split_on LF t) && ends_visible t && forallb storable t.

(** A cue the format can hold: besides, its index can be printed. *)
Definition well_formed (c : cue) : bool :=
  printable_int (index c) &&
  timestamp_ok (timestamp c) &&
  match text c with
  | JStr t => text_ok t
  | _ => false
  end.

(** A cue whose index and text can be printed. *)
Definition printable_cue (c : cue) : bool :=
  printable_int (index c) && printable (text c).

(** A block between two blank-line separators: no blank line inside, no
    whitespace at either end. *)
Definition solid_block (b : list N) : bool :=
  forallb visible (split_on LF b) && starts_visible b && ends_visible b.

Section Serialized.
Context {py : Python}.

(** The three lines [create_translated_srt] writes for a cue, without
    the blank line that closes them, and the text of a whole file. *)
Definition srt_block (c : cue) : list N :=
  py_str (index c) ++ [LF] ++ timestamp c ++ [LF] ++ format_value (text c).

Definition srt_text (cues : list cue) : list N :=
  flat_map (fun c => srt_block c ++ [LF; LF]) cues.
End Serialized.

(** Modelled from the spec: a line that "matches a [start --> end]
    timestamp pair" holds at least the arrow between its two times. *)
Fixpoint has_arrow (s : list N) : bool :=
  match s with
  | [] => false
  | c :: r =>
      match s with
      | 45 :: 45 :: 62 :: _ => true
      | _ => has_arrow r
      end
  end.

(** ** utils.py *)

(** [get_available_languages()] *)
Definition get_available_languages : list (list N * list N) :=
  [ (u "Hebrew", u "he");
    (u "Spanish", u "es");
    (u "French", u "fr");
    (u "German", u "de");
    (u "Italian", u "it");
    (u "Portuguese", u "pt");
    (u "Arabic", u "ar");
    (u "Russian", u "ru");
    (u "Chinese", u "zh");
    (u "Japanese", u "ja");
    (u "Korean", u "ko");
    (u "Dutch", u "nl");
    (u "Swedish", u "sv");
    (u "Norwegian", u "no");
    (u "Danish", u "da") ].

(** ** transcriber.py *)

Section Transcriber.
Context {py : Python} (sv : services).

(** [open(audio_path, "rb")] *)
Definition open_rb (path : list N) : M file_data :=
  fun w =>
    match files w !! path with
    | None => (Raise (Exn FileNotFoundError path), w)
    | Some d => (Ok d, w)
    end.

(** [os.getenv("OPENAI_API_KEY")] *)
Definition getenv_api_key : M (option (list N)) :=
  fun w => (Ok (api_key w), w).

Definition transcribe_video (audio_path output_dir : list N) : M (list N) :=
  key <- getenv_api_key ;;
  match key with
  | None | Some [] =>
      raise (Exn ValueError (u "OpenAI API key not found in environment variables"))
  | Some (k :: ey) =>
      (* client = OpenAI(api_key=api_key), before the try block *)
      lift (openai_client sv (k :: ey)) ;;;
      try_except
        (audio_file <- open_rb audio_path ;;
         transcript <- lift (whisper sv (k :: ey) audio_file) ;;
         let srt_filename := path_join output_dir (u "transcription.srt") in
         open_w sv srt_filename ;;;
         write srt_filename transcript ;;;
         ret srt_filename)
        (fun e => raise (Exn Exception (u "Transcription failed: " ++ exn_msg e)))
  end.

Definition valid_extensions : list (list N) :=
  [u ".mp3"; u ".wav"; u ".m4a"; u ".flac"; u ".ogg"].

Definition validate_audio_file (audio_path : list N) : M bool :=
  fun w =>
    if negb (path_exists audio_path w) then (Ok false, w)
    else
      (file_size <- getsize audio_path ;;
       if 25 * 1024 * 1024 <? file_size then ret false
       else
         let file_ext := lower (path_ext audio_path) in
         ret (bool_decide (file_ext ∈ valid_extensions))) w.
End Transcriber.

(** ** subtitle_burner.py *)

Definition position_map : list (list N * list N) :=
  [ (u "bottom", u "Alignment=2");
    (u "top", u "Alignment=8");
    (u "center", u "Alignment=5") ].

Definition color_map : list (list N * list N) :=
  [ (u "white", u "&Hffffff&");
    (u "yellow", u "&H00ffff&");
    (u "red", u "&H0000ff&");
    (u "blue", u "&Hff0000&");
    (u "green", u "&H00ff00&");
    (u "black", u "&H000000&") ].

(** [d.get(key, default)] on a [dict] literal. *)
Definition dict_get {V} (d : list (list N * V)) (key : list N) (default : V) : V :=
  match assoc key d with
  | Some v => v
  | None => default
  end.

Section Burner.
Context {py : Python}.

(** [alignment] and [color_code] as [burn_subtitles_to_video] computes
    them. *)
Definition burn_alignment (position : list N) : list N :=
  dict_get position_map position (u "Alignment=2").

Definition burn_color_code (font_color : list N) : list N :=
  dict_get color_map (lower font_color) (u "&Hffffff&").

(** The argument vector [burn_subtitles_to_video] runs, given the output
    path it has settled on and a font size that can be printed. *)
Definition burn_command (video_path srt_path output_path : list N)
    (font_size : Z) (font_color position : list N) : list (list N) :=
  [ u "ffmpeg";
    u "-i"; video_path;
    u "-vf";
    u "subtitles=" ++ srt_path ++ u ":force_style='FontSize=" ++ py_str font_size
      ++ u ",PrimaryColour=" ++ burn_color_code font_color
      ++ u "," ++ burn_alignment position ++ u "'";
    u "-c:a"; u "copy";
    u "-y";
    output_path ].
End Burner.

(** ** Timestamps (transcriber.py) *)

(** A [float] that is not negative and is below [2^53], by its exact value
    [mant / 2 ^ scale].  Every such binary64 number is a quotient of this
    kind with [mant < 2^53] and [scale <= 1074], and every such quotient is
    a binary64 number. *)
Record float64 := Float64 { mant : N; scale : N }.

Definition is_float64 (x : float64) : bool :=
  (mant x <? 2 ^ 53) && (scale x <=? 1074).

(** [int(x)]: the integer part. *)
Definition float_int (x : float64) : N := mant x / 2 ^ scale x.

(** [x // n] and [x % n] for a positive integer [n].  The remainder of
    binary64 numbers is exact, and so is the quotient here: [x - x % n] is
    an integer below [2^53] and a multiple of [n]. *)
Definition float_floordiv (x : float64) (n : N) : float64 :=
  {| mant := mant x / (n * 2 ^ scale x); scale := 0 |}.

Definition float_mod (x : float64) (n : N) : float64 :=
  {| mant := mant x mod (n * 2 ^ scale x); scale := scale x |}.

(** Rounding to 53 significant bits, to the nearest and to even on a
    tie. *)
Definition round53 (m : N) : N :=
  let shift := N.size m - 53 in
  if shift =? 0 then m
  else
    let q := m / 2 ^ shift in
    let rest := m mod 2 ^ shift in
    let half := 2 ^ (shift - 1) in
    if (half <? rest) || ((rest =? half) && N.odd q)
    then (q + 1) * 2 ^ shift
    else q * 2 ^ shift.

(** [x * n] for a positive integer [n]: the exact product, rounded. *)
Definition float_mul (x : float64) (n : N) : float64 :=
  {| mant := round53 (mant x * n); scale := scale x |}.

(** [f"{n:02d}"] and [f"{n:03d}"] for an [int] that is not negative. *)
Definition zero_pad (width : nat) (s : list N) : list N :=
  repeat 48 (width - length s) ++ s.

Definition format_srt_timestamp (seconds : float64) : list N :=
  let hours := float_int (float_floordiv seconds 3600) in
  let minutes := float_int (float_floordiv (float_mod seconds 3600) 60) in
  let secs := float_int (float_mod seconds 60) in
  let millisecs := float_int (float_mul (float_mod seconds 1) 1000) in
  zero_pad 2 (str_of_N hours) ++ u ":" ++ zero_pad 2 (str_of_N minutes)
    ++ u ":" ++ zero_pad 2 (str_of_N secs) ++ u "," ++ zero_pad 3 (str_of_N millisecs).

(** Modelled from the spec: the inverse of the timestamp format.  A text
    [HH:MM:SS,mmm] of decimal digits, with two digits or more for the
    hours, is read as a number of milliseconds. *)
Fixpoint decimal_value (acc : N) (s : list N) : option N :=
  match s with
  | [] => Some acc
  | c :: r =>
      if (48 <=? c) && (c <=? 57) then decimal_value (10 * acc + (c - 48)) r
      else None
  end.

Definition spec_parse_timestamp (s : list N) : option N :=
  match split_on 58 s with
  | [hh; mm; rest] =>
      match split_on 44 rest with
      | [ss; mmm] =>
          if (2 <=? length hh)%nat && (length mm =? 2)%nat
             && (length ss =? 2)%nat && (length mmm =? 3)%nat
          then
            match decimal_value 0 hh, decimal_value 0 mm,
                  decimal_value 0 ss, decimal_value 0 mmm with
            | Some h, Some m, Some sec, Some ms =>
                Some (((h * 60 + m) * 60 + sec) * 1000 + ms)
            | _, _, _, _ => None
            end
          else None
      | _ => None
      end
  | _ => None
  end.

(** [ms] milliseconds are less than one millisecond away from [x]
    seconds: [|ms / 1000 - mant / 2^scale| < 1 / 1000], cleared of its
    denominators. *)
Definition within_1ms (x : float64) (ms : N) : Prop :=
  (Z.abs (Z.of_N ms * 2 ^ Z.of_N (scale x) - 1000 * Z.of_N (mant x))
   < 2 ^ Z.of_N (scale x))%Z.

(** [x <= 359999.999] *)
Definition in_format_range (x : float64) : Prop :=
  1000 * mant x <= 359999999 * 2 ^ scale x.

(** ** A reference platform

    A POSIX interpreter restricted to what the examples need: ASCII digits
    and letters, ['/'] as the path separator, ["\n"] as the line
    separator. *)

Definition ascii_lower (c : N) : N :=
  if (65 <=? c) && (c <=? 90) then c + 32 else c.

(** The last component of a path. *)
Definition basename (p : list N) : list N :=
  List.last (split_on 47 p) [].

(** Where the extension of a file name starts: at its last dot, unless
    only dots come before it. *)
Fixpoint ext_split (name_rev ext : list N) : list N * list N :=
  match name_rev with
  | [] => (ext, [])
  | c :: r =>
      if c =? 46 then
        if forallb (N.eqb 46) r then (rev (c :: r) ++ ext, [])
        else (rev r, c :: ext)
      else ext_split r (c :: ext)
  end.

(** [Path(p).name]: the last component, the empty ones and the ones that
    are a single dot left out. *)
Definition path_name (p : list N) : list N :=
  List.last
    (List.filter (fun c => negb (bool_decide (c = []) || bool_decide (c = [46])))
       (split_on 47 p)) [].

(** Where the last dot of a reversed name is: what comes before the dot,
    reversed, and whether something comes after it. *)
Fixpoint last_dot (name_rev : list N) (has_suffix : bool) : option (list N * bool) :=
  match name_rev with
  | [] => None
  | c :: r => if c =? 46 then Some (r, has_suffix) else last_dot r true
  end.

(** [Path(p).stem]: the name without its suffix; a dot at the start or at
    the end of the name starts no suffix. *)
Definition posix_stem (p : list N) : list N :=
  match last_dot (rev (path_name p)) false with
  | Some (c :: r, true) => rev (c :: r)
  | _ => path_name p
  end.
Definition posix_ext (p : list N) : list N := snd (ext_split (rev (basename p)) []).

Definition posix_join (a b : list N) : list N :=
  match b with
  | 47 :: _ => b
  | _ => match List.last a 47 with
         | 47 => a ++ b
         | _ => a ++ 47 :: b
         end
  end.

(** What an f-string field prints for a [str], [None], a [bool] and an
    [int].  The text of a [float], a [list] or a [dict] is not worked out
    here: they get a placeholder, and no example prints one. *)
Definition simple_format (v : json) : list N :=
  match v with
  | JStr s => s
  | JNull => u "None"
  | JBool true => u "True"
  | JBool false => u "False"
  | JInt z => py_str z
  | _ => u "<object>"
  end.

#[refine] Instance posix_python : Python := {|
  todecimal := ascii_decimal;
  lower := List.map ascii_lower;
  format_value := simple_format;
  path_stem := posix_stem;
  path_join := posix_join;
  path_ext := posix_ext;
  crlf := false
|}.
Proof.
  - done.
  - intros c d. unfold ascii_decimal.
    destruct (N.leb_spec 48 c); [|done]. destruct (N.leb_spec c 57); [|done].
    intros [= <-]. simpl. lia.
  - done.
  - done.
Defined.

(** ** More of translator.py *)

(** A tag as the pattern [<[^>]+>] sees it: a ['<'], one or more characters
    other than ['>'], and a ['>']. *)
Definition has_tag (s : list N) : Prop :=
  exists a m b, m <> [] /\ (62 ∉ m) /\ s = a ++ 60 :: m ++ 62 :: b.

(** Whether every line of a text shows something, read character by
    character: [shown] tells whether the line being read already does. *)
Fixpoint lines_shown (shown : bool) (s : list N) : bool :=
  match s with
  | [] => shown
  | c :: r =>
      if c =? LF then shown && lines_shown false r
      else lines_shown (shown || negb (isspace c)) r
  end.

(** What a cue becomes in [translate_srt] when no translation can be had:
    its text gives way to its cleaned text, unless that is empty. *)
Definition pass_through (c : cue) : cue :=
  match text c with
  | JStr t =>
      match clean_text t with
      | [] => c
      | _ :: _ =>
          {| index := index c; timestamp := timestamp c;
             text := JStr (clean_text t) |}
      end
  | _ => c
  end.

(** The requests [translate_srt] makes for a cue when the primary service
    fails with a transport error: the cleaned text goes to the primary
    service and then to the fallback, and a cue whose cleaned text is
    empty causes none. *)
Definition retried_requests (target_lang_code : list N) (c : cue) : list request :=
  match text c with
  | JStr t =>
      match clean_text t with
      | [] => []
      | _ :: _ =>
          [libretranslate_request (clean_text t) target_lang_code (u "en");
           mymemory_request (clean_text t) target_lang_code (u "en")]
      end
  | _ => []
  end.

(** A path that names a text file. *)
Definition is_text_file (w : world) (q : list N) : Prop :=
  exists content, files w !! q = Some (TextFile content).

(** [v != s] for a [str] [s]. *)
Definition py_ne_str (v : json) (s : list N) : bool :=
  match v with
  | JStr t => negb (bool_decide (t = s))
  | _ => true
  end.

Section TranslatorMore.
Context {py : Python} (sv : services).

Definition validate_translation_service : M bool :=
  try_except
    (let test_text := u "Hello" in
     translated <- translate_text_libretranslate sv test_text (u "es") (u "en") ;;
     ret (py_ne_str translated test_text))
    (fun _ => ret false).
End TranslatorMore.

(** ** More of utils.py *)

(** [s.replace(old, new)] for single characters. *)
Definition replace_char (old new : N) (s : list N) : list N :=
  List.map (fun c => if c =? old then new else c) s.

(** [s.strip(chars)] *)
Fixpoint lstrip_chars (chars s : list N) : list N :=
  match s with
  | c :: r => if bool_decide (c ∈ chars) then lstrip_chars chars r else s
  | [] => []
  end.

Definition strip_chars (chars s : list N) : list N :=
  rev (lstrip_chars chars (rev (lstrip_chars chars s))).

(** The characters of [unsafe_chars] in the source: less-than,
    greater-than, colon, double quote, slash, backslash, bar, question
    mark and star. *)
Definition unsafe_chars : list N := [60; 62; 58; 34; 47; 92; 124; 63; 42].

(** [safe_filename(filename)], where [now] is what [int(time.time())]
    gives: the integer part of a [float], which has 309 digits at most and
    so can always be printed. *)
Definition safe_filename (now : Z) (filename : list N) : list N :=
  let safe_name :=
    fold_left (fun safe_name char => replace_char char 95 safe_name)
      unsafe_chars filename in
  let safe_name := strip_chars [32; 46] safe_name in
  match safe_name with
  | [] => u "file_" ++ py_str now
  | _ :: _ => safe_name
  end.

Section UtilsFiles.
Context {py : Python} (sv : services).

(** [os.path.dirname] and whether [os.makedirs(d, exist_ok=True)] can make
    or find the directory [d]. *)
Variable dirname : list N -> list N.
Variable makedirs_ok : list N -> bool.



End UtilsFiles.

(** ** Running the media tools *)

(** How [subprocess.run(cmd, capture_output=True, text=True, timeout=...)]
    can end: the process exits, the time runs out ([str(e)] is kept), or
    the call itself raises.  An exit status is a machine integer, so its
    text is that of [py_str]. *)
Inductive process_result :=
| Completed (returncode : Z) (stdout stderr : list N)
| TimeoutExpired (msg : list N)
| SpawnFailed (e : exn).

Record tools := Tools {
  run_process : list (list N) -> world -> process_result * world
}.

Section Media.
Context {py : Python} (tl : tools).

(** subtitle_burner.py *)
Definition burn_subtitles_to_video (video_path srt_path output_dir : list N)
    (output_filename : option (list N)) (font_size : Z)
    (font_color position : list N) : M (list N) :=
  fun w =>
    if negb (path_exists video_path w) then
      (Raise (Exn FileNotFoundError (u "Video file not found: " ++ video_path)), w)
    else if negb (path_exists srt_path w) then
      (Raise (Exn FileNotFoundError (u "SRT file not found: " ++ srt_path)), w)
    else
      let output_filename :=
        match output_filename with
        | None | Some [] => path_stem video_path ++ u "_with_subtitles.mp4"
        | Some (c :: r) => c :: r
        end in
      let output_path := path_join output_dir output_filename in
      match format_int font_size with
      | Raise e =>
          (* the f-string of the filter raises inside the try block *)
          (Raise (Exn Exception (u "Failed to burn subtitles: " ++ exn_msg e)), w)
      | Ok _ =>
      let cmd :=
        burn_command video_path srt_path output_path font_size font_color position in
      match run_process tl cmd w with
      | (Completed returncode stdout stderr, w') =>
          if negb (returncode =? 0)%Z then
            (* except subprocess.CalledProcessError *)
            (Raise (Exn Exception
                      (u "FFmpeg failed with return code " ++ py_str returncode
                       ++ match stderr with
                          | [] => []
                          | _ :: _ => [LF] ++ u "Error output: " ++ stderr
                          end)), w')
          else if negb (path_exists output_path w') then
            (* FileNotFoundError, caught by except Exception *)
            (Raise (Exn Exception
                      (u "Failed to burn subtitles: "
                       ++ u "Output video was not created")), w')
          else (Ok output_path, w')
      | (TimeoutExpired _, w') =>
          (Raise (Exn Exception (u "Video processing timed out after 1 hour")), w')
      | (SpawnFailed e, w') =>
          (Raise (Exn Exception (u "Failed to burn subtitles: " ++ exn_msg e)), w')
      end
      end.

(** video_handler.py.  [CalledProcessError(returncode, cmd, result.stderr)]
    puts the diagnostic in [output]; [e.stderr] stays [None]. *)
Definition extract_audio_command (video_path audio_path audio_format : list N)
  : list (list N) :=
  [ u "ffmpeg";
    u "-i"; video_path;
    u "-vn";
    u "-acodec";
    (if bool_decide (audio_format = u "wav") then u "pcm_s16le" else u "libmp3lame");
    u "-ac"; u "1";
    u "-ar"; u "16000";
    u "-y";
    audio_path ].

Definition extract_audio_from_video (video_path output_dir audio_format : list N)
  : M (list N) :=
  fun w =>
    if negb (path_exists video_path w) then
      (Raise (Exn FileNotFoundError (u "Video file not found: " ++ video_path)), w)
    else
      let video_name := path_stem video_path in
      let audio_filename := video_name ++ u "." ++ audio_format in
      let audio_path := path_join output_dir audio_filename in
      match run_process tl (extract_audio_command video_path audio_path audio_format) w with
      | (Completed returncode stdout stderr, w') =>
          if negb (returncode =? 0)%Z then
            (Raise (Exn Exception (u "Audio extraction failed: " ++ u "None")), w')
          else if negb (path_exists audio_path w') then
            (Raise (Exn Exception
                      (u "Error extracting audio: "
                       ++ u "Audio extraction failed - output file not created")), w')
          else (Ok audio_path, w')
      | (TimeoutExpired msg, w') =>
          (Raise (Exn Exception (u "Error extracting audio: " ++ msg)), w')
      | (SpawnFailed e, w') =>
          (Raise (Exn Exception (u "Error extracting audio: " ++ exn_msg e)), w')
      end.
End Media.



(** ** Sample data *)

(** Lines joined by line feeds. *)
Definition text_of (ls : list string) : list N := join [LF] (List.map u ls).

Local Open Scope string_scope.

Definition hello_cue : cue :=
  {| index := 1;
     timestamp := u "00:00:01,000 --> 00:00:03,000";
     text := JStr (u "<i>Hello</i> world") |}.

Definition markup_cue : cue :=
  {| index := 2;
     timestamp := u "00:00:04,000 --> 00:00:05,000";
     text := JStr (u "<b></b>") |}.

(** A block whose first line is not a number. *)
Definition bad_block : list N :=
  text_of ["abc"; "00:00:03,500 --> 00:00:04,000"; "skipped"].

(** Two well-formed blocks around a malformed one. *)
Definition sample_srt : list N :=
  text_of ["1"; "00:00:01,000 --> 00:00:03,000"; "<i>Hello</i> world"; "";
           "abc"; "00:00:03,500 --> 00:00:04,000"; "skipped"; "";
           "2"; "00:00:04,000 --> 00:00:05,000"; "<b></b>"; ""; ""].

Definition sample_world : world :=
  {| files := {[ u "in.srt" := TextFile sample_srt ]};
     sent := [];
     api_key := Some (u "sk-test") |}.

Definition blank_world : world :=
  {| files := {[ u "in.srt" := TextFile (text_of [" "; ""; "  "; ""]) ]};
     sent := [];
     api_key := None |}.

(** An audio file of one byte more than 25 MB. *)
Definition big_audio_world : world :=
  {| files := {[ u "talk.wav" := BinaryFile (25 * 1024 * 1024 + 1) ]};
     sent := [];
     api_key := Some (u "sk-test") |}.

(** No network: every request raises a connection error. *)
Definition offline : services :=
  {| http := fun _ _ => Raise (Exn RequestException (u "connection refused"));
     openai_client := fun _ => Ok tt;
     whisper := fun _ _ => Raise (Exn Exception (u "connection refused"));
     writable := fun _ => true |}.

(** Services that answer: the translation is always ["Hola mundo"], and
    the speech-to-text call accepts whatever it is given. *)
Definition answering : services :=
  {| http := fun _ _ =>
       Ok {| status_code := 200;
             json_body := Ok (JDict [(u "translatedText", JStr (u "Hola mundo"))]) |};
     openai_client := fun _ => Ok tt;
     whisper := fun _ _ =>
       Ok (text_of ["1"; "00:00:01,000 --> 00:00:03,000"; "Hello world"; ""; ""]);
     writable := fun _ => true |}.

(** A video with its subtitles, and two ways the media tool can behave:
    it writes the file named last on its command line, or it exits with
    an error. *)
Definition media_world : world :=
  {| files := {[ u "clip.mp4" := BinaryFile 1000;
                 u "clip.srt" := TextFile sample_srt ]};
     sent := [];
     api_key := None |}.

Definition encoder : tools :=
  {| run_process := fun cmd w =>
       (Completed 0 [] [],
        set_files (<[List.last cmd [] := BinaryFile 1]> (files w)) w) |}.

Definition failing_encoder : tools :=
  {| run_process := fun _ w => (Completed 1 [] (u "Invalid data found"), w) |}.

(** A speech-to-text service that enforces its size ceiling and answers
    below it. *)
Definition limited : services :=
  {| http := fun _ _ => Raise (Exn RequestException (u "connection refused"));
     openai_client := fun _ => Ok tt;
     whisper := fun _ d =>
       if (25 * 1024 * 1024 <? file_size d)%N
       then Raise (Exn Exception (u "Maximum content size limit (26214400) exceeded"))
       else Ok (text_of ["1"; "00:00:01,000 --> 00:00:03,000"; "Hello world"; ""; ""]);
     writable := fun _ => true |}.

(** The [float] written 93210.03, and the largest one below 1. *)
Definition sample_seconds : float64 := {| mant := 3202672244073431; scale := 35 |}.
Definition almost_one : float64 := {| mant := 9007199254740991; scale := 53 |}.

Local Close Scope string_scope.
(** * Properties *)

(** ** Strings *)

Lemma isspace_LF : isspace LF = true.
Proof. reflexivity. Qed.

Lemma not_space_not_LF c : isspace c = false -> (c =? LF) = false.
Proof.
  intros H. destruct (N.eqb_spec c LF) as [->|]; [|done].
  by rewrite isspace_LF in H.
Qed.

Lemma lstrip_visible s : starts_visible s = true -> lstrip s = s.
Proof.
  destruct s as [|c r]; [done|]. simpl.
  by destruct (isspace c).
Qed.

Lemma rstrip_visible s : ends_visible s = true -> rstrip s = s.
Proof.
  intros H. unfold rstrip. rewrite lstrip_visible by done. apply rev_involutive.
Qed.

Lemma strip_visible s :
  starts_visible s = true -> ends_visible s = true -> strip s = s.
Proof.
  intros H1 H2. unfold strip. rewrite lstrip_visible by done.
  by apply rstrip_visible.
Qed.

Lemma ends_visible_app s t : ends_visible t = true -> ends_visible (s ++ t) = true.
Proof.
  unfold ends_visible. rewrite rev_app_distr.
  by destruct (rev t).
Qed.

Lemma starts_visible_app s t : starts_visible s = true -> starts_visible (s ++ t) = true.
Proof. by destruct s. Qed.

Lemma rstrip_app_space s c : isspace c = true -> rstrip (s ++ [c]) = rstrip s.
Proof.
  intros H. unfold rstrip. rewrite rev_app_distr. simpl. by rewrite H.
Qed.

(** *** Splitting into lines and joining *)

Lemma split_on_nonempty sep s : split_on sep s <> [].
Proof.
  destruct s as [|c r]; [done|]. simpl.
  destruct (c =? sep); [done|]. by destruct (split_on sep r).
Qed.

Lemma split_on_line sep l s :
  sep ∉ l -> split_on sep (l ++ sep :: s) = l :: split_on sep s.
Proof.
  induction l as [|c l IH]; intros Hl; simpl.
  - by rewrite N.eqb_refl.
  - apply not_elem_of_cons in Hl as [Hc Hl].
    destruct (N.eqb_spec c sep) as [->|_]; [done|].
    by rewrite IH.
Qed.

Lemma split_on_single sep l : sep ∉ l -> split_on sep l = [l].
Proof.
  induction l as [|c l IH]; intros Hl; [done|]. simpl.
  apply not_elem_of_cons in Hl as [Hc Hl].
  destruct (N.eqb_spec c sep) as [->|_]; [done|].
  by rewrite IH.
Qed.

Lemma join_split sep s : join [sep] (split_on sep s) = s.
Proof.
  induction s as [|c r IH]; [done|]. simpl.
  destruct (N.eqb_spec c sep) as [->|_].
  - pose proof (split_on_nonempty sep r).
    simpl. destruct (split_on sep r) eqn:E; [done|]. by rewrite IH.
  - destruct (split_on sep r) as [|l ls] eqn:E; [by destruct (split_on_nonempty sep r)|].
    simpl in *. destruct ls; simpl in *; by rewrite <- IH.
Qed.

Lemma join_cons sep l ls :
  ls <> [] -> join sep (l :: ls) = l ++ sep ++ join sep ls.
Proof. by destruct ls. Qed.

Lemma split_on_lines sep s : Forall (fun l => sep ∉ l) (split_on sep s).
Proof.
  induction s as [|c r IH]; simpl.
  - repeat constructor. by apply not_elem_of_nil.
  - destruct (N.eqb_spec c sep) as [->|Hne].
    + constructor; [apply not_elem_of_nil | done].
    + destruct (split_on sep r) as [|l ls].
      * constructor; [|done]. by intros ->%list_elem_of_singleton.
      * apply Forall_cons in IH as [Hl Hls]. constructor; [|done].
        by intros [->|?]%elem_of_cons.
Qed.

(** *** Splitting at blank lines *)

Lemma scan_plain_line cur l rest :
  LF ∉ l ->
  split_blank_go Plain cur (l ++ rest) = split_blank_go Plain (cur ++ l) rest.
Proof.
  revert cur. induction l as [|c l IH]; intros cur Hl; simpl.
  - by rewrite app_nil_r.
  - apply not_elem_of_cons in Hl as [Hc Hl].
    destruct (N.eqb_spec c LF) as [->|_]; [done|].
    rewrite IH by done. by rewrite <- app_assoc.
Qed.

Lemma scan_pending_line ws cur l rest :
  LF ∉ l -> visible l = true ->
  split_blank_go (Pending ws) cur (l ++ rest)
  = split_blank_go Plain (cur ++ LF :: ws ++ l) rest.
Proof.
  revert ws. induction l as [|c l IH]; intros ws Hl Hv; [done|]. simpl in *.
  apply not_elem_of_cons in Hl as [Hc Hl].
  destruct (N.eqb_spec c LF) as [->|_]; [done|].
  destruct (isspace c); simpl in Hv.
  - rewrite IH by done. by rewrite <- app_assoc.
  - rewrite scan_plain_line by done.
    f_equal. rewrite <- !app_assoc. simpl. by rewrite <- app_assoc.
Qed.

Lemma join_lines l ls :
  join [LF] (l :: ls) = l ++ flat_map (fun l' => LF :: l') ls.
Proof.
  revert l. induction ls as [|l' ls IH]; intros l.
  - simpl. by rewrite app_nil_r.
  - rewrite join_cons by done. by rewrite IH.
Qed.

Lemma scan_more_lines cur ls rest :
  Forall (fun l => LF ∉ l) ls ->
  forallb visible ls = true ->
  split_blank_go Plain cur (flat_map (fun l' => LF :: l') ls ++ rest)
  = split_blank_go Plain (cur ++ flat_map (fun l' => LF :: l') ls) rest.
Proof.
  revert cur. induction ls as [|l ls IH]; intros cur Hl Hv.
  - simpl. by rewrite app_nil_r.
  - apply Forall_cons in Hl as [Hl Hls].
    simpl in Hv. apply andb_true_iff in Hv as [Hv' Hv].
    cbn [flat_map]. rewrite <- !app_comm_cons, <- app_assoc.
    cbn [split_blank_go]. rewrite N.eqb_refl.
    rewrite scan_pending_line by done.
    rewrite IH by done. f_equal.
    rewrite <- !app_assoc. by rewrite <- app_comm_cons.
Qed.

(** A text without a blank line is read through without a cut. *)
Lemma scan_solid cur b rest :
  forallb visible (split_on LF b) = true ->
  split_blank_go Plain cur (b ++ rest) = split_blank_go Plain (cur ++ b) rest.
Proof.
  intros Hv. pose proof (split_on_lines LF b) as Hl.
  rewrite <- (join_split LF b).
  destruct (split_on LF b) as [|l ls]; [simpl; by rewrite app_nil_r|].
  apply Forall_cons in Hl as [Hl Hls].
  simpl in Hv. apply andb_true_iff in Hv as [_ Hv].
  rewrite join_lines, <- !app_assoc.
  rewrite scan_plain_line by done.
  rewrite scan_more_lines by done.
  by rewrite <- !app_assoc.
Qed.

(** An empty line before a visible character ends the piece. *)
Lemma scan_separator cur b rest :
  starts_visible b = true ->
  split_blank_go Plain cur (LF :: LF :: b ++ rest)
  = cur :: split_blank_go Plain [] (b ++ rest).
Proof.
  destruct b as [|c b]; [done|]. simpl. intros Hc.
  apply negb_true_iff in Hc. rewrite (not_space_not_LF c Hc), Hc. done.
Qed.

Lemma join_head sep (b : list N) bs : exists rest, join sep (b :: bs) = b ++ rest.
Proof.
  destruct bs as [|b' bs]; [exists []; simpl; by rewrite app_nil_r|].
  rewrite join_cons by done. eauto.
Qed.

Lemma split_blank_blocks b bs :
  forallb solid_block (b :: bs) = true ->
  split_blank (join [LF; LF] (b :: bs)) = b :: bs.
Proof.
  unfold split_blank. revert b. induction bs as [|b' bs IH]; intros b Hs.
  - simpl in *. rewrite andb_true_r in Hs.
    apply andb_true_iff in Hs as [Hs _]. apply andb_true_iff in Hs as [Hs _].
    rewrite <- (app_nil_r b) at 1. by rewrite scan_solid.
  - rewrite join_cons by done.
    cbn [forallb] in Hs. apply andb_true_iff in Hs as [Hb Hs].
    unfold solid_block in Hb.
    apply andb_true_iff in Hb as [Hb _]. apply andb_true_iff in Hb as [Hb _].
    rewrite scan_solid by done. simpl app at 1.
    specialize (IH b' Hs).
    destruct (join_head [LF; LF] b' bs) as [rest Hrest].
    rewrite Hrest in *.
    cbn [forallb] in Hs. apply andb_true_iff in Hs as [Hb' _].
    unfold solid_block in Hb'.
    apply andb_true_iff in Hb' as [Hb' _]. apply andb_true_iff in Hb' as [_ Hb'].
    change ([LF; LF] ++ b' ++ rest) with (LF :: LF :: b' ++ rest).
    rewrite scan_separator by done. by rewrite IH.
Qed.

(** *** Integers and their decimal text *)

Section IntText.
Variable dec : N -> option N.
Hypothesis dec_ascii : forall c, c < 128 -> dec c = ascii_decimal c.

Lemma dec_digit d : d < 10 -> dec (48 + d) = Some d.
Proof.
  intros Hd. rewrite dec_ascii by lia. unfold ascii_decimal.
  replace (48 + d - 48) with d by lia.
  destruct (N.leb_spec 48 (48 + d)); [|lia].
  destruct (N.leb_spec (48 + d) 57); [done|lia].
Qed.

Lemma digits_value_step acc b d r :
  d < 10 ->
  digits_value dec acc b ((48 + d) :: r) = digits_value dec (10 * acc + d) true r.
Proof.
  intros Hd. simpl. rewrite dec_digit by done.
  destruct (N.eqb_spec (48 + d) 95); [lia|done].
Qed.

Lemma to_digits_S f n acc :
  to_digits (S f) n acc
  = if n <? 10 then (48 + n mod 10) :: acc
    else to_digits f (n / 10) ((48 + n mod 10) :: acc).
Proof. reflexivity. Qed.

Lemma to_digits_value f n acc b :
  n < 10 ^ N.of_nat (S f) ->
  digits_value dec 0 b (to_digits (S f) n acc) = digits_value dec n true acc.
Proof.
  revert n acc b. induction f as [|f IH]; intros n acc b Hn.
  - change (10 ^ N.of_nat 1) with 10 in Hn.
    rewrite to_digits_S. destruct (N.ltb_spec n 10); [|lia].
    rewrite N.mod_small by done.
    by rewrite digits_value_step.
  - rewrite to_digits_S. destruct (N.ltb_spec n 10) as [Hlt|Hge].
    + rewrite N.mod_small by done.
      by rewrite digits_value_step.
    + rewrite IH.
      * rewrite digits_value_step by (apply N.mod_lt; lia).
        f_equal. rewrite (N.div_mod n 10) at 3 by lia. done.
      * apply N.Div0.div_lt_upper_bound.
        replace (N.of_nat (S (S f))) with (N.succ (N.of_nat (S f))) in Hn by lia.
        by rewrite N.pow_succ_r' in Hn.
Qed.

Lemma str_of_N_value n b : digits_value dec 0 b (str_of_N n) = Some n.
Proof.
  unfold str_of_N. rewrite to_digits_value; [done|].
  rewrite Nat2N.inj_succ, N2Nat.id.
  destruct (N.eq_dec n 0) as [->|Hn]; [done|].
  pose proof (N.log2_spec n ltac:(lia)) as [_ Hlt].
  eapply N.lt_le_trans; [apply Hlt|].
  apply N.pow_le_mono_l. lia.
Qed.
End IntText.

Lemma to_digits_digits f n acc :
  Forall (fun c => 48 <= c <= 57) acc ->
  Forall (fun c => 48 <= c <= 57) (to_digits f n acc).
Proof.
  revert n acc. induction f as [|f IH]; intros n acc Hacc; [done|].
  cbn [to_digits].
  assert (Forall (fun c => 48 <= c <= 57) ((48 + n mod 10) :: acc)) as Hacc'.
  { constructor; [|done]. pose proof (N.mod_lt n 10 ltac:(lia)) as Hm.
    simpl. revert Hm. generalize (n mod 10). intros; lia. }
  destruct (n <? 10); [done|]. by apply IH.
Qed.

Lemma to_digits_nonempty f n acc : to_digits (S f) n acc <> [].
Proof.
  revert n acc. induction f as [|f IH]; intros n acc.
  - cbn [to_digits]. by destruct (n <? 10).
  - cbn [to_digits]. destruct (n <? 10); [done|]. apply IH.
Qed.

Lemma str_of_N_digits n : Forall (fun c => 48 <= c <= 57) (str_of_N n).
Proof. by apply to_digits_digits. Qed.

Lemma str_of_N_nonempty n : str_of_N n <> [].
Proof. apply to_digits_nonempty. Qed.

Lemma py_str_chars z : Forall int_char (py_str z) /\ py_str z <> [].
Proof.
  assert (forall n, Forall int_char (str_of_N n)) as Hd.
  { intros n. eapply Forall_impl; [apply str_of_N_digits|]. unfold int_char. simpl. lia. }
  destruct z as [|p|p]; simpl; split; try apply Hd; try apply str_of_N_nonempty.
  - constructor; [unfold int_char; lia | apply Hd].
  - done.
Qed.

Lemma int_char_plain c :
  int_char c -> isspace c = false /\ (c =? LF) = false /\ storable c = true.
Proof.
  unfold int_char. intros Hc.
  assert (In c [45; 46; 47; 48; 49; 50; 51; 52; 53; 54; 55; 56; 57]) as Hin.
  { assert (exists k, (k < 13)%nat /\ c = 45 + N.of_nat k) as (k & Hk & ->)
      by (exists (N.to_nat (c - 45)); lia).
    do 13 (destruct k as [|k]; [simpl; tauto|]). lia. }
  simpl in Hin. by repeat (destruct Hin as [<-|Hin]; [done|]).
Qed.

Lemma visible_ends s :
  s <> [] -> Forall (fun c => isspace c = false) s ->
  starts_visible s = true /\ ends_visible s = true.
Proof.
  intros Hne Hall. split.
  - destruct s as [|c r]; [done|]. simpl. inversion Hall; subst.
    by apply negb_true_iff.
  - unfold ends_visible. apply Forall_rev in Hall.
    destruct (rev s) as [|c r] eqn:E.
    + apply (f_equal (@rev N)) in E. rewrite rev_involutive in E. done.
    + simpl. inversion Hall; subst. by apply negb_true_iff.
Qed.

Lemma py_str_visible z :
  starts_visible (py_str z) = true /\ ends_visible (py_str z) = true.
Proof.
  destruct (py_str_chars z) as [Hc Hne].
  apply visible_ends; [done|].
  eapply Forall_impl; [apply Hc|]. intros c Hcc. by apply int_char_plain.
Qed.

Lemma int_space_isspace c : int_space c = true -> isspace c = true.
Proof. unfold int_space. by intros [? _]%andb_true_iff. Qed.

Lemma int_lstrip_visible s : starts_visible s = true -> int_lstrip s = s.
Proof.
  destruct s as [|c r]; [done|]. simpl. intros H%negb_true_iff.
  destruct (int_space c) eqn:E; [|done].
  apply int_space_isspace in E. congruence.
Qed.

Lemma int_strip_visible s :
  starts_visible s = true -> ends_visible s = true -> int_strip s = s.
Proof.
  intros H1 H2. unfold int_strip. rewrite (int_lstrip_visible s) by done.
  rewrite int_lstrip_visible by done. apply rev_involutive.
Qed.

Lemma digit_count_digits s :
  Forall (fun c => 48 <= c <= 57) s -> digit_count s = length s.
Proof.
  unfold digit_count. induction 1 as [|c r Hc _ IH]; [done|]. simpl.
  destruct (N.eqb_spec c 95); [lia|]. simpl. by rewrite IH.
Qed.

Lemma int_value_str_of_N dec n :
  (forall c, c < 128 -> dec c = ascii_decimal c) ->
  (length (str_of_N n) <= int_max_str_digits)%nat ->
  int_value dec (str_of_N n) = Some n.
Proof.
  intros Hdec Hlen. unfold int_value.
  rewrite digit_count_digits by apply str_of_N_digits.
  destruct (Nat.leb_spec (length (str_of_N n)) int_max_str_digits); [|lia].
  by apply str_of_N_value.
Qed.

Lemma py_int_unsigned dec n :
  (forall c, c < 128 -> dec c = ascii_decimal c) ->
  (length (str_of_N n) <= int_max_str_digits)%nat ->
  match str_of_N n with
  | [] => None
  | c :: r =>
      if c =? 43 then Z.of_N <$> int_value dec r
      else if c =? 45 then (fun n => (- Z.of_N n)%Z) <$> int_value dec r
      else Z.of_N <$> int_value dec (c :: r)
  end = Some (Z.of_N n).
Proof.
  intros Hdec Hlen.
  pose proof (str_of_N_digits n) as Hd.
  pose proof (int_value_str_of_N dec n Hdec Hlen) as Hv.
  destruct (str_of_N n) as [|c r]; [done|].
  apply Forall_cons in Hd as [Hc _].
  destruct (N.eqb_spec c 43); [lia|].
  destruct (N.eqb_spec c 45); [lia|].
  by rewrite Hv.
Qed.

(** [int(str(z)) == z], for an integer that can be printed. *)
Lemma py_int_py_str dec z :
  (forall c, c < 128 -> dec c = ascii_decimal c) ->
  printable_int z = true ->
  py_int dec (py_str z) = Some z.
Proof.
  intros Hdec Hz. unfold py_int.
  destruct (py_str_visible z) as [H1 H2]. rewrite int_strip_visible by done.
  unfold printable_int in Hz. apply Nat.leb_le in Hz.
  destruct z as [|p|p].
  - by apply (py_int_unsigned dec 0 Hdec).
  - by apply (py_int_unsigned dec (N.pos p) Hdec).
  - change (py_str (Z.neg p)) with (45 :: str_of_N (N.pos p)).
    change (45 =? 43) with false. change (45 =? 45) with true. cbv iota.
    by rewrite (int_value_str_of_N dec (N.pos p) Hdec).
Qed.

(** What [int] accepts can be printed again. *)
Lemma to_digits_length f n acc k :
  (1 <= k)%nat -> n < 10 ^ N.of_nat k ->
  (length (to_digits f n acc) <= k + length acc)%nat.
Proof.
  revert n acc k. induction f as [|f IH]; intros n acc k Hk Hn; [simpl; lia|].
  rewrite to_digits_S. destruct (N.ltb_spec n 10) as [Hlt|Hge]; [simpl; lia|].
  destruct k as [|[|k]]; [lia| |].
  - change (10 ^ N.of_nat 1) with 10 in Hn. lia.
  - etrans; [apply (IH _ _ (S k))|simpl; lia]; [lia|].
    apply N.Div0.div_lt_upper_bound.
    replace (N.of_nat (S (S k))) with (N.succ (N.of_nat (S k))) in Hn by lia.
    by rewrite N.pow_succ_r' in Hn.
Qed.

Lemma str_of_N_length n k :
  (1 <= k)%nat -> n < 10 ^ N.of_nat k -> (length (str_of_N n) <= k)%nat.
Proof.
  intros Hk Hn. unfold str_of_N.
  etrans; [by apply (to_digits_length _ _ _ k)|]. simpl. lia.
Qed.

Section IntBound.
Variable dec : N -> option N.
Hypothesis dec_digit_bound : forall c d, dec c = Some d -> d < 10.

Lemma digits_value_bound s acc b v :
  digits_value dec acc b s = Some v ->
  v + 1 <= (acc + 1) * 10 ^ N.of_nat (digit_count s).
Proof.
  revert acc b. induction s as [|c r IH]; intros acc b; simpl.
  - destruct b; [|done]. intros [= <-]. unfold digit_count. simpl. lia.
  - unfold digit_count. simpl. destruct (N.eqb_spec c 95) as [->|Hc]; simpl.
    + destruct b; [|done]. apply IH.
    + destruct (dec c) as [d|] eqn:Hd; [|done].
      intros Hv%IH. apply dec_digit_bound in Hd.
      fold (digit_count r).
      rewrite Nat2N.inj_succ, N.pow_succ_r'.
      etrans; [apply Hv|].
      rewrite (N.mul_comm 10), N.mul_assoc.
      apply N.mul_le_mono_r. lia.
Qed.

Lemma digits_value_some_digit s v :
  digits_value dec 0 false s = Some v -> (1 <= digit_count s)%nat.
Proof.
  destruct s as [|c r]; [done|]. unfold digit_count. simpl.
  destruct (N.eqb_spec c 95) as [->|Hc]; [done|]. simpl. lia.
Qed.

Lemma int_value_printable s n :
  int_value dec s = Some n ->
  (length (str_of_N n) <= int_max_str_digits)%nat.
Proof.
  unfold int_value.
  destruct (Nat.leb_spec (digit_count s) int_max_str_digits) as [Hle|]; [|done].
  intros Hv. etrans; [|exact Hle].
  apply str_of_N_length; [by eapply digits_value_some_digit|].
  apply digits_value_bound in Hv. lia.
Qed.

Lemma py_int_printable s z : py_int dec s = Some z -> printable_int z = true.
Proof.
  unfold py_int, printable_int. intros H. apply Nat.leb_le.
  destruct (int_strip s) as [|c r]; [done|].
  destruct (c =? 43).
  { destruct (int_value dec r) as [n|] eqn:E; [|done].
    injection H as <-. rewrite Zabs2N.id. by eapply int_value_printable. }
  destruct (c =? 45).
  { destruct (int_value dec r) as [n|] eqn:E; [|done].
    injection H as <-. rewrite Zabs2N.inj_opp, Zabs2N.id.
    by eapply int_value_printable. }
  destruct (int_value dec (c :: r)) as [n|] eqn:E; [|done].
  injection H as <-. rewrite Zabs2N.id. by eapply int_value_printable.
Qed.
End IntBound.

(** ** The subtitle codec on text *)

Lemma forallb_not_elem (P : N -> bool) x s :
  forallb P s = true -> P x = false -> x ∉ s.
Proof.
  intros Hall Hx Hin. rewrite forallb_forall in Hall.
  apply list_elem_of_In in Hin. apply Hall in Hin. congruence.
Qed.

Lemma starts_visible_visible s : starts_visible s = true -> visible s = true.
Proof. destruct s as [|c r]; [done|]. simpl. by intros ->. Qed.

Lemma ends_visible_join sep b bs :
  forallb ends_visible (b :: bs) = true -> ends_visible (join sep (b :: bs)) = true.
Proof.
  revert b. induction bs as [|b' bs IH]; intros b Hall.
  - simpl in *. by rewrite andb_true_r in Hall.
  - rewrite join_cons by done. cbn [forallb] in Hall.
    apply andb_true_iff in Hall as [_ Hall].
    rewrite app_assoc. apply ends_visible_app. by apply IH.
Qed.

Lemma starts_visible_join sep b bs :
  starts_visible b = true -> starts_visible (join sep (b :: bs)) = true.
Proof.
  intros Hb. destruct (join_head sep b bs) as [rest ->].
  by apply starts_visible_app.
Qed.

Lemma solid_block_parts b :
  solid_block b = true ->
  forallb visible (split_on LF b) = true
  /\ starts_visible b = true /\ ends_visible b = true.
Proof.
  unfold solid_block. intros H.
  apply andb_true_iff in H as [H H3]. by apply andb_true_iff in H as [H1 H2].
Qed.

Lemma forallb_solid_parts bs :
  forallb solid_block bs = true ->
  forallb starts_visible bs = true /\ forallb ends_visible bs = true.
Proof.
  induction bs as [|b bs IH]; [done|]. cbn [forallb].
  intros H. apply andb_true_iff in H as [Hb Hbs].
  apply solid_block_parts in Hb as (_ & H1 & H2).
  destruct (IH Hbs) as [-> ->]. by rewrite H1, H2.
Qed.

(** The text of a file made of solid blocks, each closed by an empty line,
    is cut back into these blocks. *)
Lemma split_blank_file b bs :
  forallb solid_block (b :: bs) = true ->
  split_blank (strip (join [LF; LF] (b :: bs) ++ [LF; LF])) = b :: bs.
Proof.
  intros Hs.
  destruct (forallb_solid_parts _ Hs) as [H1 H2].
  assert (strip (join [LF; LF] (b :: bs) ++ [LF; LF]) = join [LF; LF] (b :: bs))
    as ->; [|by apply split_blank_blocks].
  cbn [forallb] in H1. apply andb_true_iff in H1 as [H1 _].
  pose proof (starts_visible_join [LF; LF] b bs H1) as Hstart.
  pose proof (ends_visible_join [LF; LF] b bs H2) as Hend.
  unfold strip. rewrite lstrip_visible by by apply starts_visible_app.
  change [LF; LF] with ([LF] ++ [LF]) at 2. rewrite app_assoc.
  rewrite !rstrip_app_space by done. by apply rstrip_visible.
Qed.

Section Codec.
Context {py : Python}.

Lemma srt_text_join c cs :
  srt_text (c :: cs) = join [LF; LF] (List.map srt_block (c :: cs)) ++ [LF; LF].
Proof.
  revert c. induction cs as [|c' cs IH]; intros c.
  - simpl. by rewrite app_nil_r.
  - change (srt_text (c :: c' :: cs))
      with ((srt_block c ++ [LF; LF]) ++ srt_text (c' :: cs)).
    rewrite IH. cbn [List.map].
    rewrite (join_cons _ (srt_block c)) by done.
    by rewrite <- !app_assoc.
Qed.

Lemma well_formed_parts c :
  well_formed c = true ->
  exists t, text c = JStr t
    /\ visible (timestamp c) = true
    /\ (LF ∉ timestamp c)
    /\ forallb visible (split_on LF t) = true
    /\ ends_visible t = true.
Proof.
  unfold well_formed, timestamp_ok, text_ok. intros H.
  apply andb_true_iff in H as [Hts Ht].
  apply andb_true_iff in Hts as [_ Hts].
  apply andb_true_iff in Hts as [Hv Hts].
  destruct (text c) as [| | | |t| |]; try done.
  apply andb_true_iff in Ht as [Ht _]. apply andb_true_iff in Ht as [Hl He].
  exists t. repeat split; try done.
  eapply forallb_not_elem; [apply Hts|]. done.
Qed.

Lemma well_formed_printable c :
  well_formed c = true -> printable_int (index c) = true.
Proof.
  unfold well_formed. intros H.
  apply andb_true_iff in H as [H _]. by apply andb_true_iff in H as [? _].
Qed.

Lemma srt_block_lines c t :
  text c = JStr t -> LF ∉ timestamp c ->
  split_on LF (srt_block c) = py_str (index c) :: timestamp c :: split_on LF t.
Proof.
  intros Ht Hts. unfold srt_block. rewrite Ht, format_value_str.
  destruct (py_str_chars (index c)) as [Hc _].
  cbn [app]. rewrite split_on_line.
  - by rewrite split_on_line.
  - intros Hin. rewrite Forall_forall in Hc. apply Hc in Hin.
    apply int_char_plain in Hin as (_ & Hlf & _). by rewrite N.eqb_refl in Hlf.
Qed.

Lemma srt_block_solid c : well_formed c = true -> solid_block (srt_block c) = true.
Proof.
  intros Hwf. destruct (well_formed_parts c Hwf) as (t & Ht & Hv & Hlf & Hl & He).
  unfold solid_block. rewrite (srt_block_lines c t) by done.
  destruct (py_str_visible (index c)) as [Hs _].
  cbn [forallb]. rewrite (starts_visible_visible _ Hs), Hv, Hl. simpl.
  unfold srt_block. rewrite Ht, format_value_str.
  rewrite starts_visible_app by done.
  by rewrite !app_assoc, ends_visible_app.
Qed.

Lemma parse_block_srt_block c :
  well_formed c = true -> parse_block (srt_block c) = Some c.
Proof.
  intros Hwf. destruct (well_formed_parts c Hwf) as (t & Ht & Hv & Hlf & Hl & He).
  pose proof (srt_block_solid c Hwf) as Hs.
  apply solid_block_parts in Hs as (_ & Hs1 & Hs2).
  unfold parse_block. rewrite strip_visible by done.
  rewrite (srt_block_lines c t) by done.
  pose proof (split_on_nonempty LF t) as Hne.
  destruct (split_on LF t) as [|l ls] eqn:E; [done|].
  cbn [length Nat.leb nth drop].
  rewrite py_int_py_str by (apply todecimal_ascii || by apply well_formed_printable).
  rewrite <- E, join_split. destruct c; simpl in *. by subst.
Qed.

Lemma srt_blocks_solid cues :
  forallb well_formed cues = true ->
  forallb solid_block (List.map srt_block cues) = true.
Proof.
  induction cues as [|c cs IH]; [done|]. cbn [forallb List.map].
  intros H. apply andb_true_iff in H as [Hc Hcs].
  by rewrite srt_block_solid, IH.
Qed.

Lemma parse_srt_blocks cues :
  forallb well_formed cues = true ->
  omap parse_block (List.map srt_block cues) = cues.
Proof.
  induction cues as [|c cs IH]; [done|]. cbn [forallb List.map].
  intros H. apply andb_true_iff in H as [Hc Hcs].
  cbn. rewrite parse_block_srt_block by done. simpl. by rewrite IH.
Qed.

(** Parsing the text of a file written from well-formed cues gives the
    cues back. *)
Lemma parse_srt_srt_text cues :
  forallb well_formed cues = true -> parse_srt (srt_text cues) = cues.
Proof.
  intros Hwf. unfold parse_srt.
  destruct cues as [|c cs]; [done|].
  rewrite srt_text_join. cbn [List.map]. rewrite split_blank_file.
  - by apply (parse_srt_blocks (c :: cs)).
  - by apply (srt_blocks_solid (c :: cs)).
Qed.

(** When a block becomes a cue. *)
Lemma parse_block_Some block c :
  parse_block block = Some c <->
  (3 <= length (split_on LF (strip block)))%nat
  /\ py_int todecimal (nth 0 (split_on LF (strip block)) []) = Some (index c)
  /\ timestamp c = nth 1 (split_on LF (strip block)) []
  /\ text c = JStr (join [LF] (drop 2 (split_on LF (strip block)))).
Proof.
  unfold parse_block.
  destruct (Nat.leb_spec 3 (length (split_on LF (strip block)))) as [Hlen|Hlen].
  - destruct (py_int todecimal _) as [idx|].
    + split.
      * intros [= <-]. done.
      * intros (_ & [= ->] & Hts & Ht). destruct c; simpl in *. by subst.
    + split; [done|]. by intros (_ & ? & _).
  - split; [done|]. intros (? & _). lia.
Qed.

(** A file of solid blocks: each block is judged on its own. *)
Lemma parse_srt_blocks_independent b bs :
  forallb solid_block (b :: bs) = true ->
  parse_srt (join [LF; LF] (b :: bs) ++ [LF; LF]) = omap parse_block (b :: bs).
Proof. intros Hs. unfold parse_srt. by rewrite split_blank_file. Qed.

Lemma lstrip_spaces s : forallb isspace s = true -> lstrip s = [].
Proof.
  induction s as [|c r IH]; [done|]. simpl. intros H.
  apply andb_true_iff in H as [-> Hr]. by apply IH.
Qed.

(** A text of whitespace alone holds no cue. *)
Lemma parse_srt_blank content :
  forallb isspace content = true -> parse_srt content = [].
Proof.
  intros H. unfold parse_srt, strip. by rewrite lstrip_spaces.
Qed.

(** What [int] refuses. *)
Lemma int_lstrip_suffix s :
  exists ws, s = ws ++ int_lstrip s /\ forallb int_space ws = true.
Proof.
  induction s as [|c r (ws & Hr & Hws)]; [by exists []|]. simpl.
  destruct (int_space c) eqn:E.
  - exists (c :: ws). simpl. by rewrite E, Hws, <- Hr.
  - by exists [].
Qed.

Lemma int_strip_keeps s c :
  c ∈ s -> int_space c = false -> c ∈ int_strip s.
Proof.
  intros Hin Hc. unfold int_strip.
  destruct (int_lstrip_suffix s) as (a & Ha & Hwa).
  destruct (int_lstrip_suffix (rev (int_lstrip s))) as (b & Hb & Hwb).
  assert (forall ws, forallb int_space ws = true -> c ∉ ws) as Hout.
  { intros ws Hws Hcin. rewrite forallb_forall in Hws.
    apply list_elem_of_In, Hws in Hcin. congruence. }
  rewrite Ha in Hin. apply elem_of_app in Hin as [Hin|Hin]; [by apply Hout in Hin|].
  apply list_elem_of_In, in_rev, list_elem_of_In in Hin. rewrite Hb in Hin.
  apply elem_of_app in Hin as [Hin|Hin]; [by apply Hout in Hin|].
  apply list_elem_of_In, (proj1 (in_rev _ _)). by apply list_elem_of_In.
Qed.

Lemma digits_value_chars dec s acc b v c :
  digits_value dec acc b s = Some v -> c ∈ s -> c = 95 \/ is_Some (dec c).
Proof.
  revert acc b. induction s as [|x r IH]; intros acc b Hv Hin;
    [by apply elem_of_nil in Hin|].
  simpl in Hv. destruct (N.eqb_spec x 95) as [->|Hx].
  - apply elem_of_cons in Hin as [->|Hin]; [by left|].
    destruct b; [|done]. by eapply IH.
  - destruct (dec x) as [d|] eqn:Hd; [|done].
    apply elem_of_cons in Hin as [->|Hin]; [right; by rewrite Hd|].
    by eapply IH.
Qed.

Lemma py_int_bad_char dec s c :
  c ∈ s -> dec c = None -> c <> 95 -> c <> 43 -> c <> 45 -> isspace c = false ->
  py_int dec s = None.
Proof.
  intros Hin Hdec H95 H43 H45 Hsp.
  assert (int_space c = false) as Hc by (unfold int_space; by rewrite Hsp).
  apply int_strip_keeps in Hin; [|done]. unfold py_int.
  assert (forall r, c ∈ r -> int_value dec r = None) as Hbad.
  { intros r Hr. unfold int_value. destruct (_ <=? _)%nat; [|done].
    destruct (digits_value dec 0 false r) as [v|] eqn:Hv; [|done].
    destruct (digits_value_chars dec r 0 false v c Hv Hr) as [?|[d Hd]]; congruence. }
  destruct (int_strip s) as [|x r]; [done|].
  destruct (N.eqb_spec x 43) as [->|].
  { apply elem_of_cons in Hin as [?|Hin]; [done|]. by rewrite Hbad. }
  destruct (N.eqb_spec x 45) as [->|].
  { apply elem_of_cons in Hin as [?|Hin]; [done|]. by rewrite Hbad. }
  by rewrite Hbad.
Qed.

Lemma py_int_too_long dec s :
  Forall (fun c => 48 <= c <= 57) s -> (int_max_str_digits < length s)%nat ->
  py_int dec s = None.
Proof.
  intros Hd Hlen. unfold py_int.
  assert (s <> []) as Hne by (intros ->; simpl in Hlen; lia).
  assert (Forall (fun c => isspace c = false) s) as Hvis.
  { eapply Forall_impl; [apply Hd|]. intros c Hc. simpl in Hc.
    destruct (int_char_plain c) as [? _]; [unfold int_char; lia|done]. }
  destruct (visible_ends s Hne Hvis) as [H1 H2].
  rewrite int_strip_visible by done.
  destruct s as [|c r]; [done|].
  pose proof (digit_count_digits (c :: r) Hd) as Hcount.
  apply Forall_cons in Hd as [Hc _].
  destruct (N.eqb_spec c 43); [lia|]. destruct (N.eqb_spec c 45); [lia|].
  unfold int_value. rewrite Hcount.
  by destruct (Nat.leb_spec (length (c :: r)) int_max_str_digits); [lia|].
Qed.

Lemma parse_block_refused block :
  solid_block block = true ->
  py_int todecimal (nth 0 (split_on LF block) []) = None ->
  parse_block block = None.
Proof.
  intros (_ & Hs & He)%solid_block_parts Hint.
  unfold parse_block. rewrite strip_visible by done. rewrite Hint.
  by destruct (_ <=? _)%nat.
Qed.

(** C4, as the code has it.  The parser cuts the stripped text at blank
    lines and judges each block on its own.  A block becomes a cue exactly
    when it has at least three lines and [int] accepts its first line.
    The index may be any integer, of either sign, and the second line is
    taken as the timestamp without being looked at: the block written for
    any well-formed cue is read as that cue.  A block is passed over when
    its first line holds a character that is no digit, sign, underscore
    or whitespace, or more digits than [int] takes.  So a malformed block
    between two well-formed ones leaves exactly the two cues. *)
Theorem parse_srt_lenient :
  (forall block c,
      parse_block block = Some c <->
      (3 <= length (split_on LF (strip block)))%nat
      /\ py_int todecimal (nth 0 (split_on LF (strip block)) []) = Some (index c)
      /\ timestamp c = nth 1 (split_on LF (strip block)) []
      /\ text c = JStr (join [LF] (drop 2 (split_on LF (strip block)))))
  /\ (forall c, well_formed c = true -> parse_block (srt_block c) = Some c)
  /\ (forall bad x,
        solid_block bad = true ->
        x ∈ nth 0 (split_on LF bad) [] ->
        todecimal x = None -> x <> 95 -> x <> 43 -> x <> 45 -> isspace x = false ->
        parse_block bad = None)
  /\ (forall bad,
        solid_block bad = true ->
        Forall (fun x => 48 <= x <= 57) (nth 0 (split_on LF bad) []) ->
        (int_max_str_digits < length (nth 0 (split_on LF bad) []))%nat ->
        parse_block bad = None)
  /\ (forall b bs,
        forallb solid_block (b :: bs) = true ->
        parse_srt (join [LF; LF] (b :: bs) ++ [LF; LF]) = omap parse_block (b :: bs))
  /\ (forall c1 c2 bad,
        well_formed c1 = true -> well_formed c2 = true ->
        solid_block bad = true ->
        parse_block bad = None ->
        parse_srt (srt_block c1 ++ [LF; LF] ++ bad ++ [LF; LF]
                   ++ srt_block c2 ++ [LF; LF])
        = [c1; c2]).
Proof.
  split; [apply parse_block_Some|].
  split; [apply parse_block_srt_block|].
  split; [|split; [|split; [apply parse_srt_blocks_independent|]]].
  - intros bad x Hbad Hin Hdec H95 H43 H45 Hsp.
    apply parse_block_refused; [done|]. by apply (py_int_bad_char _ _ x).
  - intros bad Hbad Hd Hlen.
    apply parse_block_refused; [done|]. by apply py_int_too_long.
  - intros c1 c2 bad H1 H2 Hbad Hnone.
    replace (srt_block c1 ++ [LF; LF] ++ bad ++ [LF; LF] ++ srt_block c2 ++ [LF; LF])
      with (join [LF; LF] [srt_block c1; bad; srt_block c2] ++ [LF; LF])
      by (cbn [join]; by rewrite <- !app_assoc).
    rewrite parse_srt_blocks_independent
      by (cbn [forallb]; by rewrite !srt_block_solid, Hbad).
    cbn. by rewrite !parse_block_srt_block, Hnone.
Qed.
End Codec.

(** ** The subtitle codec on files *)

Lemma universal_newlines_plain s :
  forallb (fun c => negb (c =? CR)) s = true -> universal_newlines s = s.
Proof.
  induction s as [|c r IH]; [done|]. simpl. intros H.
  apply andb_true_iff in H as [Hc Hr]. apply negb_true_iff in Hc.
  by rewrite Hc, IH.
Qed.

Section FileCodec.
Context {py : Python} (sv : services).

Lemma write_newlines_app s t :
  write_newlines (s ++ t) = write_newlines s ++ write_newlines t.
Proof. unfold write_newlines. destruct crlf; [apply flat_map_app | done]. Qed.

(** What was written in text mode is read back as it was, as long as it
    holds no carriage return. *)
Lemma universal_write_newlines s :
  forallb (fun c => negb (c =? CR)) s = true ->
  universal_newlines (write_newlines s) = s.
Proof.
  unfold write_newlines. destruct crlf; [|apply universal_newlines_plain].
  induction s as [|c r IH]; [done|]. cbn [forallb flat_map]. intros H.
  apply andb_true_iff in H as [Hc Hr]. apply negb_true_iff in Hc.
  destruct (N.eqb_spec c LF) as [->|Hne].
  - simpl. by rewrite IH.
  - simpl. by rewrite Hc, IH.
Qed.

Lemma with_file_lookup path content w :
  files (with_file path content w) !! path = Some (TextFile content).
Proof. simpl. apply lookup_insert_eq. Qed.

Lemma with_file_again path c1 c2 w :
  with_file path c2 (with_file path c1 w) = with_file path c2 w.
Proof. unfold with_file, set_files. simpl. by rewrite insert_insert_eq. Qed.

Lemma with_file_same path content w :
  files w !! path = Some (TextFile content) -> with_file path content w = w.
Proof.
  intros H. unfold with_file, set_files. rewrite insert_id by done. by destruct w.
Qed.

Lemma write_run path s old w :
  files w !! path = Some (TextFile old) ->
  write path s w
  = if forallb encodable s
    then (Ok tt, with_file path (old ++ write_newlines s) w)
    else (Raise (Exn UnicodeEncodeError s), w).
Proof. unfold write. by intros ->. Qed.

Lemma write_ok path s old w :
  forallb encodable s = true ->
  files w !! path = Some (TextFile old) ->
  write path s w = (Ok tt, with_file path (old ++ write_newlines s) w).
Proof. intros H1 H2. by rewrite (write_run _ _ old), H1. Qed.

Lemma write_newlines_nil : write_newlines [] = [].
Proof. unfold write_newlines. by destruct crlf. Qed.

Lemma srt_text_cons c cs :
  srt_text (c :: cs)
  = (py_str (index c) ++ [LF]) ++ (timestamp c ++ [LF])
    ++ (format_value (text c) ++ [LF; LF]) ++ srt_text cs.
Proof.
  change (srt_text (c :: cs)) with ((srt_block c ++ [LF; LF]) ++ srt_text cs).
  unfold srt_block. by rewrite <- !app_assoc.
Qed.

(** The three writes of one subtitle, as far as they get. *)
Lemma write_subtitle_run path c old w :
  files w !! path = Some (TextFile old) ->
  let A := py_str (index c) ++ [LF] in
  let B := timestamp c ++ [LF] in
  let C := format_value (text c) ++ [LF; LF] in
  write_subtitle path c w
  = if negb (printable_int (index c)) then (Raise int_limit_error, w)
    else if negb (forallb encodable A) then (Raise (Exn UnicodeEncodeError A), w)
    else if negb (forallb encodable B)
      then (Raise (Exn UnicodeEncodeError B),
            with_file path (old ++ write_newlines A) w)
    else if negb (printable (text c))
      then (Raise int_limit_error,
            with_file path (old ++ write_newlines (A ++ B)) w)
    else if negb (forallb encodable C)
      then (Raise (Exn UnicodeEncodeError C),
            with_file path (old ++ write_newlines (A ++ B)) w)
    else (Ok tt, with_file path (old ++ write_newlines (A ++ B ++ C)) w).
Proof.
  intros Hold A B C. unfold write_subtitle, bind at 1, lift, format_int.
  destruct (printable_int (index c)); [|done]. cbn [negb]. fold A.
  unfold bind at 1. rewrite (write_run _ _ old) by done.
  destruct (forallb encodable A); [|done]. cbn [negb].
  unfold bind at 1. erewrite write_run by apply with_file_lookup. fold B.
  destruct (forallb encodable B); cbn [negb]; [|done].
  rewrite with_file_again. unfold bind at 1, lift, format_text.
  destruct (printable (text c)); cbn [negb];
    [|by rewrite write_newlines_app, app_assoc].
  erewrite write_run by apply with_file_lookup. fold C.
  rewrite !with_file_again, !write_newlines_app, !app_assoc.
  by destruct (forallb encodable C).
Qed.

Lemma write_cues_ok path cues old w :
  forallb printable_cue cues = true ->
  forallb encodable (srt_text cues) = true ->
  files w !! path = Some (TextFile old) ->
  for_each cues (write_subtitle path) w
  = (Ok tt, with_file path (old ++ write_newlines (srt_text cues)) w).
Proof.
  revert old w. induction cues as [|c cs IH]; intros old w Hp Henc Hold.
  - change (srt_text []) with (@nil N). rewrite write_newlines_nil.
    simpl. unfold ret. by rewrite app_nil_r, with_file_same.
  - rewrite srt_text_cons in *. cbn [forallb] in Hp.
    apply andb_true_iff in Hp as [Hc Hp].
    unfold printable_cue in Hc. apply andb_true_iff in Hc as [Hc1 Hc2].
    rewrite !forallb_app in Henc.
    apply andb_true_iff in Henc as [H1 Henc].
    apply andb_true_iff in Henc as [H2 Henc].
    apply andb_true_iff in Henc as [H3 Henc].
    cbn [for_each]. unfold bind at 1.
    rewrite (write_subtitle_run path c old w Hold). cbv zeta.
    rewrite !forallb_app, Hc1, Hc2, H1, H2, H3. cbn [negb].
    erewrite IH; [|done|done|apply with_file_lookup].
    rewrite with_file_again. do 2 f_equal.
    rewrite !write_newlines_app, <- !app_assoc. done.
Qed.

(** Text that cannot be printed or encoded stops the writing with an
    exception; the file keeps what was written before it. *)
Lemma write_cues_partial path cues old w :
  forallb printable_cue cues && forallb encodable (srt_text cues) = false ->
  files w !! path = Some (TextFile old) ->
  exists e pre post,
    for_each cues (write_subtitle path) w
    = (Raise e, with_file path (old ++ write_newlines pre) w)
    /\ (exn_cls e = UnicodeEncodeError \/ e = int_limit_error)
    /\ srt_text cues = pre ++ post
    /\ forallb encodable pre = true
    /\ post <> [].
Proof.
  revert old w. induction cues as [|c cs IH]; intros old w Hbad Hold; [done|].
  rewrite srt_text_cons in *. cbn [forallb] in Hbad. unfold printable_cue at 1 in Hbad.
  set (A := py_str (index c) ++ [LF]) in *.
  set (B := timestamp c ++ [LF]) in *.
  set (C := format_value (text c) ++ [LF; LF]) in *.
  assert (A <> []) as HA by (subst A; by destruct (py_str (index c))).
  assert (B <> []) as HB by (subst B; by destruct (timestamp c)).
  assert (C <> []) as HC by (subst C; by destruct (format_value (text c))).
  cbn [for_each]. unfold bind at 1.
  rewrite (write_subtitle_run path c old w Hold). cbv zeta. fold A B C.
  destruct (printable_int (index c)) eqn:Hc1; cbn [negb].
  2:{ exists int_limit_error, [], (A ++ B ++ C ++ srt_text cs).
      rewrite write_newlines_nil, app_nil_r, with_file_same by done.
      repeat split; try done; [by right|by destruct A]. }
  destruct (forallb encodable A) eqn:E1; cbn [negb].
  2:{ exists (Exn UnicodeEncodeError A), [], (A ++ B ++ C ++ srt_text cs).
      rewrite write_newlines_nil, app_nil_r, with_file_same by done.
      repeat split; try done; [by left|by destruct A]. }
  destruct (forallb encodable B) eqn:E2; cbn [negb].
  2:{ exists (Exn UnicodeEncodeError B), A, (B ++ C ++ srt_text cs).
      repeat split; try done; [by left|by destruct B]. }
  destruct (printable (text c)) eqn:Hc2; cbn [negb].
  2:{ exists int_limit_error, (A ++ B), (C ++ srt_text cs).
      rewrite forallb_app, E1, E2, <- !app_assoc.
      repeat split; try done; [by right|by destruct C]. }
  destruct (forallb encodable C) eqn:E3; cbn [negb].
  2:{ exists (Exn UnicodeEncodeError C), (A ++ B), (C ++ srt_text cs).
      rewrite forallb_app, E1, E2, <- !app_assoc.
      repeat split; try done; [by left|by destruct C]. }
  rewrite !forallb_app, E1, E2, E3 in Hbad. cbn [andb] in Hbad.
  edestruct (IH (old ++ write_newlines (A ++ B ++ C)))
    as (e & pre & post & Hrun & He & Heq & Hpre & Hpost);
    [exact Hbad|apply with_file_lookup|].
  rewrite Hrun. exists e, (A ++ B ++ C ++ pre), post.
  rewrite !with_file_again, !write_newlines_app, !forallb_app, E1, E2, E3, Hpre.
  rewrite Heq, <- !app_assoc. done.
Qed.

Lemma create_translated_srt_ok cues path w :
  writable sv path = true ->
  forallb printable_cue cues = true ->
  forallb encodable (srt_text cues) = true ->
  create_translated_srt sv cues path w
  = (Ok path, with_file path (write_newlines (srt_text cues)) w).
Proof.
  intros Hw Hp Henc. unfold create_translated_srt, bind at 1, open_w. rewrite Hw.
  unfold bind at 1.
  erewrite write_cues_ok; [|done|done|apply with_file_lookup].
  unfold ret. by rewrite with_file_again.
Qed.

(** Every way [create_translated_srt] can end. *)
Lemma create_translated_srt_run cues path w :
  (writable sv path = true /\ forallb printable_cue cues = true
   /\ forallb encodable (srt_text cues) = true
   /\ create_translated_srt sv cues path w
      = (Ok path, with_file path (write_newlines (srt_text cues)) w))
  \/ (writable sv path = false
      /\ create_translated_srt sv cues path w = (Raise (Exn OSError path), w))
  \/ (writable sv path = true
      /\ forallb printable_cue cues && forallb encodable (srt_text cues) = false
      /\ exists e content,
           create_translated_srt sv cues path w = (Raise e, with_file path content w)
           /\ (exn_cls e = UnicodeEncodeError \/ e = int_limit_error)).
Proof.
  destruct (writable sv path) eqn:Hw.
  - destruct (forallb printable_cue cues && forallb encodable (srt_text cues)) eqn:Hok.
    + apply andb_true_iff in Hok as [Hp Henc].
      left. by rewrite create_translated_srt_ok.
    + right. right. repeat split.
      destruct (write_cues_partial path cues [] (with_file path [] w) Hok)
        as (e & pre & post & Hrun & He & _); [apply with_file_lookup|].
      exists e, (write_newlines pre). split; [|done].
      unfold create_translated_srt, bind at 1, open_w. rewrite Hw.
      unfold bind at 1. rewrite Hrun. by rewrite with_file_again.
  - right. left. split; [done|].
    unfold create_translated_srt, bind at 1, open_w. by rewrite Hw.
Qed.

Lemma well_formed_printable_cues cues :
  forallb well_formed cues = true -> forallb printable_cue cues = true.
Proof.
  rewrite !forallb_forall. intros H c Hc. specialize (H c Hc).
  unfold printable_cue. rewrite (well_formed_printable c H).
  unfold well_formed in H. apply andb_true_iff in H as [_ H].
  by destruct (text c).
Qed.

Lemma forallb_weaken (P Q : N -> bool) s :
  (forall c, P c = true -> Q c = true) ->
  forallb P s = true -> forallb Q s = true.
Proof.
  intros HPQ. rewrite !forallb_forall. auto.
Qed.

Lemma py_str_storable z : forallb storable (py_str z) = true.
Proof.
  apply forallb_forall. intros c Hc.
  destruct (py_str_chars z) as [Hall _]. rewrite Forall_forall in Hall.
  apply list_elem_of_In, Hall in Hc. by apply int_char_plain in Hc as (_ & _ & ?).
Qed.

Lemma srt_text_storable cues :
  forallb well_formed cues = true -> forallb storable (srt_text cues) = true.
Proof.
  induction cues as [|c cs IH]; [done|]. cbn [forallb]. intros H.
  apply andb_true_iff in H as [Hc Hcs].
  change (srt_text (c :: cs)) with ((srt_block c ++ [LF; LF]) ++ srt_text cs).
  rewrite !forallb_app, IH by done.
  unfold well_formed, timestamp_ok, text_ok in Hc.
  apply andb_true_iff in Hc as [Hts Ht].
  apply andb_true_iff in Hts as [_ Hts].
  apply andb_true_iff in Hts as [_ Hts].
  destruct (text c) as [| | | |t| |] eqn:E; try done.
  apply andb_true_iff in Ht as [_ Ht].
  unfold srt_block. rewrite E, format_value_str, !forallb_app.
  rewrite py_str_storable, Ht.
  rewrite (forallb_weaken _ storable _ ltac:(by intros ? [_ ?]%andb_true_iff) Hts).
  done.
Qed.

(** C3.  A set of well-formed cues written by [create_translated_srt]
    and read again by [parse_srt_file] comes back as the same list: the
    same cues in the same order, each with its index, its timestamp line
    and its text.  The file holds one block per cue, in the order of the
    list, with the indices as they are.  A cue is well formed when its
    index has no more digits than the interpreter prints, its timestamp is
    one line that shows something, and its text has no blank line and no
    whitespace at its end. *)
Theorem srt_round_trip cues path w :
  forallb well_formed cues = true ->
  writable sv path = true ->
  exists w',
    create_translated_srt sv cues path w = (Ok path, w')
    /\ files w' !! path = Some (TextFile (write_newlines (srt_text cues)))
    /\ parse_srt_file path w' = (Ok cues, w').
Proof.
  intros Hwf Hw.
  pose proof (srt_text_storable cues Hwf) as Hst.
  eexists. split; [|split].
  - apply create_translated_srt_ok; [done|by apply well_formed_printable_cues|].
    revert Hst. apply forallb_weaken. by intros ? [_ ?]%andb_true_iff.
  - apply with_file_lookup.
  - unfold parse_srt_file, bind, read_text. rewrite with_file_lookup.
    rewrite universal_write_newlines.
    + by rewrite parse_srt_srt_text.
    + revert Hst. apply forallb_weaken. by intros ? [? _]%andb_true_iff.
Qed.
End FileCodec.

(** ** The translation adapter degrades to pass-through *)

Section TranslateText.
Context {py : Python} (sv : services).

Lemma fallback_attempt_world text target source w :
  snd (fallback_attempt sv text target source w)
  = after_request (mymemory_request text target source) w.
Proof.
  unfold fallback_attempt, bind, http_request, raise_for_status, lift, ret, raise,
    after_request.
  destruct (http sv (sent w) _) as [resp|e]; [|done].
  destruct (_ && _); [done|].
  destruct (json_body resp) as [j|e]; [|done].
  destruct (py_get j _ _) as [st|e]; [|done].
  destruct (py_eq_200 st); [|done].
  destruct (py_getitem j _) as [d|e]; [|done].
  by destruct (py_getitem d _).
Qed.

Lemma libretranslate_attempt_world text target source w :
  snd (libretranslate_attempt sv text target source w)
  = after_request (libretranslate_request text target source) w.
Proof.
  unfold libretranslate_attempt, bind, http_request, raise_for_status, lift, ret,
    raise, after_request.
  destruct (http sv (sent w) _) as [resp|e]; [|done].
  destruct (_ && _); [done|].
  destruct (json_body resp) as [j|e]; [|done].
  by destruct (py_get j _ _).
Qed.

(** The fallback never raises, and when its attempt fails it answers with
    the text it was given. *)
Lemma translate_text_fallback_total text target source w :
  exists v,
    translate_text_fallback sv text target source w
    = (Ok v, after_request (mymemory_request text target source) w)
    /\ (fst (fallback_attempt sv text target source w) = Ok (Some v)
        \/ v = JStr text).
Proof.
  unfold translate_text_fallback, try_except, bind at 1.
  pose proof (fallback_attempt_world text target source w) as Hw.
  destruct (fallback_attempt sv text target source w) as [[[v|]|e] w1];
    simpl in Hw; subst w1; unfold ret; eauto.
Qed.

Lemma translate_text_total text target source w :
  exists v w', translate_text_libretranslate sv text target source w = (Ok v, w').
Proof.
  unfold translate_text_libretranslate, try_except.
  destruct (libretranslate_attempt sv text target source w) as [[v|e] w1]; [eauto|].
  destruct (is_RequestException e); [|unfold ret; eauto].
  destruct (translate_text_fallback_total text target source w1) as (v & -> & _).
  eauto.
Qed.

Lemma translate_text_unfold text target source w :
  translate_text_libretranslate sv text target source w
  = match fst (libretranslate_attempt sv text target source w) with
    | Ok v => (Ok v, after_request (libretranslate_request text target source) w)
    | Raise e =>
        if is_RequestException e
        then translate_text_fallback sv text target source
               (after_request (libretranslate_request text target source) w)
        else (Ok (JStr text), after_request (libretranslate_request text target source) w)
    end.
Proof.
  pose proof (libretranslate_attempt_world text target source w) as Hw.
  unfold translate_text_libretranslate, try_except.
  destruct (libretranslate_attempt sv text target source w) as [[v|e] w1];
    simpl in *; subst w1; [done|].
  by destruct (is_RequestException e).
Qed.

Lemma translate_text_fallback_failed text target source w :
  (forall v, fst (fallback_attempt sv text target source w) <> Ok (Some v)) ->
  translate_text_fallback sv text target source w
  = (Ok (JStr text), after_request (mymemory_request text target source) w).
Proof.
  intros Hfail.
  destruct (translate_text_fallback_total text target source w) as (v & -> & [Hv| ->]);
    [by apply Hfail in Hv | done].
Qed.

Lemma attempts_when_down text target source w :
  (forall h r, exists e, http sv h r = Raise e /\ is_RequestException e = true) ->
  (exists e, fst (libretranslate_attempt sv text target source w) = Raise e
             /\ is_RequestException e = true)
  /\ (forall v, fst (fallback_attempt sv text target source w) <> Ok (Some v)).
Proof.
  intros Hall. split.
  - unfold libretranslate_attempt, bind at 1, http_request.
    destruct (Hall (sent w) (libretranslate_request text target source))
      as (e & -> & He). eauto.
  - intros v. unfold fallback_attempt, bind at 1, http_request.
    by destruct (Hall (sent w) (mymemory_request text target source))
      as (e & -> & He).
Qed.

Lemma translate_text_when_down text target source w :
  (forall h r, exists e, http sv h r = Raise e /\ is_RequestException e = true) ->
  translate_text_libretranslate sv text target source w
  = (Ok (JStr text),
     after_request (mymemory_request text target source)
       (after_request (libretranslate_request text target source) w)).
Proof.
  intros Hall. rewrite translate_text_unfold.
  destruct (attempts_when_down text target source w Hall) as [(e & -> & ->) _].
  apply translate_text_fallback_failed.
  apply (attempts_when_down text target source _ Hall).
Qed.

(** C1.  [translate_text_libretranslate] always returns.  It asks the
    primary service first; when the primary attempt ends in a transport
    error it hands over to the one fallback, asked once; an error of
    another kind gives back the text at once.  When the primary attempt
    and the fallback attempt both fail the value returned is the text
    that was passed in, and so it is with a service on which every call
    raises a transport error, for ["Hello"] as for any other text. *)
Theorem translate_text_degrades text target source w :
  let w1 := after_request (libretranslate_request text target source) w in
  let w2 := after_request (mymemory_request text target source) w1 in
  (exists v w',
      translate_text_libretranslate sv text target source w = (Ok v, w')
      /\ (w' = w1 \/ w' = w2))
  /\ (forall v,
        fst (libretranslate_attempt sv text target source w) = Ok v ->
        translate_text_libretranslate sv text target source w = (Ok v, w1))
  /\ (forall e,
        fst (libretranslate_attempt sv text target source w) = Raise e ->
        is_RequestException e = true ->
        translate_text_libretranslate sv text target source w
        = translate_text_fallback sv text target source w1)
  /\ (forall e,
        fst (libretranslate_attempt sv text target source w) = Raise e ->
        is_RequestException e = false ->
        translate_text_libretranslate sv text target source w = (Ok (JStr text), w1))
  /\ (forall e,
        fst (libretranslate_attempt sv text target source w) = Raise e ->
        (forall v, fst (fallback_attempt sv text target source w1) <> Ok (Some v)) ->
        fst (translate_text_libretranslate sv text target source w) = Ok (JStr text))
  /\ ((forall h r, exists e, http sv h r = Raise e /\ is_RequestException e = true) ->
      translate_text_libretranslate sv text target source w = (Ok (JStr text), w2)
      /\ translate_text_libretranslate sv (u "Hello") (u "es") (u "en") w
         = (Ok (JStr (u "Hello")),
            after_request (mymemory_request (u "Hello") (u "es") (u "en"))
              (after_request (libretranslate_request (u "Hello") (u "es") (u "en")) w))).
Proof.
  intros w1 w2. rewrite !translate_text_unfold. fold w1.
  split; [|split; [|split; [|split; [|split]]]].
  - destruct (fst (libretranslate_attempt sv text target source w)) as [v|e]; [eauto|].
    destruct (is_RequestException e); [|eauto].
    destruct (translate_text_fallback_total text target source w1) as (v & -> & _).
    eauto.
  - by intros v ->.
  - by intros e -> ->.
  - by intros e -> ->.
  - intros e -> Hfail.
    destruct (is_RequestException e); [|done].
    by rewrite translate_text_fallback_failed.
  - intros Hall. split.
    + rewrite <- translate_text_unfold. by apply translate_text_when_down.
    + rewrite <- translate_text_unfold. by apply translate_text_when_down.
Qed.
End TranslateText.

(** ** One run of [translate_srt] *)

Lemma add_requests_nil w : add_requests [] w = w.
Proof. unfold add_requests. rewrite app_nil_r. by destruct w. Qed.

Lemma add_requests_app a b w :
  add_requests b (add_requests a w) = add_requests (a ++ b) w.
Proof. unfold add_requests. simpl. by rewrite app_assoc. Qed.

Section TranslateSrt.
Context {py : Python} (sv : services).

Lemma translate_text_requests text target source w :
  exists v reqs,
    translate_text_libretranslate sv text target source w
    = (Ok v, add_requests reqs w)
    /\ (reqs = [libretranslate_request text target source]
        \/ reqs = [libretranslate_request text target source;
                   mymemory_request text target source]).
Proof.
  rewrite translate_text_unfold.
  destruct (fst (libretranslate_attempt sv text target source w)) as [v|e].
  - exists v, [libretranslate_request text target source]. auto.
  - destruct (is_RequestException e).
    + destruct (translate_text_fallback_total sv text target source
                  (after_request (libretranslate_request text target source) w))
        as (v & -> & _).
      exists v, [libretranslate_request text target source;
                 mymemory_request text target source].
      split; [|auto]. unfold after_request. by rewrite add_requests_app.
    + exists (JStr text), [libretranslate_request text target source]. auto.
Qed.

Lemma translate_subtitle_step code c t w :
  text c = JStr t ->
  exists c' reqs,
    translate_subtitle sv code c w = (Ok c', add_requests reqs w)
    /\ subtitle_step code c c' reqs.
Proof.
  intros Ht. unfold translate_subtitle. rewrite Ht.
  destruct (clean_text t) as [|x r] eqn:E.
  - exists c, []. split.
    + unfold bind, ret. rewrite add_requests_nil. destruct c; simpl in *. by subst.
    + by eapply step_kept.
  - rewrite <- E.
    destruct (translate_text_requests (clean_text t) code (u "en") w)
      as (v & reqs & Hrun & Hreqs).
    exists {| index := index c; timestamp := timestamp c; text := v |}, reqs.
    split.
    + unfold bind at 1. by rewrite Hrun.
    + eapply step_translated; eauto. by rewrite E.
Qed.

Lemma translate_subtitles_steps code cues w :
  Forall (fun c => exists t, text c = JStr t) cues ->
  exists cues' rss,
    for_collect cues (translate_subtitle sv code) w
    = (Ok cues', add_requests (concat rss) w)
    /\ Forall3 (subtitle_step code) cues cues' rss.
Proof.
  revert w. induction cues as [|c cs IH]; intros w Hall.
  - exists [], []. split; [|constructor].
    simpl. unfold ret. by rewrite add_requests_nil.
  - apply Forall_cons in Hall as [[t Ht] Hcs].
    destruct (translate_subtitle_step code c t w Ht) as (c' & reqs & Hrun & Hstep).
    destruct (IH (add_requests reqs w) Hcs) as (cs' & rss & Hruns & Hsteps).
    exists (c' :: cs'), (reqs :: rss). split; [|by constructor].
    cbn [for_collect]. unfold bind at 1. rewrite Hrun.
    unfold bind at 1. rewrite Hruns. unfold ret.
    simpl. by rewrite add_requests_app.
Qed.

Lemma parse_block_text block c :
  parse_block block = Some c -> exists t, text c = JStr t.
Proof. intros H. apply parse_block_Some in H as (_ & _ & _ & ->). eauto. Qed.

Lemma parse_srt_texts content :
  Forall (fun c => exists t, text c = JStr t) (parse_srt content).
Proof.
  unfold parse_srt. apply Forall_forall. intros c Hc.
  apply list_elem_of_omap in Hc as (b & _ & Hb).
  by eapply parse_block_text.
Qed.

Lemma translate_srt_unsupported path lang out w :
  assoc lang LANGUAGE_MAP = None ->
  translate_srt sv path lang out w = (Raise (unsupported_language lang), w).
Proof. intros H. unfold translate_srt. by rewrite H. Qed.

Lemma parse_srt_file_run path w :
  parse_srt_file path w
  = match files w !! path with
    | Some (TextFile s) => (Ok (parse_srt (universal_newlines s)), w)
    | Some (BinaryFile _) => (Raise (Exn UnicodeDecodeError path), w)
    | None => (Raise (Exn FileNotFoundError path), w)
    end.
Proof.
  unfold parse_srt_file, bind, read_text, ret.
  by destruct (files w !! path) as [[|]|].
Qed.

Lemma translate_srt_supported path lang code out w :
  assoc lang LANGUAGE_MAP = Some code ->
  translate_srt sv path lang out w
  = match files w !! path with
    | Some (TextFile s) =>
        match parse_srt (universal_newlines s) with
        | [] => (Raise no_subtitles, w)
        | c :: cs =>
            (translated_subtitles <-
               for_collect (c :: cs) (translate_subtitle sv code) ;;
             create_translated_srt sv translated_subtitles
               (output_path_for path lang out)) w
        end
    | Some (BinaryFile _) => (Raise (Exn UnicodeDecodeError path), w)
    | None => (Raise (Exn FileNotFoundError path), w)
    end.
Proof.
  intros H. unfold translate_srt. rewrite H.
  unfold bind at 1. rewrite parse_srt_file_run.
  destruct (files w !! path) as [[s|]|]; try done.
  by destruct (parse_srt (universal_newlines s)).
Qed.

(** Every way a run of [translate_srt] can go. *)
Lemma translate_srt_run path lang out w :
  (assoc lang LANGUAGE_MAP = None
   /\ translate_srt sv path lang out w = (Raise (unsupported_language lang), w))
  \/ exists code, assoc lang LANGUAGE_MAP = Some code /\
     ((exists e, fst (read_text path w) = Raise e
                 /\ translate_srt sv path lang out w = (Raise e, w))
      \/ (exists content,
             files w !! path = Some (TextFile content)
             /\ parse_srt (universal_newlines content) = []
             /\ translate_srt sv path lang out w = (Raise no_subtitles, w))
      \/ (exists content cues' rss,
             files w !! path = Some (TextFile content)
             /\ parse_srt (universal_newlines content) <> []
             /\ Forall3 (subtitle_step code)
                  (parse_srt (universal_newlines content)) cues' rss
             /\ translate_srt sv path lang out w
                = create_translated_srt sv cues' (output_path_for path lang out)
                    (add_requests (concat rss) w))).
Proof.
  destruct (assoc lang LANGUAGE_MAP) as [code|] eqn:Hlang;
    [right; exists code; split; [done|] | left; split; [done|]].
  2: { unfold translate_srt. by rewrite Hlang. }
  rewrite (translate_srt_supported path lang code) by done. unfold read_text.
  destruct (files w !! path) as [[content|n]|] eqn:Hfile.
  - destruct (parse_srt (universal_newlines content)) as [|c cs] eqn:Hparse.
    + right. left. by exists content.
    + right. right.
      destruct (translate_subtitles_steps code (c :: cs) w) as (cues' & rss & Hrun & Hsteps).
      { rewrite <- Hparse. apply parse_srt_texts. }
      exists content, cues', rss. rewrite Hparse.
      split; [done|]. split; [done|]. split; [done|].
      unfold bind. by rewrite Hrun.
  - left. eexists. by split.
  - left. eexists. by split.
Qed.

(** A run that returns. *)
Lemma translate_srt_Ok path lang out w p w' :
  translate_srt sv path lang out w = (Ok p, w') ->
  exists code content cues' rss,
    assoc lang LANGUAGE_MAP = Some code
    /\ files w !! path = Some (TextFile content)
    /\ parse_srt (universal_newlines content) <> []
    /\ Forall3 (subtitle_step code) (parse_srt (universal_newlines content)) cues' rss
    /\ p = output_path_for path lang out
    /\ writable sv p = true
    /\ forallb encodable (srt_text cues') = true
    /\ w' = with_file p (write_newlines (srt_text cues')) (add_requests (concat rss) w).
Proof.
  intros Hrun.
  destruct (translate_srt_run path lang out w)
    as [[_ H]|(code & Hlang & [(e & _ & H)|[(content & _ & _ & H)
          |(content & cues' & rss & Hfile & Hne & Hsteps & H)]])];
    rewrite H in Hrun; try discriminate.
  destruct (create_translated_srt_run sv cues' (output_path_for path lang out)
              (add_requests (concat rss) w))
    as [(Hw & _ & Henc & Hc)|[(_ & Hc)|(_ & _ & e & c & Hc & _)]];
    rewrite Hc in Hrun; try discriminate.
  injection Hrun as <- <-.
  exists code, content, cues', rss. by repeat split.
Qed.

(** A run that raises: what it raises and what it leaves behind.  The
    files are as before, except that the output file may have been
    started; requests may have been made. *)
Lemma translate_srt_Raise path lang out w e w' :
  translate_srt sv path lang out w = (Raise e, w') ->
  (assoc lang LANGUAGE_MAP = None /\ e = unsupported_language lang /\ w' = w)
  \/ (is_Some (assoc lang LANGUAGE_MAP)
      /\ (e = no_subtitles \/ e = int_limit_error \/ exn_cls e <> ValueError)
      /\ exists rs,
           w' = add_requests rs w
           \/ exists content,
                w' = with_file (output_path_for path lang out) content
                       (add_requests rs w)).
Proof.
  intros Hrun.
  destruct (translate_srt_run path lang out w)
    as [[Hlang H]|(code & Hlang & [(e' & Hread & H)|[(content & _ & _ & H)
          |(content & cues' & rss & Hfile & Hne & Hsteps & H)]])];
    rewrite H in Hrun.
  - injection Hrun as <- <-. by left.
  - injection Hrun as <- <-. right. split; [by rewrite Hlang|]. split.
    + right. right. unfold read_text in Hread.
      destruct (files w !! path) as [[|]|]; simpl in Hread; try discriminate;
        by injection Hread as <-.
    + exists []. left. by rewrite add_requests_nil.
  - injection Hrun as <- <-. right. split; [by rewrite Hlang|]. split; [by left|].
    exists []. left. by rewrite add_requests_nil.
  - right. split; [by rewrite Hlang|].
    destruct (create_translated_srt_run sv cues' (output_path_for path lang out)
                (add_requests (concat rss) w))
      as [(Hw & _ & Henc & Hc)|[(_ & Hc)|(_ & _ & e' & c & Hc & He)]];
      rewrite Hc in Hrun; try discriminate; injection Hrun as <- <-.
    + split; [by right; right|]. exists (concat rss). by left.
    + split; [|exists (concat rss); right; by exists c].
      destruct He as [He| ->]; [right; right; by rewrite He|right; by left].
Qed.

Lemma subtitle_step_frame code c c' reqs :
  subtitle_step code c c' reqs ->
  index c' = index c /\ timestamp c' = timestamp c.
Proof. by intros [t Ht Hc -> ->|t v Ht Hc -> _]. Qed.

Lemma subtitle_steps_frame code cues cues' rss :
  Forall3 (subtitle_step code) cues cues' rss ->
  List.map index cues' = List.map index cues
  /\ List.map timestamp cues' = List.map timestamp cues.
Proof.
  induction 1 as [|c c' reqs cs cs' rss Hstep _ [IH1 IH2]]; [done|].
  apply subtitle_step_frame in Hstep as [Hi Ht]. simpl.
  by rewrite Hi, Ht, IH1, IH2.
Qed.

Lemma subtitle_steps_requests code cues cues' rss r :
  Forall3 (subtitle_step code) cues cues' rss ->
  r ∈ concat rss ->
  exists c t,
    c ∈ cues /\ text c = JStr t /\ clean_text t <> []
    /\ (r = libretranslate_request (clean_text t) code (u "en")
        \/ r = mymemory_request (clean_text t) code (u "en")).
Proof.
  induction 1 as [|c c' reqs cs cs' rss Hstep _ IH]; simpl.
  - by intros ?%elem_of_nil.
  - intros [Hr|Hr]%elem_of_app.
    + destruct Hstep as [t Ht Hc _ ->|t v Ht Hc _ Hreqs].
      * by apply elem_of_nil in Hr.
      * exists c, t. split; [left|]. split; [done|]. split; [done|].
        destruct Hreqs as [-> | ->].
        -- apply list_elem_of_singleton in Hr. by left.
        -- apply elem_of_cons in Hr as [->|Hr]; [by left|].
           apply list_elem_of_singleton in Hr. by right.
    + destruct (IH Hr) as (c0 & t & Hin & H). exists c0, t. split; [by right|done].
Qed.

(** C10.  When [translate_srt] returns, the cues it has written are as
    many as the cues it parsed and stand in the same order; each has the
    index and the timestamp line of its source cue.  A cue whose text is
    empty once the markup is removed and the result stripped is written
    back exactly as it was parsed and no request is made for it: every
    request made carries the non-empty cleaned text of some cue. *)
Theorem translate_srt_frame path lang out w p w' :
  translate_srt sv path lang out w = (Ok p, w') ->
  exists code cues cues' rss,
    assoc lang LANGUAGE_MAP = Some code
    /\ parse_srt_file path w = (Ok cues, w)
    /\ files w' !! p = Some (TextFile (write_newlines (srt_text cues')))
    /\ sent w' = sent w ++ concat rss
    /\ length cues' = length cues
    /\ List.map index cues' = List.map index cues
    /\ List.map timestamp cues' = List.map timestamp cues
    /\ Forall3 (subtitle_step code) cues cues' rss
    /\ (forall i c t,
          cues !! i = Some c -> text c = JStr t -> clean_text t = [] ->
          cues' !! i = Some c /\ rss !! i = Some [])
    /\ (forall r, r ∈ concat rss ->
          exists c t,
            c ∈ cues /\ text c = JStr t /\ clean_text t <> []
            /\ (r = libretranslate_request (clean_text t) code (u "en")
                \/ r = mymemory_request (clean_text t) code (u "en"))).
Proof.
  intros Hrun.
  apply translate_srt_Ok in Hrun
    as (code & content & cues' & rss & Hlang & Hfile & Hne & Hsteps & -> & Hw & Henc & ->).
  exists code, (parse_srt (universal_newlines content)), cues', rss.
  split; [done|]. split; [by rewrite parse_srt_file_run, Hfile|].
  split; [apply with_file_lookup|]. split; [done|].
  split; [symmetry; by eapply Forall3_length_lm|].
  destruct (subtitle_steps_frame _ _ _ _ Hsteps) as [Hi Ht].
  split; [done|]. split; [done|]. split; [done|]. split.
  - intros i c t Hc Htext Hclean.
    destruct (Forall3_lookup_l _ _ _ _ _ _ Hsteps Hc) as (c' & reqs & Hc' & Hreqs & Hstep).
    destruct Hstep as [t' Ht' _ -> ->|t' v Ht' Hne' _ _]; [done|].
    rewrite Htext in Ht'. injection Ht' as <-. done.
  - intros r Hr. by eapply subtitle_steps_requests.
Qed.

Lemma universal_newlines_spaces_aux s :
  (forallb isspace s = true -> forallb isspace (universal_newlines s) = true)
  /\ (forall c, forallb isspace (c :: s) = true ->
                forallb isspace (universal_newlines (c :: s)) = true).
Proof.
  induction s as [|a s [IH1 IH2]].
  - split; [done|]. intros c. simpl. destruct (c =? CR); [done|].
    simpl. by intros ->.
  - split; [apply IH2|]. intros c H.
    cbn [forallb] in H. apply andb_true_iff in H as [Hc Hr].
    cbn [universal_newlines]. destruct (c =? CR).
    + cbn [forallb]. rewrite isspace_LF. simpl.
      destruct (a =? LF).
      * apply IH1. cbn [forallb] in Hr. by apply andb_true_iff in Hr as [_ ?].
      * by apply IH2.
    + cbn [forallb]. rewrite Hc. simpl. by apply IH2.
Qed.

Lemma universal_newlines_spaces s :
  forallb isspace s = true -> forallb isspace (universal_newlines s) = true.
Proof. apply universal_newlines_spaces_aux. Qed.

(** C5, as the code has it.  [parse_srt_file] does not fail on a text
    that holds no cue, be it blank, whitespace alone or blocks that are
    all malformed: it returns the empty list.  The error comes from
    [translate_srt], which for a supported language raises a
    [ValueError] saying that no subtitles were found, before any request
    is made and before anything is written. *)
Theorem empty_input_rejected path content w :
  files w !! path = Some (TextFile content) ->
  forallb isspace content = true \/ parse_srt (universal_newlines content) = [] ->
  parse_srt_file path w = (Ok [], w)
  /\ forall lang out,
       is_Some (assoc lang LANGUAGE_MAP) ->
       translate_srt sv path lang out w = (Raise no_subtitles, w).
Proof.
  intros Hfile Hblank.
  assert (parse_srt (universal_newlines content) = []) as Hparse.
  { destruct Hblank as [Hsp|]; [|done].
    by apply parse_srt_blank, universal_newlines_spaces. }
  split.
  - by rewrite parse_srt_file_run, Hfile, Hparse.
  - intros lang out [code Hlang].
    by rewrite (translate_srt_supported path lang code), Hfile, Hparse.
Qed.

Lemma unsupported_not_no_subtitles lang : unsupported_language lang <> no_subtitles.
Proof. unfold unsupported_language, no_subtitles. intros [= H]. Qed.

(** C6 on the code.  [translate_srt] refuses at once, with a
    [ValueError] and without touching the world, every language that is
    not a key of [LANGUAGE_MAP], and it never refuses a language that is
    one.  The ten keys are there; but Korean, Dutch, Swedish, Norwegian
    and Danish, which [get_available_languages] of [utils.py] lists, are
    not keys of [LANGUAGE_MAP], and [translate_srt] refuses them. *)
Theorem supported_languages_gap path out w :
  (forall lang,
      assoc lang LANGUAGE_MAP = None ->
      translate_srt sv path lang out w = (Raise (unsupported_language lang), w))
  /\ (forall lang e w' lang',
        is_Some (assoc lang LANGUAGE_MAP) ->
        translate_srt sv path lang out w = (Raise e, w') ->
        e <> unsupported_language lang')
  /\ Forall (fun lang => is_Some (assoc lang LANGUAGE_MAP))
       [u "Hebrew"; u "Spanish"; u "French"; u "German"; u "Italian";
        u "Portuguese"; u "Arabic"; u "Russian"; u "Chinese"; u "Japanese"]
  /\ Forall (fun lang =>
               is_Some (assoc lang get_available_languages)
               /\ translate_srt sv path lang out w
                  = (Raise (unsupported_language lang), w))
       [u "Korean"; u "Dutch"; u "Swedish"; u "Norwegian"; u "Danish"].
Proof.
  split; [intros lang; apply translate_srt_unsupported|]. split; [|split].
  - intros lang e w' lang' [code Hlang] Hrun.
    apply translate_srt_Raise in Hrun as [(Hnone & _)|(_ & [->|[->|He]] & _)].
    + congruence.
    + intros H. by apply (unsupported_not_no_subtitles lang').
    + unfold int_limit_error, unsupported_language. intros [= H].
    + intros ->. by apply He.
  - repeat constructor; by eexists.
  - repeat constructor; try (by eexists); by apply translate_srt_unsupported.
Qed.
End TranslateSrt.

(** ** Batch translation *)

Section Batch.
Context {py : Python} (sv : services).

Lemma batch_loop_step path out lang rest acc w :
  batch_loop sv path out (lang :: rest) acc w
  = match translate_srt sv path lang out w with
    | (Ok p, w') => batch_loop sv path out rest (<[lang := p]> acc) w'
    | (Raise _, w') => batch_loop sv path out rest acc w'
    end.
Proof.
  cbn [batch_loop]. unfold bind at 1, try_except, bind at 1.
  by destruct (translate_srt sv path lang out w) as [[p|e] w'].
Qed.





Lemma batch_loop_lookup path out langs acc w d w' lang p :
  (forall l q, acc !! l = Some q -> q = output_path_for path l out) ->
  batch_loop sv path out langs acc w = (Ok d, w') ->
  d !! lang = Some p <->
  p = output_path_for path lang out
  /\ (is_Some (acc !! lang)
      \/ exists q, (lang, Ok q) ∈ batch_outcomes sv path out langs w).
Proof.
  revert acc w. induction langs as [|l rest IH]; intros acc w Hacc Hrun.
  - injection Hrun as <- <-. split.
    + intros H. split; [by eapply Hacc|]. left. by eexists.
    + intros [-> [[q Hq]|[q Hq%elem_of_nil]]]; [|done].
      rewrite Hq. f_equal. by eapply Hacc.
  - rewrite batch_loop_step in Hrun. cbn [batch_outcomes].
    destruct (translate_srt sv path l out w) as [[q|e] w1] eqn:Hl.
    + apply IH in Hrun as ->.
      2: { intros l' q' [[<- <-]|[_ H]]%lookup_insert_Some; [|by eapply Hacc].
           by apply translate_srt_Ok in Hl as (? & ? & ? & ? & _ & _ & _ & _ & -> & _). }
      split; intros [-> H]; (split; [done|]).
      * destruct H as [[q' [[<- <-]|[Hne H]]%lookup_insert_Some]|[q' H]].
        -- right. exists q. by left.
        -- left. by eexists.
        -- right. exists q'. by right.
      * destruct H as [H|[q' [[= <- <-]|H]%elem_of_cons]].
        -- left. destruct (decide (l = lang)) as [->|Hne].
           ++ rewrite lookup_insert_eq. by eexists.
           ++ by rewrite lookup_insert_ne.
        -- left. rewrite lookup_insert_eq. by eexists.
        -- right. by exists q'.
    + apply IH in Hrun as ->; [|done].
      split; intros [-> H]; (split; [done|]).
      * destruct H as [H|[q' H]]; [by left|]. right. exists q'. by right.
      * destruct H as [H|[q' [[= _ ?]|H]%elem_of_cons]]; [by left|]. right. by exists q'.
Qed.


End Batch.

(** ** Transcription and its size limit *)

Section Transcription.
Context {py : Python} (sv : services).

Lemma transcribe_video_no_client audio out w k ey e :
  api_key w = Some (k :: ey) ->
  openai_client sv (k :: ey) = Raise e ->
  transcribe_video sv audio out w = (Raise e, w).
Proof.
  intros Hkey Hc. unfold transcribe_video, bind at 1, getenv_api_key. rewrite Hkey.
  unfold bind at 1, lift. by rewrite Hc.
Qed.

Lemma transcribe_video_run audio out w k ey :
  api_key w = Some (k :: ey) ->
  openai_client sv (k :: ey) = Ok tt ->
  transcribe_video sv audio out w
  = match files w !! audio with
    | None =>
        (Raise (Exn Exception (u "Transcription failed: " ++ audio)), w)
    | Some d =>
        match whisper sv (k :: ey) d with
        | Raise e =>
            (Raise (Exn Exception (u "Transcription failed: " ++ exn_msg e)), w)
        | Ok transcript =>
            let srt_filename := path_join out (u "transcription.srt") in
            if writable sv srt_filename then
              if forallb encodable transcript
              then (Ok srt_filename,
                    with_file srt_filename (write_newlines transcript) w)
              else (Raise (Exn Exception (u "Transcription failed: " ++ transcript)),
                    with_file srt_filename [] w)
            else (Raise (Exn Exception (u "Transcription failed: " ++ srt_filename)), w)
        end
    end.
Proof.
  intros Hkey Hc. unfold transcribe_video, bind at 1, getenv_api_key. rewrite Hkey.
  unfold bind at 1, lift. rewrite Hc.
  unfold try_except, bind at 1, open_rb.
  destruct (files w !! audio) as [d|]; [|done].
  unfold bind at 1, lift. destruct (whisper sv (k :: ey) d) as [transcript|e]; [|done].
  unfold bind at 1, open_w.
  destruct (writable sv (path_join out (u "transcription.srt"))); [|done].
  unfold bind at 1. erewrite write_run by apply with_file_lookup.
  destruct (forallb encodable transcript); [|done].
  unfold ret. by rewrite with_file_again.
Qed.

Lemma validate_audio_file_run audio w :
  validate_audio_file audio w
  = (Ok match files w !! audio with
        | None => false
        | Some d =>
            if 25 * 1024 * 1024 <? file_size d then false
            else bool_decide (lower (path_ext audio) ∈ valid_extensions)
        end, w).
Proof.
  unfold validate_audio_file, path_exists, bind, getsize, ret.
  destruct (files w !! audio) as [d|] eqn:E.
  - rewrite bool_decide_true by by eexists. simpl.
    by destruct (_ <? _).
  - rewrite bool_decide_false; [done|]. by intros [? ?].
Qed.

(** C9, as the code has it.  [transcribe_video] has no error of its own
    for an input that is too large and looks at no size.  With the key
    set, the client constructed and the audio file there, a failure of
    the speech-to-text call, for an input above its ceiling as for any
    other reason, comes out as the general "Transcription failed"
    exception that carries the message of the call; when the call answers,
    the transcript is written, whatever the size, if the output file can
    be opened and the transcript encoded.  [validate_audio_file] never
    raises, changes nothing, and returns [False] exactly when the file
    does not exist, or is larger than 25 MB, or has an extension outside
    the accepted list. *)
Theorem transcription_size_check :
  (forall audio out w k ey d e,
      api_key w = Some (k :: ey) -> openai_client sv (k :: ey) = Ok tt ->
      files w !! audio = Some d ->
      whisper sv (k :: ey) d = Raise e ->
      transcribe_video sv audio out w
      = (Raise (Exn Exception (u "Transcription failed: " ++ exn_msg e)), w))
  /\ (forall audio out w k ey d transcript,
        api_key w = Some (k :: ey) -> openai_client sv (k :: ey) = Ok tt ->
        files w !! audio = Some d ->
        whisper sv (k :: ey) d = Ok transcript ->
        writable sv (path_join out (u "transcription.srt")) = true ->
        forallb encodable transcript = true ->
        transcribe_video sv audio out w
        = (Ok (path_join out (u "transcription.srt")),
           with_file (path_join out (u "transcription.srt"))
             (write_newlines transcript) w))
  /\ (forall audio w,
        exists b,
          validate_audio_file audio w = (Ok b, w)
          /\ (b = false <->
              files w !! audio = None
              \/ (exists d, files w !! audio = Some d
                            /\ 25 * 1024 * 1024 < file_size d)
              \/ lower (path_ext audio) ∉ valid_extensions)).
Proof.
  split; [|split].
  - intros audio out w k ey d e Hkey Hc Hfile Hcall.
    by rewrite (transcribe_video_run audio out w k ey), Hfile, Hcall.
  - intros audio out w k ey d transcript Hkey Hc Hfile Hcall Hw Henc.
    rewrite (transcribe_video_run audio out w k ey), Hfile, Hcall by done.
    simpl. by rewrite Hw, Henc.
  - intros audio w. eexists. split; [apply validate_audio_file_run|].
    destruct (files w !! audio) as [d|] eqn:Hfile.
    + destruct (N.ltb_spec (25 * 1024 * 1024) (file_size d)) as [Hbig|Hsmall].
      * split; [|done]. intros _. right. left. by exists d.
      * rewrite bool_decide_eq_false. split; [by auto|].
        intros [?|[(d' & [= <-] & ?)|?]]; [done|lia|done].
    + split; [by auto|done].
Qed.
End Transcription.

(** ** The style of burnt-in subtitles *)

Section Style.
Context {py : Python}.

Lemma lower_white : lower (u "white") = u "white".
Proof. rewrite lower_ascii; [done|]. repeat constructor. Qed.

(** C8, as the code has it.  The position ["top"] gets the alignment
    code 8 and ["bottom"] the code 2, and every position other than
    ["bottom"], ["top"] and ["center"] gets the code of ["bottom"].  A
    colour is looked up in lower case: a name whose lower-case form is
    not in the palette gets exactly the code of white. *)
Theorem burn_style_mapping :
  burn_alignment (u "top") = u "Alignment=8"
  /\ burn_alignment (u "bottom") = u "Alignment=2"
  /\ burn_alignment (u "center") = u "Alignment=5"
  /\ burn_alignment (u "top") <> burn_alignment (u "bottom")
  /\ (forall position,
        position <> u "bottom" -> position <> u "top" -> position <> u "center" ->
        burn_alignment position = burn_alignment (u "bottom"))
  /\ burn_color_code (u "white") = u "&Hffffff&"
  /\ (forall font_color,
        assoc (lower font_color) color_map = None ->
        burn_color_code font_color = burn_color_code (u "white"))
  /\ (forall video srt output font_size font_color position,
        nth 4 (burn_command video srt output font_size font_color position) []
        = u "subtitles=" ++ srt ++ u ":force_style='FontSize=" ++ py_str font_size
            ++ u ",PrimaryColour=" ++ burn_color_code font_color
            ++ u "," ++ burn_alignment position ++ u "'").
Proof.
  assert (burn_color_code (u "white") = u "&Hffffff&") as Hwhite.
  { unfold burn_color_code. by rewrite lower_white. }
  repeat split; try done.
  - intros position H1 H2 H3.
    change (burn_alignment (u "bottom")) with (u "Alignment=2").
    unfold burn_alignment, dict_get, position_map.
    cbn [assoc]. unfold str_eqb. by rewrite !bool_decide_false.
  - intros font_color Hc. rewrite Hwhite. unfold burn_color_code, dict_get.
    by rewrite Hc.
Qed.
End Style.

(** ** Timestamps *)

Lemma mod_scale a n D : D <> 0 -> (a mod (n * D)) / D = (a / D) mod n.
Proof.
  intros HD. rewrite (N.mul_comm n D), N.Div0.mod_mul_r.
  rewrite N.add_comm, (N.mul_comm D), N.div_add_l by done.
  rewrite (N.div_small (a mod D)) by (by apply N.mod_lt).
  apply N.add_0_r.
Qed.

Lemma div_scale a n D : a / (n * D) = (a / D) / n.
Proof. by rewrite N.Div0.div_div, N.mul_comm. Qed.

Lemma size_le_pow m b : m < 2 ^ b -> N.size m <= b.
Proof.
  intros Hm. destruct (N.eq_dec m 0) as [->|Hne]; [simpl; lia|].
  rewrite N.size_log2 by done.
  apply N.le_succ_l, N.log2_lt_pow2; [lia|done].
Qed.

Lemma round53_cases m :
  (N.size m - 53 = 0 /\ round53 m = m)
  \/ (0 < N.size m - 53
      /\ round53 m = m / 2 ^ (N.size m - 53) * 2 ^ (N.size m - 53))
  \/ (0 < N.size m - 53
      /\ round53 m = (m / 2 ^ (N.size m - 53) + 1) * 2 ^ (N.size m - 53)
      /\ 2 ^ (N.size m - 53) <= 2 * (m mod 2 ^ (N.size m - 53))).
Proof.
  unfold round53. set (shift := N.size m - 53).
  destruct (N.eqb_spec shift 0) as [E|Hne]; [by left|]. right.
  assert (2 ^ shift = 2 * 2 ^ (shift - 1)) as Hpow.
  { rewrite <- N.pow_succ_r'. f_equal. lia. }
  destruct (_ || _) eqn:Hup; [right|left; split; [lia|done]].
  split; [lia|]. split; [done|].
  apply orb_true_iff in Hup as [Hlt%N.ltb_lt|[Heq%N.eqb_eq _]%andb_true_iff].
  - rewrite Hpow at 1. lia.
  - rewrite Hpow at 1. lia.
Qed.

(** The milliseconds [int((x % 1) * 1000)]: below 1000, and less than one
    away from the exact product. *)
Lemma millis_bound f k :
  f < 2 ^ k -> f < 2 ^ 53 ->
  round53 (f * 1000) / 2 ^ k < 1000
  /\ round53 (f * 1000) / 2 ^ k * 2 ^ k < f * 1000 + 2 ^ k
  /\ f * 1000 < round53 (f * 1000) / 2 ^ k * 2 ^ k + 2 ^ k.
Proof.
  intros Hfk Hf53.
  set (M := f * 1000). set (D := 2 ^ k).
  assert (0 < D) as HD by (apply N.neq_0_lt_0, N.pow_nonzero; lia).
  assert (forall R, R < 1000 * D -> R / D < 1000) as Hdiv.
  { intros R HR. apply N.Div0.div_lt_upper_bound. lia. }
  assert (forall R, R / D * D <= R /\ R < R / D * D + D) as Hfloor.
  { intros R. pose proof (N.div_mod R D ltac:(lia)) as Heq.
    pose proof (N.mod_lt R D ltac:(lia)) as Hlt.
    revert Heq Hlt. generalize (R mod D). intros r Heq Hlt. lia. }
  destruct (round53_cases M) as [[_ ->]|Hshift].
  { destruct (Hfloor M). split; [apply Hdiv; lia|]. lia. }
  set (shift := N.size M - 53) in *.
  assert (0 < shift) as Hpos by (by destruct Hshift as [[? _]|[? _]]).
  assert (shift <= 10) as H10.
  { assert (N.size M <= 63); [|lia]. apply size_le_pow.
    change (2 ^ 63) with (1024 * 2 ^ 53). lia. }
  assert (shift <= k) as Hk.
  { assert (N.size M <= k + 10); [|lia]. apply size_le_pow.
    rewrite N.pow_add_r. change (2 ^ 10) with 1024. fold D. lia. }
  set (G := 2 ^ shift) in *.
  assert (0 < G) as HG by (apply N.neq_0_lt_0, N.pow_nonzero; lia).
  assert (G <= 1024) as HG10.
  { change 1024 with (2 ^ 10). apply N.pow_le_mono_r; lia. }
  assert (D = 2 ^ (k - shift) * G) as HDG.
  { unfold D, G. rewrite <- N.pow_add_r. f_equal. lia. }
  assert (0 < 2 ^ (k - shift)) as HC by (apply N.neq_0_lt_0, N.pow_nonzero; lia).
  pose proof (N.div_mod M G ltac:(lia)) as HM.
  pose proof (N.mod_lt M G ltac:(lia)) as Hrest.
  revert HM Hrest Hshift. generalize (M mod G). intros rest HM Hrest Hshift.
  destruct Hshift as [[_ HR]|(_ & HR & Hhalf)].
  - assert (round53 M / D = M / D) as Hsame.
    { rewrite HR, HDG, N.Div0.div_mul_cancel_r by lia.
      by rewrite N.Div0.div_div, (N.mul_comm G). }
    rewrite Hsame. destruct (Hfloor M). split; [apply Hdiv; lia|]. lia.
  - destruct (Hfloor (round53 M)) as [H1 H2]. rewrite HR in *.
    set (C := 2 ^ (k - shift)) in *.
    split; [apply Hdiv|]; nia.
Qed.

Lemma decimal_value_digits s acc :
  Forall (fun c => 48 <= c <= 57) s ->
  decimal_value acc s = digits_value ascii_decimal acc true s.
Proof.
  intros Hs. revert acc. induction Hs as [|c r Hc _ IH]; intros acc; [done|].
  simpl. unfold ascii_decimal.
  destruct (N.eqb_spec c 95); [lia|].
  destruct (N.leb_spec 48 c); [|lia]. destruct (N.leb_spec c 57); [|lia].
  simpl. apply IH.
Qed.

Lemma zero_pad_digits w n : Forall (fun c => 48 <= c <= 57) (zero_pad w (str_of_N n)).
Proof.
  unfold zero_pad. apply Forall_app. split; [|apply str_of_N_digits].
  apply Forall_forall. intros c Hc%list_elem_of_In%repeat_spec. lia.
Qed.

Lemma zero_pad_value w n : decimal_value 0 (zero_pad w (str_of_N n)) = Some n.
Proof.
  unfold zero_pad. induction (w - length (str_of_N n))%nat as [|j IH].
  - simpl. rewrite decimal_value_digits by apply str_of_N_digits.
    by apply str_of_N_value.
  - simpl. exact IH.
Qed.

Lemma zero_pad_length w n :
  n < 10 ^ N.of_nat w -> (1 <= w)%nat -> length (zero_pad w (str_of_N n)) = w.
Proof.
  intros Hn Hw. unfold zero_pad. rewrite length_app, repeat_length.
  pose proof (str_of_N_length n w Hw Hn). lia.
Qed.

Lemma zero_pad_wide w n : (w <= length (zero_pad w (str_of_N n)))%nat.
Proof. unfold zero_pad. rewrite length_app, repeat_length. lia. Qed.

Lemma digits_no_char c s :
  Forall (fun x => 48 <= x <= 57) s -> ~ 48 <= c <= 57 -> c ∉ s.
Proof.
  intros Hs Hc Hin. rewrite Forall_forall in Hs.
  apply Hs in Hin. by apply Hc.
Qed.

(** Reading a timestamp made of four numbers. *)
Lemma spec_parse_timestamp_join h m sec ms :
  m < 100 -> sec < 100 -> ms < 1000 ->
  spec_parse_timestamp
    (zero_pad 2 (str_of_N h) ++ [58] ++ zero_pad 2 (str_of_N m) ++ [58]
     ++ zero_pad 2 (str_of_N sec) ++ [44] ++ zero_pad 3 (str_of_N ms))
  = Some (((h * 60 + m) * 60 + sec) * 1000 + ms).
Proof.
  intros Hm Hs Hms. unfold spec_parse_timestamp. cbn [app].
  rewrite split_on_line by (apply digits_no_char; [apply zero_pad_digits|lia]).
  rewrite split_on_line by (apply digits_no_char; [apply zero_pad_digits|lia]).
  rewrite split_on_single.
  2:{ intros [Hin|Hin]%elem_of_app.
      - revert Hin. apply digits_no_char; [apply zero_pad_digits|lia].
      - apply elem_of_cons in Hin as [?|Hin]; [done|]. revert Hin.
        apply digits_no_char; [apply zero_pad_digits|lia]. }
  rewrite split_on_line by (apply digits_no_char; [apply zero_pad_digits|lia]).
  rewrite split_on_single
    by (apply digits_no_char; [apply zero_pad_digits|lia]).
  rewrite !zero_pad_value.
  rewrite (zero_pad_length 2 m), (zero_pad_length 2 sec), (zero_pad_length 3 ms)
    by (simpl; lia).
  pose proof (zero_pad_wide 2 h) as Hh. apply Nat.leb_le in Hh. by rewrite Hh.
Qed.

(** C7.  For every [float] [s] from 0 to 359999.999, the text that
    [format_srt_timestamp] gives has the form [HH:MM:SS,mmm], twelve
    characters with all fields zero-padded, and reading it back as
    hours, minutes, seconds and milliseconds gives a time less than one
    millisecond away from [s]. *)
Theorem timestamp_round_trip x :
  is_float64 x = true ->
  in_format_range x ->
  exists ms,
    spec_parse_timestamp (format_srt_timestamp x) = Some ms
    /\ within_1ms x ms
    /\ length (format_srt_timestamp x) = 12%nat.
Proof.
  unfold is_float64, in_format_range, within_1ms. destruct x as [m k]. simpl.
  intros [Hm%N.ltb_lt _]%andb_true_iff Hrange.
  set (D := 2 ^ k) in *.
  assert (0 < D) as HD by (apply N.neq_0_lt_0, N.pow_nonzero; lia).
  unfold format_srt_timestamp, float_int, float_floordiv, float_mod, float_mul.
  cbn [mant scale]. fold D.
  change (2 ^ 0) with 1. rewrite !N.div_1_r, N.mul_1_l.
  rewrite div_scale, div_scale, !mod_scale by lia.
  set (S := m / D). set (f := m mod D).
  pose proof (N.div_mod m D ltac:(lia)) as Hdm. fold S f in Hdm.
  assert (f < D) as Hf by (apply N.mod_lt; lia).
  assert (S <= 359999) as HS by nia.
  assert (f < 2 ^ 53) as Hf53.
  { eapply N.le_lt_trans; [|exact Hm]. unfold f. apply N.Div0.mod_le. }
  destruct (millis_bound f k Hf Hf53) as (Hms & Hlo & Hhi). fold D in Hms, Hlo, Hhi.
  set (millis := round53 (f * 1000) / D) in *.
  set (a := S mod 3600).
  pose proof (N.div_mod S 3600 ltac:(lia)) as HSa. fold a in HSa.
  assert (a < 3600) as Ha by (apply N.mod_lt; lia).
  pose proof (N.div_mod a 60 ltac:(lia)) as Ham.
  assert (a mod 60 = S mod 60) as Hsec.
  { rewrite HSa at 1. replace (3600 * (S / 3600) + a) with (a + 60 * (S / 3600) * 60) by lia.
    by rewrite N.Div0.mod_add. }
  rewrite Hsec in Ham.
  assert (S mod 60 < 60) as Hsec60 by (apply N.mod_lt; lia).
  assert (a / 60 < 60) as Hmin by (apply N.Div0.div_lt_upper_bound; lia).
  assert (S / 3600 < 100) as Hh by (apply N.Div0.div_lt_upper_bound; lia).
  change (u ":") with [58]. change (u ",") with [44].
  exists (((S / 3600 * 60 + a / 60) * 60 + S mod 60) * 1000 + millis).
  split; [apply spec_parse_timestamp_join; lia|]. split.
  - assert ((S / 3600 * 60 + a / 60) * 60 + S mod 60 = S) as -> by lia.
    assert ((2 ^ Z.of_N k)%Z = Z.of_N D) as ->
      by (unfold D; by rewrite N2Z.inj_pow).
    apply Z.abs_lt. nia.
  - rewrite !length_app. cbn [length].
    rewrite (zero_pad_length 2 (S / 3600)), (zero_pad_length 2 (a / 60)),
      (zero_pad_length 2 (S mod 60)), (zero_pad_length 3 millis) by (simpl; lia).
    done.
Qed.

(** ** The properties on the sample data *)

(** With no network, ["Hello"] comes back as it was sent, after one request
    to each service. *)
Lemma translate_text_degrades_witness :
  translate_text_libretranslate offline (u "Hello") (u "es") (u "en") sample_world
  = (Ok (JStr (u "Hello")),
     after_request (mymemory_request (u "Hello") (u "es") (u "en"))
       (after_request (libretranslate_request (u "Hello") (u "es") (u "en"))
          sample_world)).
Proof.
  destruct (translate_text_degrades offline (u "Hello") (u "es") (u "en") sample_world)
    as (_ & _ & _ & _ & _ & H).
  apply H. intros h r. eexists. split; reflexivity.
Defined.

(** Two cues written to a file and read again. *)
Lemma srt_round_trip_witness :
  forallb well_formed [hello_cue; markup_cue] = true
  /\ writable offline (u "out.srt") = true
  /\ exists w',
       create_translated_srt offline [hello_cue; markup_cue] (u "out.srt") sample_world
       = (Ok (u "out.srt"), w')
       /\ files w' !! u "out.srt"
          = Some (TextFile (write_newlines (srt_text [hello_cue; markup_cue])))
       /\ parse_srt_file (u "out.srt") w' = (Ok [hello_cue; markup_cue], w').
Proof.
  split; [vm_compute; reflexivity|]. split; [reflexivity|].
  apply srt_round_trip; vm_compute; reflexivity.
Defined.

(** A block with index 0 and a second line without an arrow is taken as a
    cue. *)
Lemma lenient_parse_counterexample :
  exists c,
    parse_block (text_of ["0"; "no arrow here"; "text"]%string) = Some c
    /\ (index c <= 0)%Z
    /\ has_arrow (timestamp c) = false.
Proof.
  exists {| index := 0; timestamp := u "no arrow here"; text := JStr (u "text") |}.
  split; [vm_compute; reflexivity|]. split; [simpl; lia | vm_compute; reflexivity].
Qed.

(** The malformed block between two well-formed ones is passed over. *)
Lemma parse_srt_lenient_witness :
  well_formed hello_cue = true /\ well_formed markup_cue = true
  /\ solid_block bad_block = true
  /\ py_int todecimal (nth 0 (split_on LF bad_block) []) = None
  /\ parse_srt (srt_block hello_cue ++ [LF; LF] ++ bad_block ++ [LF; LF]
                ++ srt_block markup_cue ++ [LF; LF])
     = [hello_cue; markup_cue].
Proof.
  destruct (parse_srt_lenient (py := posix_python)) as (_ & _ & Hchar & _ & _ & H).
  assert (solid_block bad_block = true) as Hsolid by (vm_compute; reflexivity).
  repeat (split; [vm_compute; reflexivity|]).
  apply H; [vm_compute; reflexivity|vm_compute; reflexivity|exact Hsolid|].
  apply (Hchar bad_block 97); try done; try (vm_compute; reflexivity).
  apply list_elem_of_In. vm_compute. by left.
Defined.

(** A file of whitespace parses to the empty list, without an error. *)
Lemma blank_parse_counterexample :
  parse_srt_file (u "in.srt") blank_world = (Ok [], blank_world).
Proof. vm_compute. reflexivity. Qed.

Lemma empty_input_rejected_witness :
  files blank_world !! u "in.srt" = Some (TextFile (text_of [" "; ""; "  "; ""]%string))
  /\ forallb isspace (text_of [" "; ""; "  "; ""]%string) = true
  /\ parse_srt_file (u "in.srt") blank_world = (Ok [], blank_world)
  /\ forall lang out,
       is_Some (assoc lang LANGUAGE_MAP) ->
       translate_srt offline (u "in.srt") lang out blank_world
       = (Raise no_subtitles, blank_world).
Proof.
  split; [vm_compute; reflexivity|]. split; [vm_compute; reflexivity|].
  apply (empty_input_rejected offline (u "in.srt") (text_of [" "; ""; "  "; ""]%string)).
  - vm_compute; reflexivity.
  - left. vm_compute; reflexivity.
Defined.

(** Korean is offered by [get_available_languages] and refused by
    [translate_srt]. *)
Lemma supported_languages_gap_witness :
  is_Some (assoc (u "Korean") get_available_languages)
  /\ translate_srt answering (u "in.srt") (u "Korean") (u "out") sample_world
     = (Raise (unsupported_language (u "Korean")), sample_world).
Proof.
  destruct (supported_languages_gap answering (u "in.srt") (u "out") sample_world)
    as (_ & _ & _ & H).
  apply Forall_cons in H as [H _]. exact H.
Defined.

Lemma burn_style_mapping_witness :
  burn_alignment (u "middle") = burn_alignment (u "bottom")
  /\ burn_color_code (u "Chartreuse") = burn_color_code (u "white").
Proof.
  destruct (burn_style_mapping (py := posix_python)) as (_ & _ & _ & _ & Hp & _ & Hc & _).
  split.
  - apply Hp; vm_compute; discriminate.
  - apply Hc. vm_compute; reflexivity.
Defined.

(** A service that refuses an audio file above 25 MB: the failure is the
    general one, of the same class and with the same prefix as the
    failure of a call that could not reach the service. *)
Lemma oversize_counterexample :
  files big_audio_world !! u "talk.wav" = Some (BinaryFile 26214401)
  /\ 25 * 1024 * 1024 < file_size (BinaryFile 26214401)
  /\ transcribe_video limited (u "talk.wav") (u "out") big_audio_world
     = (Raise (Exn Exception
                 (u "Transcription failed: "
                  ++ u "Maximum content size limit (26214400) exceeded")),
        big_audio_world)
  /\ transcribe_video offline (u "talk.wav") (u "out") big_audio_world
     = (Raise (Exn Exception (u "Transcription failed: " ++ u "connection refused")),
        big_audio_world).
Proof. repeat split; vm_compute; reflexivity. Qed.

Lemma transcription_size_check_witness :
  validate_audio_file (u "talk.wav") big_audio_world = (Ok false, big_audio_world)
  /\ transcribe_video limited (u "talk.wav") (u "out") big_audio_world
     = (Raise (Exn Exception
                 (u "Transcription failed: "
                  ++ u "Maximum content size limit (26214400) exceeded")),
        big_audio_world).
Proof.
  destruct (transcription_size_check (py := posix_python) limited) as (Hfail & _ & Hval).
  split.
  - destruct (Hval (u "talk.wav") big_audio_world) as (b & -> & Hb).
    f_equal. f_equal. apply Hb. right. left.
    exists (BinaryFile 26214401). split; vm_compute; reflexivity.
  - apply (Hfail (u "talk.wav") (u "out") big_audio_world 115 (u "k-test")
             (BinaryFile 26214401)
             (Exn Exception (u "Maximum content size limit (26214400) exceeded")));
      vm_compute; reflexivity.
Defined.

(** The [float] written 93210.03 is printed with 029 milliseconds, and the
    largest [float] below 1 with 999. *)
Lemma timestamp_round_trip_witness :
  is_float64 sample_seconds = true
  /\ in_format_range sample_seconds
  /\ format_srt_timestamp sample_seconds = u "25:53:30,029"
  /\ format_srt_timestamp almost_one = u "00:00:00,999"
  /\ exists ms,
       spec_parse_timestamp (format_srt_timestamp sample_seconds) = Some ms
       /\ within_1ms sample_seconds ms
       /\ length (format_srt_timestamp sample_seconds) = 12%nat.
Proof.
  split; [vm_compute; reflexivity|]. split; [vm_compute; discriminate|].
  split; [vm_compute; reflexivity|]. split; [vm_compute; reflexivity|].
  apply timestamp_round_trip; [vm_compute; reflexivity|vm_compute; discriminate].
Defined.

(** One run of [translate_srt] on the sample file: the first cue is
    translated, the second, whose text is markup alone, is kept. *)
Lemma translate_srt_frame_witness :
  translate_srt answering (u "in.srt") (u "Spanish") (u "out") sample_world
  = (Ok (u "out/in_spanish.srt"),
     snd (translate_srt answering (u "in.srt") (u "Spanish") (u "out") sample_world))
  /\ exists code cues cues' rss,
      assoc (u "Spanish") LANGUAGE_MAP = Some code
      /\ parse_srt_file (u "in.srt") sample_world = (Ok cues, sample_world)
      /\ files (snd (translate_srt answering (u "in.srt") (u "Spanish") (u "out")
                       sample_world)) !! u "out/in_spanish.srt"
         = Some (TextFile (write_newlines (srt_text cues')))
      /\ sent (snd (translate_srt answering (u "in.srt") (u "Spanish") (u "out")
                      sample_world))
         = sent sample_world ++ concat rss
      /\ length cues' = length cues
      /\ List.map index cues' = List.map index cues
      /\ List.map timestamp cues' = List.map timestamp cues
      /\ Forall3 (subtitle_step code) cues cues' rss
      /\ (forall i c t,
            cues !! i = Some c -> text c = JStr t -> clean_text t = [] ->
            cues' !! i = Some c /\ rss !! i = Some [])
      /\ (forall r, r ∈ concat rss ->
            exists c t,
              c ∈ cues /\ text c = JStr t /\ clean_text t <> []
              /\ (r = libretranslate_request (clean_text t) code (u "en")
                  \/ r = mymemory_request (clean_text t) code (u "en"))).
Proof.
  split; [vm_compute; reflexivity|].
  apply (translate_srt_frame answering (u "in.srt") (u "Spanish") (u "out") sample_world).
  vm_compute; reflexivity.
Defined.


(** * Further properties *)

(** ** Markup removal *)

Lemma has_tag_nil : ~ has_tag [].
Proof. intros (a & m & b & _ & _ & H). by destruct a. Qed.

Lemma has_tag_cons c s :
  has_tag (c :: s) ->
  (c = 60 /\ exists m b, m <> [] /\ (62 ∉ m) /\ s = m ++ 62 :: b) \/ has_tag s.
Proof.
  intros (a & m & b & Hm & Hgt & H). destruct a as [|x a].
  - injection H as -> ->. left. split; [done|]. by exists m, b.
  - injection H as -> ->. right. by exists a, m, b.
Qed.

Lemma has_tag_needs_gt s : has_tag s -> 62 ∈ s.
Proof. intros (a & m & b & _ & _ & ->). set_solver. Qed.

Lemma has_tag_app_l a s : has_tag s -> has_tag (a ++ s).
Proof.
  intros (a' & m & b & Hm & Hgt & ->). exists (a ++ a'), m, b.
  by rewrite <- app_assoc.
Qed.

Lemma has_tag_app_r s b : has_tag s -> has_tag (s ++ b).
Proof.
  intros (a & m & b' & Hm & Hgt & ->). exists a, m, (b' ++ b).
  repeat split; try done. rewrite <- !app_assoc. simpl. by rewrite <- app_assoc.
Qed.

Lemma strip_tags_go_clean s :
  ~ has_tag (strip_tags_go None s)
  /\ forall buf, 62 ∉ buf -> ~ has_tag (strip_tags_go (Some buf) s).
Proof.
  induction s as [|c r [IH1 IH2]]; split.
  - apply has_tag_nil.
  - intros buf Hbuf H%has_tag_needs_gt.
    apply elem_of_cons in H as [H|H]; [done|by apply Hbuf].
  - simpl. destruct (N.eqb_spec c 60) as [->|Hc].
    + apply IH2, not_elem_of_nil.
    + intros [[? _]|H]%has_tag_cons; [done|by apply IH1].
  - intros buf Hbuf. simpl. destruct (N.eqb_spec c 62) as [->|Hc].
    + destruct buf as [|x buf]; [|apply IH1].
      intros [(_ & m & b & Hm & Hgt & H)|H]%has_tag_cons.
      * destruct m as [|y m]; [done|]. injection H as <- _.
        apply Hgt. by left.
      * apply has_tag_cons in H as [[? _]|H]; [done|by apply IH1].
    + apply IH2. intros [H|H%list_elem_of_singleton]%elem_of_app; [by apply Hbuf|done].
Qed.

Lemma strip_tags_go_open buf s :
  62 ∉ s -> strip_tags_go (Some buf) s = 60 :: buf ++ s.
Proof.
  revert buf. induction s as [|c r IH]; intros buf Hs; simpl.
  - by rewrite app_nil_r.
  - apply not_elem_of_cons in Hs as [Hc Hr].
    destruct (N.eqb_spec c 62) as [->|_]; [done|].
    rewrite IH by done. by rewrite <- app_assoc.
Qed.

Lemma strip_tags_go_tag buf m b :
  62 ∉ m -> buf ++ m <> [] ->
  strip_tags_go (Some buf) (m ++ 62 :: b) = strip_tags_go None b.
Proof.
  revert buf. induction m as [|c m IH]; intros buf Hm Hne; simpl.
  - rewrite app_nil_r in Hne. by destruct buf.
  - apply not_elem_of_cons in Hm as [Hc Hm].
    destruct (N.eqb_spec c 62) as [->|_]; [done|].
    apply IH; [done|]. rewrite <- app_assoc. by destruct buf.
Qed.

(** A text without a tag is left as it is. *)
Lemma strip_tags_none s : ~ has_tag s -> strip_tags s = s.
Proof.
  unfold strip_tags. induction s as [|c r IH]; intros Hno; [done|]. simpl.
  destruct (N.eqb_spec c 60) as [->|Hc].
  - destruct (decide (62 ∈ r)) as [Hin|Hout].
    + apply list_elem_of_split_l in Hin as (m & b & -> & Hm).
      destruct m as [|x m].
      * simpl in *. rewrite IH; [done|].
        intros H. apply Hno. by apply (has_tag_app_l [60]).
      * exfalso. apply Hno. exists [], (x :: m), b. by repeat split.
    + by rewrite strip_tags_go_open.
  - rewrite IH; [done|]. intros H. apply Hno. by apply (has_tag_app_l [c]).
Qed.

Lemma lstrip_suffix s : exists ws, s = ws ++ lstrip s /\ forallb isspace ws = true.
Proof.
  induction s as [|c r (ws & Hr & Hws)]; [by exists []|]. simpl.
  destruct (isspace c) eqn:E.
  - exists (c :: ws). simpl. by rewrite E, Hws, <- Hr.
  - by exists [].
Qed.

Lemma rstrip_prefix s : exists ws, s = rstrip s ++ ws /\ forallb isspace ws = true.
Proof.
  unfold rstrip. destruct (lstrip_suffix (rev s)) as (ws & Hs & Hws).
  exists (rev ws). split.
  - rewrite <- rev_app_distr, <- Hs. by rewrite rev_involutive.
  - rewrite forallb_forall in *. intros c Hc. apply Hws. by apply in_rev.
Qed.

Lemma strip_infix s : exists a b, s = a ++ strip s ++ b.
Proof.
  unfold strip. destruct (lstrip_suffix s) as (a & Ha & _).
  destruct (rstrip_prefix (lstrip s)) as (b & Hb & _).
  exists a, b. by rewrite <- Hb.
Qed.

(** X1.  What [re.sub(r'<[^>]+>', '', s)] returns holds no tag, so cleaning
    twice changes nothing more; a text that holds no tag is returned as it
    is; and the cleaned text that [translate_srt] sends holds no tag
    either, whole or cut to its first 500 characters. *)
Theorem strip_tags_complete s :
  ~ has_tag (strip_tags s)
  /\ strip_tags (strip_tags s) = strip_tags s
  /\ (~ has_tag s -> strip_tags s = s)
  /\ ~ has_tag (clean_text s)
  /\ ~ has_tag (take 500 (clean_text s)).
Proof.
  assert (~ has_tag (strip_tags s)) as Hclean by apply strip_tags_go_clean.
  assert (~ has_tag (clean_text s)) as Hsent.
  { unfold clean_text. destruct (strip_infix (strip_tags s)) as (a & b & Hs).
    intros H. apply Hclean. rewrite Hs. by apply has_tag_app_l, has_tag_app_r. }
  split; [done|]. split; [by apply strip_tags_none|].
  split; [apply strip_tags_none|]. split; [done|].
  intros H. apply Hsent. rewrite <- (take_drop 500 (clean_text s)).
  by apply has_tag_app_r.
Qed.

(** ** What the parser returns *)

Lemma lines_shown_split b s :
  lines_shown b s
  = match split_on LF s with
    | h :: t => (b || visible h) && forallb visible t
    | [] => false
    end.
Proof.
  revert b. induction s as [|c r IH]; intros b; simpl.
  - by rewrite orb_false_r, andb_true_r.
  - pose proof (split_on_nonempty LF r) as Hne.
    destruct (c =? LF).
    + rewrite IH. destruct (split_on LF r) as [|h t]; [done|].
      simpl. by rewrite orb_false_r.
    + rewrite IH. destruct (split_on LF r) as [|h t]; [done|].
      simpl. by rewrite orb_assoc.
Qed.

Lemma lines_shown_snoc b cur c :
  (c =? LF) = false ->
  lines_shown b cur = true -> lines_shown b (cur ++ [c]) = true.
Proof.
  intros Hc. revert b. induction cur as [|x r IH]; intros b; simpl.
  - intros ->. by rewrite Hc.
  - destruct (x =? LF).
    + intros [-> H]%andb_true_iff. by rewrite IH.
    + apply IH.
Qed.

Lemma lines_shown_blank_start b ws c :
  forallb (fun x => isspace x && negb (x =? LF)) ws = true ->
  isspace c = false ->
  lines_shown b (ws ++ [c]) = true.
Proof.
  intros Hws Hc. revert b. induction ws as [|x r IH]; intros b; simpl.
  - rewrite (not_space_not_LF c Hc), Hc. simpl. by rewrite orb_true_r.
  - simpl in Hws. apply andb_true_iff in Hws as [Hx Hr].
    apply andb_true_iff in Hx as [_ Hx]. apply negb_true_iff in Hx.
    rewrite Hx. by apply IH.
Qed.

Lemma lines_shown_new_line b cur ws c :
  lines_shown b cur = true ->
  forallb (fun x => isspace x && negb (x =? LF)) ws = true ->
  isspace c = false ->
  lines_shown b (cur ++ LF :: ws ++ [c]) = true.
Proof.
  intros Hcur Hws Hc. revert b Hcur. induction cur as [|x r IH]; intros b; simpl.
  - intros ->. by rewrite lines_shown_blank_start.
  - destruct (x =? LF).
    + intros [-> H]%andb_true_iff. by rewrite IH.
    + apply IH.
Qed.

Lemma ends_visible_tail c x r : ends_visible (c :: x :: r) = ends_visible (x :: r).
Proof.
  unfold ends_visible. change (rev (c :: x :: r)) with (rev (x :: r) ++ [c]).
  destruct (rev (x :: r)) as [|y l] eqn:E; [|done].
  apply (f_equal (@length N)) in E. rewrite length_rev in E. done.
Qed.

Lemma ends_visible_single c : ends_visible [c] = negb (isspace c).
Proof. done. Qed.

(** The pieces [re.split] cuts a stripped text into have no blank line. *)
Lemma split_blank_go_shown st cur s :
  lines_shown false cur = true ->
  match st with
  | Plain => True
  | Pending ws | Matched ws =>
      forallb (fun x => isspace x && negb (x =? LF)) ws = true
  end ->
  match s with
  | [] => st = Plain
  | _ :: _ => ends_visible s = true
  end ->
  Forall (fun p => lines_shown false p = true) (split_blank_go st cur s).
Proof.
  revert st cur. induction s as [|c r IH]; intros st cur Hcur Hst Hend.
  - subst st. simpl. by repeat constructor.
  - assert (match r with
            | [] => isspace c = false
            | _ :: _ => ends_visible r = true
            end) as Hr.
    { destruct r as [|x r]; [|by rewrite ends_visible_tail in Hend].
      rewrite ends_visible_single in Hend. by apply negb_true_iff. }
    cbn [split_blank_go]. destruct st as [|ws|ws].
    + destruct (c =? LF) eqn:Hc.
      * apply IH; [done|done|]. destruct r; [|done].
        apply N.eqb_eq in Hc as ->. by rewrite isspace_LF in Hr.
      * apply IH; [by apply lines_shown_snoc|done|by destruct r].
    + destruct (c =? LF) eqn:Hc.
      * apply IH; [done|done|]. destruct r; [|done].
        apply N.eqb_eq in Hc as ->. by rewrite isspace_LF in Hr.
      * destruct (isspace c) eqn:Hsp.
        -- apply IH; [done| |by destruct r].
           rewrite forallb_app, Hst. simpl. by rewrite Hsp, Hc.
        -- apply IH; [by apply lines_shown_new_line|done|by destruct r].
    + destruct (c =? LF) eqn:Hc.
      * apply IH; [done|done|]. destruct r; [|done].
        apply N.eqb_eq in Hc as ->. by rewrite isspace_LF in Hr.
      * destruct (isspace c) eqn:Hsp.
        -- apply IH; [done| |by destruct r].
           rewrite forallb_app, Hst. simpl. by rewrite Hsp, Hc.
        -- constructor; [done|].
           apply IH; [by apply lines_shown_blank_start|done|by destruct r].
Qed.

Lemma split_blank_shown t :
  starts_visible t = true -> ends_visible t = true ->
  Forall (fun p => lines_shown false p = true) (split_blank t).
Proof.
  destruct t as [|c r]; [done|]. simpl. intros Hc%negb_true_iff Hend.
  unfold split_blank. cbn [split_blank_go]. rewrite (not_space_not_LF c Hc).
  apply split_blank_go_shown.
  - simpl. by rewrite (not_space_not_LF c Hc), Hc.
  - done.
  - destruct r as [|x r]; [done|]. by rewrite ends_visible_tail in Hend.
Qed.

Lemma lines_shown_lstrip s :
  lines_shown false s = true -> lines_shown false (lstrip s) = true.
Proof.
  induction s as [|c r IH]; [done|]. cbn [lstrip].
  destruct (isspace c) eqn:Hsp; [|done].
  simpl. destruct (c =? LF); [done|]. rewrite Hsp. apply IH.
Qed.

Lemma lines_shown_blank b ws :
  forallb isspace ws = true -> lines_shown b ws = true -> b = true.
Proof.
  revert b. induction ws as [|c r IH]; intros b Hws; [done|]. simpl in *.
  apply andb_true_iff in Hws as [Hc Hr]. destruct (c =? LF).
  - by intros [? _]%andb_true_iff.
  - rewrite Hc. simpl. rewrite orb_false_r. by apply IH.
Qed.

Lemma lines_shown_cut b p ws :
  forallb isspace ws = true ->
  lines_shown b (p ++ ws) = true -> lines_shown b p = true.
Proof.
  intros Hws. revert b. induction p as [|c r IH]; intros b; simpl.
  - by apply lines_shown_blank.
  - destruct (c =? LF).
    + intros [-> H]%andb_true_iff. by rewrite IH.
    + apply IH.
Qed.

Lemma lines_shown_strip s :
  lines_shown false s = true -> lines_shown false (strip s) = true.
Proof.
  intros H%lines_shown_lstrip. unfold strip.
  destruct (rstrip_prefix (lstrip s)) as (ws & Heq & Hws).
  rewrite Heq in H. by apply lines_shown_cut in H.
Qed.

Lemma forallb_strip (P : N -> bool) s :
  forallb P s = true -> forallb P (strip s) = true.
Proof.
  destruct (strip_infix s) as (a & b & Heq). rewrite Heq at 1.
  rewrite !forallb_app. by intros [_ [? _]%andb_true_iff]%andb_true_iff.
Qed.

Lemma lstrip_starts s : lstrip s = [] \/ starts_visible (lstrip s) = true.
Proof.
  induction s as [|c r IH]; [by left|]. simpl.
  destruct (isspace c) eqn:E; [done|]. right. simpl. by rewrite E.
Qed.

Lemma strip_ends s :
  strip s = [] \/ (starts_visible (strip s) = true /\ ends_visible (strip s) = true).
Proof.
  unfold strip, rstrip.
  destruct (lstrip_starts (rev (lstrip s))) as [E|E].
  - left. by rewrite E.
  - right. split.
    + destruct (lstrip_starts s) as [E'|E'].
      { rewrite E' in E. done. }
      destruct (rstrip_prefix (lstrip s)) as (ws & Heq & Hws).
      unfold rstrip in Heq.
      destruct (rev (lstrip (rev (lstrip s)))) as [|x l] eqn:Hx.
      * simpl in Heq. rewrite Heq in E'. destruct ws as [|y ws]; [done|].
        simpl in *. apply andb_true_iff in Hws as [Hy _]. by rewrite Hy in E'.
      * rewrite Heq in E'. done.
    + unfold ends_visible. by rewrite rev_involutive.
Qed.

Lemma split_on_join ls :
  ls <> [] -> Forall (fun l => LF ∉ l) ls -> split_on LF (join [LF] ls) = ls.
Proof.
  induction ls as [|l ls IH]; [done|]. intros _ Hall.
  apply Forall_cons in Hall as [Hl Hls].
  destruct ls as [|l' ls].
  - by apply split_on_single.
  - rewrite join_cons by done. cbn [app]. rewrite split_on_line by done.
    by rewrite IH.
Qed.

Lemma split_blank_go_chars (P : N -> bool) st cur s :
  P LF = true ->
  forallb P cur = true ->
  match st with
  | Plain => True
  | Pending ws | Matched ws => forallb P ws = true
  end ->
  forallb P s = true ->
  Forall (fun p => forallb P p = true) (split_blank_go st cur s).
Proof.
  intros HLF. revert st cur. induction s as [|c r IH]; intros st cur Hcur Hst Hs.
  - destruct st; simpl.
    + by repeat constructor.
    + repeat constructor. rewrite forallb_app. simpl. by rewrite Hcur, HLF, Hst.
    + by repeat constructor.
  - simpl in Hs. apply andb_true_iff in Hs as [Hc Hr].
    cbn [split_blank_go]. destruct st as [|ws|ws].
    + destruct (c =? LF).
      * by apply IH.
      * apply IH; [|done|done]. rewrite forallb_app. simpl. by rewrite Hcur, Hc.
    + destruct (c =? LF); [by apply IH|].
      destruct (isspace c).
      * apply IH; [done| |done]. rewrite forallb_app. simpl. by rewrite Hst, Hc.
      * apply IH; [|done|done]. rewrite forallb_app. cbn [forallb].
        rewrite forallb_app. simpl. by rewrite Hcur, HLF, Hst, Hc.
    + destruct (c =? LF); [by apply IH|].
      destruct (isspace c).
      * apply IH; [done| |done]. rewrite forallb_app. simpl. by rewrite Hst, Hc.
      * constructor; [done|]. apply IH; [|done|done].
        rewrite forallb_app. simpl. by rewrite Hst, Hc.
Qed.

Lemma universal_newlines_storable_aux s :
  forallb encodable s = true ->
  forallb storable (universal_newlines s) = true
  /\ forall c, encodable c = true ->
       forallb storable (universal_newlines (c :: s)) = true.
Proof.
  induction s as [|x r IH]; intros Hs.
  - split; [done|]. intros c Hc. simpl. unfold storable.
    destruct (c =? CR) eqn:E; [done|]. simpl. by rewrite E, Hc.
  - simpl in Hs. apply andb_true_iff in Hs as [Hx Hr].
    destruct (IH Hr) as [IH1 IH2]. split; [by apply IH2|].
    intros c Hc.
    change (universal_newlines (c :: x :: r))
      with (if c =? CR
            then LF :: (if x =? LF then universal_newlines r
                        else universal_newlines (x :: r))
            else c :: universal_newlines (x :: r)).
    destruct (c =? CR) eqn:E.
    + destruct (x =? LF); cbn [forallb]; [by rewrite IH1|].
      by rewrite (IH2 x Hx).
    + cbn [forallb]. unfold storable at 1. rewrite E, Hc. simpl. by apply IH2.
Qed.

Lemma universal_newlines_storable s :
  forallb encodable s = true -> forallb storable (universal_newlines s) = true.
Proof. intros H. by apply universal_newlines_storable_aux. Qed.

Section Reparse.
Context {py : Python} (sv : services).

Lemma parse_block_well_formed block c :
  lines_shown false block = true ->
  forallb storable block = true ->
  parse_block block = Some c ->
  well_formed c = true.
Proof.
  intros Hshown%lines_shown_strip Hst%forallb_strip
    (Hlen & Hint & Hts & Ht)%parse_block_Some.
  apply (py_int_printable todecimal todecimal_digit) in Hint.
  pose proof (join_split LF (strip block)) as Hjoin.
  pose proof (split_on_lines LF (strip block)) as Hfree.
  rewrite lines_shown_split in Hshown.
  destruct (strip_ends block) as [E|[_ Hend]].
  { rewrite E in Hlen. simpl in Hlen. lia. }
  destruct (split_on LF (strip block)) as [|l0 [|l1 [|l2 rest]]];
    simpl in Hlen; try lia.
  simpl in Hshown, Hts. cbn [drop] in Ht.
  apply andb_true_iff in Hshown as [Hv1 Hvis].
  apply andb_true_iff in Hvis as [Hv2 Hvis].
  apply Forall_cons in Hfree as [_ Hfree].
  apply Forall_cons in Hfree as [Hf1 Hfree].
  rewrite join_cons in Hjoin by done. rewrite join_cons in Hjoin by done.
  rewrite <- Hjoin in Hst, Hend.
  rewrite !forallb_app in Hst.
  apply andb_true_iff in Hst as [_ Hst].
  apply andb_true_iff in Hst as [_ Hst].
  apply andb_true_iff in Hst as [Hs1 Hst].
  apply andb_true_iff in Hst as [_ Hs2].
  assert (split_on LF (join [LF] (l2 :: rest)) = l2 :: rest) as Hsp
    by (by apply split_on_join).
  remember (join [LF] (l2 :: rest)) as t eqn:Et.
  unfold well_formed, timestamp_ok, text_ok. rewrite Hint, Ht, Hts, Hv2, Hsp, Hs2.
  cbn [forallb andb]. rewrite Hvis.
  assert (forallb (fun c => negb (c =? LF) && storable c) l1 = true) as ->.
  { apply forallb_forall. intros x Hx. rewrite forallb_forall in Hs1.
    rewrite (Hs1 x Hx), andb_true_r. apply negb_true_iff, N.eqb_neq.
    intros ->. by apply Hf1, list_elem_of_In. }
  cbn [andb]. rewrite andb_true_r.
  unfold ends_visible in *. rewrite !rev_app_distr in Hend.
  destruct (rev t) as [|x l] eqn:Hx; [|done].
  apply (f_equal (@rev N)) in Hx. rewrite rev_involutive in Hx. simpl in Hx.
  rewrite Hx in Hsp. simpl in Hsp. injection Hsp as <- <-.
  simpl in Hvis. done.
Qed.

Lemma parse_srt_well_formed content :
  forallb storable content = true ->
  forallb well_formed (parse_srt content) = true.
Proof.
  intros Hst%forallb_strip. apply forallb_forall. intros c Hc.
  apply list_elem_of_In in Hc. unfold parse_srt in Hc.
  apply list_elem_of_omap in Hc as (block & Hin & Hpb).
  destruct (strip_ends content) as [E|[Hs He]].
  - rewrite E in Hin. apply list_elem_of_singleton in Hin as ->. done.
  - pose proof (split_blank_shown _ Hs He) as Hshown.
    pose proof (split_blank_go_chars storable Plain [] _ eq_refl eq_refl I Hst)
      as Hchars.
    rewrite Forall_forall in Hshown, Hchars.
    apply (parse_block_well_formed block); [by apply Hshown|by apply Hchars|done].
Qed.

(** X2.  Whatever [parse_srt_file] reads from a text file, the cues it
    returns are ones the format can hold: the timestamp is one line that
    shows something, the text has no blank line and no whitespace at its
    end.  So writing them with [create_translated_srt] and parsing the new
    file gives the same cues again, although the new file need not be the
    old one (skipped blocks, leading zeros and extra blank lines are
    gone). *)
Theorem parse_srt_regenerates path out content w :
  files w !! path = Some (TextFile content) ->
  forallb encodable content = true ->
  writable sv out = true ->
  exists cues w',
    parse_srt_file path w = (Ok cues, w)
    /\ forallb well_formed cues = true
    /\ create_translated_srt sv cues out w = (Ok out, w')
    /\ files w' !! out = Some (TextFile (write_newlines (srt_text cues)))
    /\ parse_srt_file out w' = (Ok cues, w').
Proof.
  intros Hf Henc Hw.
  pose proof (parse_srt_well_formed _ (universal_newlines_storable _ Henc)) as Hwf.
  pose proof (srt_text_storable _ Hwf) as Hst.
  exists (parse_srt (universal_newlines content)). eexists.
  split; [by rewrite parse_srt_file_run, Hf|]. split; [done|].
  split; [|split].
  - apply create_translated_srt_ok; [done|by apply well_formed_printable_cues|].
    revert Hst. apply forallb_weaken. by intros ? [_ ?]%andb_true_iff.
  - apply with_file_lookup.
  - rewrite parse_srt_file_run, with_file_lookup.
    rewrite universal_write_newlines.
    + by rewrite parse_srt_srt_text.
    + revert Hst. apply forallb_weaken. by intros ? [? _]%andb_true_iff.
Qed.
End Reparse.

(** ** Writing a subtitle file *)

Section WriteOutcome.
Context {py : Python} (sv : services).

(** X3.  Every way [create_translated_srt] can end.  It returns the path
    it was given exactly when the file can be opened for writing, every
    index and text can be printed (no integer of more than 4300 digits)
    and all the text can be encoded, and the file then holds the blocks of
    the cues in order.  When the file cannot be opened nothing changes.
    When something cannot be printed or encoded the call raises (the
    [ValueError] of the integer limit or [UnicodeEncodeError]) and leaves
    a cut file: what the file held before is gone, and it holds the part
    of the text that was written before the write that failed.  No other
    file is touched and no request is made. *)
Theorem create_translated_srt_outcome cues path w :
  exists r w',
    create_translated_srt sv cues path w = (r, w')
    /\ (r = Ok path
        <-> writable sv path = true /\ forallb printable_cue cues = true
            /\ forallb encodable (srt_text cues) = true)
    /\ (r = Ok path ->
        files w' !! path = Some (TextFile (write_newlines (srt_text cues))))
    /\ (writable sv path = false -> r = Raise (Exn OSError path) /\ w' = w)
    /\ (writable sv path = true ->
        forallb printable_cue cues && forallb encodable (srt_text cues) = false ->
        exists e pre post,
          r = Raise e
          /\ (exn_cls e = UnicodeEncodeError \/ e = int_limit_error)
          /\ srt_text cues = pre ++ post /\ post <> []
          /\ files w' !! path = Some (TextFile (write_newlines pre)))
    /\ (forall q, q <> path -> files w' !! q = files w !! q)
    /\ sent w' = sent w.
Proof.
  unfold create_translated_srt, bind at 1, open_w.
  destruct (writable sv path) eqn:Hw.
  2:{ exists (Raise (Exn OSError path)), w. repeat split; try done.
      by intros [? _]. }
  unfold bind at 1.
  destruct (forallb printable_cue cues && forallb encodable (srt_text cues)) eqn:Hok.
  - apply andb_true_iff in Hok as [Hp Henc].
    erewrite write_cues_ok; [|done|done|apply with_file_lookup].
    unfold ret. rewrite with_file_again. eexists _, _. split; [done|].
    repeat split; try done.
    + intros _. apply with_file_lookup.
    + intros q Hq. simpl. by rewrite lookup_insert_ne.
  - destruct (write_cues_partial path cues [] (with_file path [] w) Hok)
      as (e & pre & post & Hrun & He & Heq & Hpre & Hpost);
      [apply with_file_lookup|].
    rewrite Hrun, with_file_again. simpl app. eexists _, _. split; [done|].
    repeat split; try done.
    + intros (_ & Hp & Henc). by rewrite Hp, Henc in Hok.
    + intros _ _. exists e, pre, post. repeat split; try done.
      apply with_file_lookup.
    + intros q Hq. simpl. by rewrite lookup_insert_ne.
Qed.
End WriteOutcome.

(** ** Translating without a service *)

Lemma strip_tags_go_chars (P : N -> bool) inside s :
  P 60 = true ->
  match inside with
  | None => True
  | Some buf => forallb P buf = true
  end ->
  forallb P s = true ->
  forallb P (strip_tags_go inside s) = true.
Proof.
  intros H60. revert inside. induction s as [|c r IH]; intros inside Hin Hs.
  - destruct inside as [buf|]; simpl; [|done]. by rewrite H60, Hin.
  - simpl in Hs. apply andb_true_iff in Hs as [Hc Hr].
    destruct inside as [buf|]; simpl.
    + destruct (c =? 62) eqn:E.
      * apply N.eqb_eq in E as ->.
        destruct buf; [|by apply IH]. simpl. rewrite H60, Hc. by apply IH.
      * apply IH; [|done]. rewrite forallb_app. simpl. by rewrite Hin, Hc.
    + destruct (c =? 60); [by apply IH|]. simpl. rewrite Hc. by apply IH.
Qed.

Lemma clean_text_chars (P : N -> bool) t :
  P 60 = true -> forallb P t = true -> forallb P (clean_text t) = true.
Proof.
  intros H60 Ht. apply forallb_strip. by apply strip_tags_go_chars.
Qed.

Section Offline.
Context {py : Python} (sv : services).
Hypothesis down :
  forall h r, exists e, http sv h r = Raise e /\ is_RequestException e = true.

Lemma translate_subtitle_down code c t w :
  text c = JStr t ->
  translate_subtitle sv code c w
  = (Ok (pass_through c), add_requests (retried_requests code c) w).
Proof.
  intros Ht. unfold translate_subtitle, pass_through, retried_requests.
  rewrite Ht. unfold bind, ret.
  destruct (clean_text t) as [|x l] eqn:E.
  - rewrite add_requests_nil. destruct c; simpl in *. by subst.
  - rewrite translate_text_when_down by done.
    unfold after_request. by rewrite add_requests_app.
Qed.

Lemma translate_subtitles_down code cues w :
  Forall (fun c => exists t, text c = JStr t) cues ->
  for_collect cues (translate_subtitle sv code) w
  = (Ok (List.map pass_through cues),
     add_requests (concat (List.map (retried_requests code) cues)) w).
Proof.
  revert w. induction cues as [|c cs IH]; intros w Hall.
  - simpl. unfold ret. by rewrite add_requests_nil.
  - apply Forall_cons in Hall as [[t Ht] Hall].
    cbn [for_collect List.map concat]. unfold bind at 1.
    rewrite (translate_subtitle_down code c t) by done.
    unfold bind at 1. rewrite IH by done. unfold ret.
    by rewrite add_requests_app.
Qed.

Lemma pass_through_encodable cues :
  forallb well_formed cues = true ->
  forallb encodable (srt_text (List.map pass_through cues)) = true.
Proof.
  induction cues as [|c cs IH]; [done|]. cbn [forallb List.map].
  intros [Hc Hcs]%andb_true_iff.
  rewrite srt_text_cons, !forallb_app, (IH Hcs).
  unfold well_formed, timestamp_ok, text_ok in Hc.
  apply andb_true_iff in Hc as [Hts Ht].
  apply andb_true_iff in Hts as [_ Hts].
  apply andb_true_iff in Hts as [_ Hts].
  destruct (text c) as [| | | |t| |] eqn:E; try done.
  apply andb_true_iff in Ht as [_ Ht].
  assert (forallb encodable (py_str (index (pass_through c))) = true) as ->.
  { generalize (py_str_storable (index (pass_through c))).
    apply forallb_weaken. by intros ? [_ ?]%andb_true_iff. }
  assert (forallb encodable (timestamp c) = true) as Hts'.
  { revert Hts. apply forallb_weaken.
    by intros ? [_ [_ ?]%andb_true_iff]%andb_true_iff. }
  assert (forallb encodable t = true) as Ht'.
  { revert Ht. apply forallb_weaken. by intros ? [_ ?]%andb_true_iff. }
  unfold pass_through. rewrite E.
  destruct (clean_text t) as [|x l] eqn:Ec.
  - rewrite E, format_value_str, Hts', Ht'. done.
  - cbn [timestamp text]. rewrite format_value_str, Hts', <- Ec.
    rewrite clean_text_chars by done. done.
Qed.

Lemma pass_through_printable cues :
  forallb well_formed cues = true ->
  forallb printable_cue (List.map pass_through cues) = true.
Proof.
  rewrite !forallb_forall. intros H c (c0 & <- & Hc0)%in_map_iff.
  specialize (H c0 Hc0). pose proof (well_formed_printable c0 H) as Hp.
  unfold well_formed in H. apply andb_true_iff in H as [_ H].
  unfold printable_cue, pass_through.
  destruct (text c0) as [| | | |t| |] eqn:E; try done.
  destruct (clean_text t); simpl; by rewrite ?E, Hp.
Qed.

(** X4.  With a translation service on which every request fails with a
    transport error, [translate_srt] still returns: for a supported
    language, a readable file with at least one cue and an output path
    that can be written, it gives the output path, and the file written
    there holds every cue with its index and timestamp and, for text, the
    cleaned source text (tags removed, stripped), or the text as it was
    when nothing is left after cleaning.  Each cue with something to
    translate has cost two requests, first the primary and then the
    fallback. *)
Theorem translate_srt_when_down path lang code out content w :
  assoc lang LANGUAGE_MAP = Some code ->
  files w !! path = Some (TextFile content) ->
  forallb encodable content = true ->
  parse_srt (universal_newlines content) <> [] ->
  writable sv (output_path_for path lang out) = true ->
  let cues := parse_srt (universal_newlines content) in
  translate_srt sv path lang out w
  = (Ok (output_path_for path lang out),
     with_file (output_path_for path lang out)
       (write_newlines (srt_text (List.map pass_through cues)))
       (add_requests (concat (List.map (retried_requests code) cues)) w)).
Proof.
  intros Hlang Hf Henc Hne Hw cues.
  pose proof (parse_srt_well_formed _ (universal_newlines_storable _ Henc)) as Hwf.
  fold cues in Hwf, Hne.
  rewrite (translate_srt_supported sv path lang code) by done.
  rewrite Hf. fold cues. destruct cues as [|c cs] eqn:E; [done|].
  unfold bind. rewrite translate_subtitles_down.
  - apply create_translated_srt_ok;
      [done|by apply pass_through_printable|by apply pass_through_encodable].
  - rewrite Forall_forall. intros x Hx. rewrite forallb_forall in Hwf.
    apply list_elem_of_In, Hwf in Hx. unfold well_formed in Hx.
    apply andb_true_iff in Hx as [_ Hx].
    destruct (text x); try done. by eexists.
Qed.
End Offline.

(** ** Probing the translation service *)

Section Probe.
Context {py : Python} (sv : services).

(** X5.  [validate_translation_service] never raises, and it costs one
    request or two.  Its answer is whether what came back for ["Hello"]
    differs from ["Hello"]: so it answers [False] when every request fails
    with a transport error, when the primary attempt fails in any other
    way, and also when the service answers and gives the word back
    unchanged. *)
Theorem validate_translation_service_verdict w :
  let hello := libretranslate_request (u "Hello") (u "es") (u "en") in
  let again := mymemory_request (u "Hello") (u "es") (u "en") in
  (exists b reqs,
     validate_translation_service sv w = (Ok b, add_requests reqs w)
     /\ (reqs = [hello] \/ reqs = [hello; again]))
  /\ ((forall h r, exists e, http sv h r = Raise e /\ is_RequestException e = true) ->
      validate_translation_service sv w = (Ok false, add_requests [hello; again] w))
  /\ (forall e,
        fst (libretranslate_attempt sv (u "Hello") (u "es") (u "en") w) = Raise e ->
        is_RequestException e = false ->
        validate_translation_service sv w = (Ok false, add_requests [hello] w))
  /\ (forall v,
        fst (libretranslate_attempt sv (u "Hello") (u "es") (u "en") w) = Ok v ->
        validate_translation_service sv w
        = (Ok (py_ne_str v (u "Hello")), add_requests [hello] w)).
Proof.
  intros hello again.
  unfold validate_translation_service, try_except, bind, ret.
  split; [|split; [|split]].
  - destruct (translate_text_requests sv (u "Hello") (u "es") (u "en") w)
      as (v & reqs & -> & Hreqs).
    by exists (py_ne_str v (u "Hello")), reqs.
  - intros Hdown. rewrite translate_text_when_down by done.
    unfold after_request. by rewrite add_requests_app.
  - intros e He Hcls. rewrite translate_text_unfold, He, Hcls. done.
  - intros v Hv. rewrite translate_text_unfold, Hv. done.
Qed.
End Probe.

(** ** From transcription to cues *)

Section Transcript.
Context {py : Python} (sv : services).

(** X6.  How [transcribe_video] can fail.  Without an API key (unset or
    empty) it raises [ValueError] before it looks at the audio file, and
    nothing changes.  With a key, an exception of the client constructor,
    which runs before the [try] block, comes out as it is, and nothing
    changes.  Every failure after that comes out as a plain [Exception]
    whose message starts with ["Transcription failed: "]: a missing audio
    file or a refused output file leave everything as it was, and a
    transcript that cannot be encoded leaves an empty transcription file
    behind. *)
Theorem transcribe_video_failures audio out w e w' :
  transcribe_video sv audio out w = (Raise e, w') ->
  (e = Exn ValueError (u "OpenAI API key not found in environment variables")
   /\ w' = w
   /\ (api_key w = None \/ api_key w = Some []))
  \/ (exists k ey,
        api_key w = Some (k :: ey)
        /\ openai_client sv (k :: ey) = Raise e /\ w' = w)
  \/ (exists m k ey,
        e = Exn Exception (u "Transcription failed: " ++ m)
        /\ api_key w = Some (k :: ey)
        /\ openai_client sv (k :: ey) = Ok tt
        /\ (w' = w
            \/ w' = with_file (path_join out (u "transcription.srt")) [] w)).
Proof.
  destruct (api_key w) as [[|k ey]|] eqn:Hkey.
  - unfold transcribe_video, bind, getenv_api_key. rewrite Hkey.
    intros [= <- <-]. left. auto.
  - destruct (openai_client sv (k :: ey)) as [[]|e0] eqn:Hc.
    2:{ rewrite (transcribe_video_no_client sv audio out w k ey e0 Hkey Hc).
        intros [= <- <-]. right. left. by exists k, ey. }
    rewrite (transcribe_video_run sv audio out w k ey Hkey Hc).
    intros Hrun. right. right.
    destruct (files w !! audio) as [d|].
    + destruct (whisper sv (k :: ey) d) as [transcript|e0].
      * cbv zeta in Hrun.
        destruct (writable sv _).
        -- destruct (forallb encodable transcript) eqn:Henc; [done|].
           injection Hrun as <- <-. eexists _, k, ey. eauto.
        -- injection Hrun as <- <-. eexists _, k, ey. eauto.
      * injection Hrun as <- <-. eexists _, k, ey. eauto.
    + injection Hrun as <- <-. eexists _, k, ey. eauto.
  - unfold transcribe_video, bind, getenv_api_key. rewrite Hkey.
    intros [= <- <-]. left. auto.
Qed.

(** X7.  Transcription and parsing fit together: when [transcribe_video]
    returns a path for a transcript without carriage returns,
    [parse_srt_file] on that path gives the cues of the transcript, on
    either line-separator convention, and these cues are ones that
    [create_translated_srt] can write and [parse_srt_file] read back.
    The client is taken to be constructed, as a call that returns needs
    it. *)
Theorem transcribe_then_parse audio out w k ey d transcript :
  api_key w = Some (k :: ey) ->
  openai_client sv (k :: ey) = Ok tt ->
  files w !! audio = Some d ->
  whisper sv (k :: ey) d = Ok transcript ->
  forallb storable transcript = true ->
  writable sv (path_join out (u "transcription.srt")) = true ->
  exists w',
    transcribe_video sv audio out w = (Ok (path_join out (u "transcription.srt")), w')
    /\ parse_srt_file (path_join out (u "transcription.srt")) w'
       = (Ok (parse_srt transcript), w')
    /\ forallb well_formed (parse_srt transcript) = true.
Proof.
  intros Hkey Hc Hf Hwh Hst Hw.
  assert (forallb encodable transcript = true) as Henc.
  { revert Hst. apply forallb_weaken. by intros ? [_ ?]%andb_true_iff. }
  rewrite (transcribe_video_run sv audio out w k ey Hkey Hc), Hf, Hwh.
  cbv zeta. rewrite Hw, Henc. eexists. split; [done|]. split.
  - rewrite parse_srt_file_run, with_file_lookup.
    rewrite universal_write_newlines; [done|].
    revert Hst. apply forallb_weaken. by intros ? [? _]%andb_true_iff.
  - by apply parse_srt_well_formed.
Qed.

(** X12.  Line endings do not matter to [parse_srt_file]: a file saved
    with ["\r\n"] line ends gives the same cues as the same text saved
    with ["\n"]. *)
Theorem parse_srt_file_line_ends path s w :
  forallb (fun c => negb (c =? CR)) s = true ->
  let dos := flat_map (fun c => if c =? LF then [CR; LF] else [c]) s in
  fst (parse_srt_file path (with_file path dos w))
  = fst (parse_srt_file path (with_file path s w))
  /\ fst (parse_srt_file path (with_file path s w)) = Ok (parse_srt s).
Proof.
  intros Hs dos. rewrite !parse_srt_file_run, !with_file_lookup. simpl.
  rewrite (universal_newlines_plain s) by done.
  split; [|done]. do 2 f_equal. subst dos.
  clear w. induction s as [|c r IH]; [done|].
  simpl in Hs. apply andb_true_iff in Hs as [Hc Hr]. apply negb_true_iff in Hc.
  cbn [flat_map]. destruct (N.eqb_spec c LF) as [->|Hne].
  - simpl. by rewrite IH.
  - simpl. by rewrite Hc, IH.
Qed.
End Transcript.

(** ** What a batch leaves behind *)

Section BatchFiles.
Context {py : Python} (sv : services).

Lemma with_file_keeps p c w q :
  is_text_file w q -> is_text_file (with_file p c w) q.
Proof.
  intros [content H]. unfold is_text_file. simpl.
  destruct (decide (p = q)) as [->|Hne].
  - rewrite lookup_insert_eq. by eexists.
  - rewrite lookup_insert_ne by done. by eexists.
Qed.

Lemma translate_srt_keeps path lang out w r w' q :
  translate_srt sv path lang out w = (r, w') ->
  is_text_file w q -> is_text_file w' q.
Proof.
  intros Hrun Hq. destruct r as [p|e].
  - apply translate_srt_Ok in Hrun as (? & ? & ? & ? & _ & _ & _ & _ & _ & _ & _ & ->).
    by apply with_file_keeps.
  - apply translate_srt_Raise in Hrun
      as [(_ & _ & ->)|(_ & _ & rs & [->|[content ->]])]; [done|done|].
    by apply with_file_keeps.
Qed.

Lemma batch_loop_files path out langs acc w d w' :
  (forall l q, acc !! l = Some q -> is_text_file w q) ->
  batch_loop sv path out langs acc w = (Ok d, w') ->
  forall l q, d !! l = Some q -> is_text_file w' q.
Proof.
  revert acc w. induction langs as [|lang rest IH]; intros acc w Hacc Hrun.
  - by injection Hrun as <- <-.
  - rewrite batch_loop_step in Hrun.
    destruct (translate_srt sv path lang out w) as [[p|e] w1] eqn:Hl.
    + eapply IH; [|exact Hrun].
      intros l q [[<- <-]|[_ H]]%lookup_insert_Some.
      * apply translate_srt_Ok in Hl
          as (? & ? & ? & ? & _ & _ & _ & _ & -> & _ & _ & ->).
        eexists. apply with_file_lookup.
      * eapply translate_srt_keeps; [done|]. by eapply Hacc.
    + eapply IH; [|exact Hrun].
      intros l q H. eapply translate_srt_keeps; [done|]. by eapply Hacc.
Qed.

Lemma batch_loop_keys path out langs acc w d w' l q :
  batch_loop sv path out langs acc w = (Ok d, w') ->
  d !! l = Some q ->
  is_Some (acc !! l) \/ (l ∈ langs /\ is_Some (assoc l LANGUAGE_MAP)).
Proof.
  revert acc w. induction langs as [|lang rest IH]; intros acc w Hrun Hd.
  - injection Hrun as <- <-. left. by eexists.
  - rewrite batch_loop_step in Hrun.
    destruct (translate_srt sv path lang out w) as [[p|e] w1] eqn:Hl.
    + destruct (IH _ _ Hrun Hd) as [[q' [[<- <-]|[_ H]]%lookup_insert_Some]|[Hin Hk]].
      * right. split; [by left|].
        apply translate_srt_Ok in Hl as (code & ? & ? & ? & Hc & _).
        by eexists.
      * left. by eexists.
      * right. split; [by right|done].
    + destruct (IH _ _ Hrun Hd) as [H|[Hin Hk]]; [by left|].
      right. split; [by right|done].
Qed.

(** X13.  What [batch_translate_srt] hands back can be relied on: every
    key of the map is a language of the list that [LANGUAGE_MAP] knows,
    and every path in the map names a text file that is there when the
    batch returns, also when an entry was made early and other languages
    were tried after it. *)
Theorem batch_translate_files path langs out w d w' :
  batch_translate_srt sv path langs out w = (Ok d, w') ->
  forall lang p,
    d !! lang = Some p ->
    lang ∈ langs
    /\ is_Some (assoc lang LANGUAGE_MAP)
    /\ p = output_path_for path lang out
    /\ exists content, files w' !! p = Some (TextFile content).
Proof.
  unfold batch_translate_srt. intros Hrun lang p Hd.
  destruct (batch_loop_keys _ _ _ _ _ _ _ _ _ Hrun Hd) as [[? H]|[Hin Hk]]; [done|].
  split; [done|]. split; [done|]. split.
  - by apply (batch_loop_lookup sv path out langs ∅ w d w' lang p) in Hd as [-> _].
  - eapply batch_loop_files; [|exact Hrun|exact Hd]. done.
Qed.

End BatchFiles.

(** ** File names *)

Lemma replaced_chars s :
  fold_left (fun safe_name char => replace_char char 95 safe_name) unsafe_chars s
  = List.map (fun c => if bool_decide (c ∈ unsafe_chars) then 95 else c) s.
Proof.
  unfold unsafe_chars. cbn [fold_left]. unfold replace_char.
  rewrite !map_map. apply map_ext. intros c.
  destruct (N.eqb_spec c 60) as [->|H1]; [done|].
  destruct (N.eqb_spec c 62) as [->|H2]; [done|].
  destruct (N.eqb_spec c 58) as [->|H3]; [done|].
  destruct (N.eqb_spec c 34) as [->|H4]; [done|].
  destruct (N.eqb_spec c 47) as [->|H5]; [done|].
  destruct (N.eqb_spec c 92) as [->|H6]; [done|].
  destruct (N.eqb_spec c 124) as [->|H7]; [done|].
  destruct (N.eqb_spec c 63) as [->|H8]; [done|].
  destruct (N.eqb_spec c 42) as [->|H9]; [done|].
  rewrite bool_decide_false; [done|].
  rewrite !elem_of_cons, elem_of_nil. tauto.
Qed.

Lemma replaced_chars_safe s :
  Forall (fun c => c ∉ unsafe_chars)
    (List.map (fun c => if bool_decide (c ∈ unsafe_chars) then 95 else c) s).
Proof.
  apply Forall_forall. intros x (c & <- & _)%list_elem_of_In%in_map_iff.
  case_bool_decide as H; [|done].
  unfold unsafe_chars. rewrite !elem_of_cons, elem_of_nil.
  intros H'. repeat destruct H' as [H'|H']; done.
Qed.

Lemma replaced_chars_fix s :
  Forall (fun c => c ∉ unsafe_chars) s ->
  List.map (fun c => if bool_decide (c ∈ unsafe_chars) then 95 else c) s = s.
Proof.
  induction 1 as [|c r Hc _ IH]; [done|]. simpl.
  by rewrite bool_decide_false, IH.
Qed.

Lemma lstrip_chars_fix chars s :
  (forall c, head s = Some c -> c ∉ chars) -> lstrip_chars chars s = s.
Proof.
  destruct s as [|c r]; [done|]. simpl. intros H.
  by rewrite bool_decide_false by by apply H.
Qed.

Lemma lstrip_chars_head chars s c :
  head (lstrip_chars chars s) = Some c -> c ∉ chars.
Proof.
  induction s as [|x r IH]; [done|]. simpl.
  case_bool_decide as H; [done|]. by intros [= <-].
Qed.

Lemma lstrip_chars_suffix chars s : exists a, s = a ++ lstrip_chars chars s.
Proof.
  induction s as [|x r [a IH]]; [by exists []|]. simpl.
  case_bool_decide.
  - exists (x :: a). simpl. by rewrite <- IH.
  - by exists [].
Qed.

Lemma head_rev (s : list N) : head (rev s) = last s.
Proof.
  induction s as [|x r IH] using rev_ind; [done|].
  by rewrite rev_app_distr, last_snoc.
Qed.

Lemma last_rev (s : list N) : last (rev s) = head s.
Proof. by rewrite <- head_rev, rev_involutive. Qed.

Lemma strip_chars_fix chars s :
  (forall c, head s = Some c -> c ∉ chars) ->
  (forall c, last s = Some c -> c ∉ chars) ->
  strip_chars chars s = s.
Proof.
  intros H1 H2. unfold strip_chars. rewrite (lstrip_chars_fix chars s) by done.
  rewrite lstrip_chars_fix; [apply rev_involutive|].
  intros c. rewrite head_rev. apply H2.
Qed.

Lemma strip_chars_infix chars s : exists a b, s = a ++ strip_chars chars s ++ b.
Proof.
  unfold strip_chars. destruct (lstrip_chars_suffix chars s) as [a Ha].
  destruct (lstrip_chars_suffix chars (rev (lstrip_chars chars s))) as [b Hb].
  exists a, (rev b). rewrite <- rev_app_distr, <- Hb, rev_involutive. done.
Qed.

Lemma strip_chars_ends chars s c :
  (head (strip_chars chars s) = Some c -> c ∉ chars)
  /\ (last (strip_chars chars s) = Some c -> c ∉ chars).
Proof.
  unfold strip_chars. split.
  - destruct (lstrip_chars_suffix chars (rev (lstrip_chars chars s))) as [b Hb].
    apply (f_equal (@rev N)) in Hb. rewrite rev_involutive, rev_app_distr in Hb.
    destruct (rev (lstrip_chars chars (rev (lstrip_chars chars s)))) as [|x l];
      [done|].
    intros [= ->]. apply (lstrip_chars_head chars s). by rewrite Hb.
  - rewrite last_rev. apply lstrip_chars_head.
Qed.

Lemma py_str_file_chars z :
  Forall (fun c => c = 45 \/ 48 <= c <= 57) (py_str z)
  /\ exists c, last (py_str z) = Some c /\ 48 <= c <= 57.
Proof.
  assert (forall n, exists c, last (str_of_N n) = Some c /\ 48 <= c <= 57) as Hlast.
  { intros n. pose proof (str_of_N_digits n) as Hd.
    pose proof (str_of_N_nonempty n) as Hne.
    destruct (str_of_N n) as [|x l] using rev_ind; [done|].
    exists x. rewrite last_snoc. split; [done|].
    apply Forall_app in Hd as [_ Hd]. by apply Forall_cons in Hd as [? _]. }
  assert (forall n, Forall (fun c => c = 45 \/ 48 <= c <= 57) (str_of_N n)) as Hall.
  { intros n. eapply Forall_impl; [apply str_of_N_digits|]. intros; by right. }
  destruct z as [|p|p].
  - split; [apply (Hall 0)|apply (Hlast 0)].
  - split; [apply (Hall (N.pos p))|apply (Hlast (N.pos p))].
  - change (py_str (Z.neg p)) with (45 :: str_of_N (N.pos p)). split.
    + constructor; [by left|apply Hall].
    + destruct (Hlast (N.pos p)) as (c & Hc & Hr). exists c. split; [|done].
      pose proof (str_of_N_nonempty (N.pos p)).
      destruct (str_of_N (N.pos p)); done.
Qed.

(** X8.  What [safe_filename] returns is never empty, holds none of the
    nine characters it replaces, and neither starts nor ends with a space
    or a dot; this holds for the generated name [file_<time>] as well.
    Every name that is already like that comes back as it is, whatever
    the time, so applying [safe_filename] twice gives what applying it
    once gives. *)
Theorem safe_filename_safe now s :
  let r := safe_filename now s in
  r <> []
  /\ Forall (fun c => c ∉ unsafe_chars) r
  /\ (forall c, head r = Some c -> c <> 32 /\ c <> 46)
  /\ (forall c, last r = Some c -> c <> 32 /\ c <> 46)
  /\ (forall t now',
        t <> [] ->
        Forall (fun c => c ∉ unsafe_chars) t ->
        (forall c, head t = Some c -> c <> 32 /\ c <> 46) ->
        (forall c, last t = Some c -> c <> 32 /\ c <> 46) ->
        safe_filename now' t = t)
  /\ (forall now', safe_filename now' r = r).
Proof.
  assert (forall c, c ∉ [32; 46] -> c <> 32 /\ c <> 46) as Hends.
  { intros c Hc. split; intros ->; apply Hc; rewrite !elem_of_cons; tauto. }
  assert (forall t now',
            t <> [] -> Forall (fun c => c ∉ unsafe_chars) t ->
            (forall c, head t = Some c -> c ∉ [32; 46]) ->
            (forall c, last t = Some c -> c ∉ [32; 46]) ->
            safe_filename now' t = t) as Hfix.
  { intros t now' Hne Hsafe Hh Hl. unfold safe_filename.
    rewrite replaced_chars, replaced_chars_fix, strip_chars_fix by done.
    by destruct t. }
  assert (forall t now',
            t <> [] -> Forall (fun c => c ∉ unsafe_chars) t ->
            (forall c, head t = Some c -> c <> 32 /\ c <> 46) ->
            (forall c, last t = Some c -> c <> 32 /\ c <> 46) ->
            safe_filename now' t = t) as Hsame.
  { intros t now' Hne Hsafe Hh Hl. apply Hfix; [done|done| |].
    - intros c [H1 H2]%Hh. rewrite !elem_of_cons, elem_of_nil. tauto.
    - intros c [H1 H2]%Hl. rewrite !elem_of_cons, elem_of_nil. tauto. }
  intros r. subst r. unfold safe_filename. rewrite replaced_chars.
  set (t := List.map _ s).
  destruct (strip_chars [32; 46] t) as [|x l] eqn:E.
  - destruct (py_str_file_chars now) as [Hall (d & Hd & Hr)].
    assert (Forall (fun c => c ∉ unsafe_chars) (u "file_" ++ py_str now)) as Hsafe.
    { apply Forall_app. split.
      - repeat constructor; unfold unsafe_chars;
          rewrite !elem_of_cons, elem_of_nil; intros H;
          repeat destruct H as [H|H]; done.
      - eapply Forall_impl; [apply Hall|]. intros c Hc. unfold unsafe_chars.
        rewrite !elem_of_cons, elem_of_nil. intros H.
        repeat destruct H as [H|H]; try done; subst c; lia. }
    assert (forall c, last (u "file_" ++ py_str now) = Some c -> c ∉ [32; 46]) as Hl.
    { intros c. rewrite last_app, Hd. intros [= <-].
      rewrite !elem_of_cons, elem_of_nil. lia. }
    assert (forall c, head (u "file_" ++ py_str now) = Some c -> c ∉ [32; 46]) as Hh.
    { intros c [= <-]. rewrite !elem_of_cons, elem_of_nil.
      intros [H|[H|H]]; done. }
    split; [done|]. split; [done|]. split; [by intros c ?%Hh%Hends|].
    split; [by intros c ?%Hl%Hends|]. split; [exact Hsame|].
    intros now'. by apply Hfix.
  - assert (Forall (fun c => c ∉ unsafe_chars) (x :: l)) as Hsafe.
    { destruct (strip_chars_infix [32; 46] t) as (a & b & Heq).
      pose proof (replaced_chars_safe s) as Hall. fold t in Hall.
      rewrite Heq, E in Hall.
      by apply Forall_app in Hall as [_ [? _]%Forall_app]. }
    assert (forall c, head (x :: l) = Some c -> c ∉ [32; 46]) as Hh.
    { intros c. rewrite <- E. apply strip_chars_ends. }
    assert (forall c, last (x :: l) = Some c -> c ∉ [32; 46]) as Hl.
    { intros c. rewrite <- E. apply strip_chars_ends. }
    split; [done|]. split; [done|]. split; [by intros c ?%Hh%Hends|].
    split; [by intros c ?%Hl%Hends|]. split; [exact Hsame|].
    intros now'. by apply Hfix.
Qed.

(** ** Running the media tools *)

Section MediaOutcome.
Context {py : Python} (tl : tools).

(** X9.  How [burn_subtitles_to_video] can end.  When it returns a path,
    both inputs were there, the tool exited with code 0 and the path names
    a file that exists.  A [FileNotFoundError] comes out only for a
    missing input, the video being looked at first, and then no tool has
    been run.  Everything that goes wrong later (an exit code other than
    0, a time-out, a tool that cannot be started, an output file that is
    not there) comes out as a plain [Exception]. *)
Theorem burn_subtitles_outcome video srt out name size color pos w r w' :
  burn_subtitles_to_video tl video srt out name size color pos w = (r, w') ->
  (forall p, r = Ok p ->
     path_exists p w' = true
     /\ path_exists video w = true /\ path_exists srt w = true
     /\ exists stdout stderr,
          run_process tl (burn_command video srt p size color pos) w
          = (Completed 0 stdout stderr, w'))
  /\ (forall e, r = Raise e ->
        (exn_cls e = FileNotFoundError /\ w' = w
         /\ (if path_exists video w
             then path_exists srt w = false
                  /\ exn_msg e = u "SRT file not found: " ++ srt
             else exn_msg e = u "Video file not found: " ++ video))
        \/ (exn_cls e = Exception
            /\ path_exists video w = true /\ path_exists srt w = true)).
Proof.
  unfold burn_subtitles_to_video.
  destruct (path_exists video w) eqn:Hv; cbn [negb].
  2:{ intros [= <- <-]. split; [done|]. intros e [= <-]. left. done. }
  destruct (path_exists srt w) eqn:Hs; cbn [negb].
  2:{ intros [= <- <-]. split; [done|]. intros e [= <-]. left. done. }
  cbv zeta.
  destruct (format_int size) as [size_text|e1].
  2:{ intros [= <- <-]. split; [done|]. intros e [= <-]. by right. }
  destruct (run_process tl _ w) as [[rc so se|msg|e0] w1] eqn:Hrun.
  - destruct (Z.eqb_spec rc 0) as [->|Hrc]; cbn [negb].
    + destruct (path_exists _ w1) eqn:Ho; cbn [negb].
      * intros [= <- <-]. split; [|done]. intros p [= <-].
        repeat split; try done. by exists so, se.
      * intros [= <- <-]. split; [done|]. intros e [= <-]. by right.
    + intros [= <- <-]. split; [done|]. intros e [= <-]. by right.
  - intros [= <- <-]. split; [done|]. intros e [= <-]. by right.
  - intros [= <- <-]. split; [done|]. intros e [= <-]. by right.
Qed.

(** X10.  How [extract_audio_from_video] can end.  A returned path
    names a file that exists after the tool exited with code 0; a missing
    video is the one [FileNotFoundError], raised before any tool is run;
    every later failure is a plain [Exception].  When the tool exits with
    another code the message is always the same, whatever the tool wrote
    to its error stream: the diagnostic is lost. *)
Theorem extract_audio_outcome video out fmt w r w' :
  extract_audio_from_video tl video out fmt w = (r, w') ->
  let audio := path_join out (path_stem video ++ u "." ++ fmt) in
  let cmd := extract_audio_command video audio fmt in
  (forall p, r = Ok p ->
     p = audio /\ path_exists p w' = true /\ path_exists video w = true
     /\ exists stdout stderr, run_process tl cmd w = (Completed 0 stdout stderr, w'))
  /\ (forall e, r = Raise e ->
        (e = Exn FileNotFoundError (u "Video file not found: " ++ video)
         /\ w' = w /\ path_exists video w = false)
        \/ (exn_cls e = Exception /\ path_exists video w = true))
  /\ (forall rc stdout stderr,
        path_exists video w = true ->
        run_process tl cmd w = (Completed rc stdout stderr, w') -> rc <> 0%Z ->
        r = Raise (Exn Exception (u "Audio extraction failed: None"))).
Proof.
  intros Hrun audio cmd. unfold extract_audio_from_video in Hrun.
  cbv zeta in Hrun. fold audio in Hrun. fold cmd in Hrun.
  destruct (path_exists video w) eqn:Hv; cbn [negb] in Hrun.
  2:{ injection Hrun as <- <-. split; [done|]. split; [|done].
      intros e [= <-]. by left. }
  destruct (run_process tl cmd w) as [[rc so se|msg|e0] w1] eqn:Hc.
  - destruct (Z.eqb_spec rc 0) as [->|Hrc]; cbn [negb] in Hrun.
    + destruct (path_exists audio w1) eqn:Ho; cbn [negb] in Hrun;
        injection Hrun as <- <-.
      * split; [|split; [done|]].
        -- intros p [= <-]. repeat split; try done. by exists so, se.
        -- by intros rc so' se' _ [= <- _ _].
      * split; [done|]. split; [intros e [= <-]; by right|].
        by intros rc so' se' _ [= <- _ _].
    + injection Hrun as <- <-. split; [done|]. split; [intros e [= <-]; by right|].
      done.
  - injection Hrun as <- <-. split; [done|]. split; [intros e [= <-]; by right|].
    done.
  - injection Hrun as <- <-. split; [done|]. split; [intros e [= <-]; by right|].
    done.
Qed.
End MediaOutcome.

(** ** Reading and writing text files safely *)

Section SafeFiles.
Context {py : Python} (sv : services).
Variable dirname : list N -> list N.
Variable makedirs_ok : list N -> bool.

End SafeFiles.

(** ** The fallback service sees the start of a text only *)

Section FallbackTail.
Context {py : Python} (sv : services).

(** X11.  [translate_text_fallback] sends the first 500 characters of a
    text and nothing else of it.  So two texts that agree on their first
    500 characters cause the same request and meet the same answer: when
    the service gives a translation, both calls return that same
    translation, in which the rest of a longer text has no part; when it
    gives none, each call returns its own text in full. *)
Theorem fallback_ignores_tail t1 t2 target source w :
  take 500 t1 = take 500 t2 ->
  mymemory_request t1 target source = mymemory_request t2 target source
  /\ fallback_attempt sv t1 target source w = fallback_attempt sv t2 target source w
  /\ (forall v,
        fst (fallback_attempt sv t1 target source w) = Ok (Some v) ->
        translate_text_fallback sv t1 target source w
        = (Ok v, after_request (mymemory_request t1 target source) w)
        /\ translate_text_fallback sv t2 target source w
           = translate_text_fallback sv t1 target source w)
  /\ ((forall v, fst (fallback_attempt sv t1 target source w) <> Ok (Some v)) ->
      translate_text_fallback sv t1 target source w
      = (Ok (JStr t1), after_request (mymemory_request t1 target source) w)
      /\ translate_text_fallback sv t2 target source w
         = (Ok (JStr t2), after_request (mymemory_request t1 target source) w)).
Proof.
  intros Htake.
  assert (mymemory_request t1 target source = mymemory_request t2 target source)
    as Hreq by (unfold mymemory_request; by rewrite Htake).
  assert (fallback_attempt sv t1 target source w
          = fallback_attempt sv t2 target source w) as Hatt
    by (unfold fallback_attempt; by rewrite Hreq).
  split; [done|]. split; [done|]. split.
  - intros v Hv.
    assert (forall t,
              fallback_attempt sv t target source w
              = fallback_attempt sv t1 target source w ->
              translate_text_fallback sv t target source w
              = (Ok v, after_request (mymemory_request t1 target source) w)) as Hrun.
    { intros t Ht. unfold translate_text_fallback, bind, try_except. rewrite Ht.
      pose proof (fallback_attempt_world sv t1 target source w) as Hw.
      destruct (fallback_attempt sv t1 target source w) as [[[v'|]|e] w1];
        simpl in Hv, Hw; try done. injection Hv as ->. by subst w1. }
    split; [by apply Hrun|]. rewrite (Hrun t1 eq_refl). by apply Hrun.
  - intros Hnone. split.
    + by apply translate_text_fallback_failed.
    + rewrite Hreq. apply translate_text_fallback_failed. by rewrite <- Hatt.
Qed.
End FallbackTail.

(** * Examples for the further properties *)

(** Italic tags around a word. *)
Lemma strip_tags_complete_witness :
  strip_tags (u "<i>Hello</i> world") = u "Hello world"
  /\ ~ has_tag (u "Hello world").
Proof.
  split; [vm_compute; reflexivity|].
  destruct (strip_tags_complete (u "<i>Hello</i> world")) as [H _].
  exact H.
Defined.

(** The sample file, with its malformed block, written anew. *)
Lemma parse_srt_regenerates_witness :
  files sample_world !! u "in.srt" = Some (TextFile sample_srt)
  /\ forallb encodable sample_srt = true
  /\ writable offline (u "out.srt") = true
  /\ exists cues w',
       parse_srt_file (u "in.srt") sample_world = (Ok cues, sample_world)
       /\ forallb well_formed cues = true
       /\ create_translated_srt offline cues (u "out.srt") sample_world = (Ok (u "out.srt"), w')
       /\ files w' !! u "out.srt" = Some (TextFile (write_newlines (srt_text cues)))
       /\ parse_srt_file (u "out.srt") w' = (Ok cues, w').
Proof.
  split; [vm_compute; reflexivity|]. split; [vm_compute; reflexivity|].
  split; [reflexivity|].
  apply (parse_srt_regenerates offline (u "in.srt") (u "out.srt") sample_srt sample_world);
    vm_compute; reflexivity.
Defined.

(** An index of 4301 digits stops the writing after the first cue. *)
Lemma create_translated_srt_outcome_witness :
  let late := {| index := 10 ^ 4300; timestamp := u "00:00:04,000 --> 00:00:05,000";
                 text := JStr (u "late") |} in
  writable offline (u "out.srt") = true
  /\ forallb printable_cue [hello_cue; late]
     && forallb encodable (srt_text [hello_cue; late]) = false
  /\ exists e w',
       create_translated_srt offline [hello_cue; late] (u "out.srt") sample_world
       = (Raise e, w')
       /\ (exn_cls e = UnicodeEncodeError \/ e = int_limit_error)
       /\ files w' !! u "in.srt" = files sample_world !! u "in.srt".
Proof.
  intros late.
  assert (forallb printable_cue [hello_cue; late]
          && forallb encodable (srt_text [hello_cue; late]) = false) as Hbad'
    by (vm_compute; reflexivity).
  split; [reflexivity|]. split; [exact Hbad'|].
  destruct (create_translated_srt_outcome offline [hello_cue; late] (u "out.srt")
              sample_world) as (r & w' & Hrun & _ & _ & _ & Hbad & Hframe & _).
  destruct (Hbad eq_refl Hbad') as (e & pre & post & -> & He & _).
  exists e, w'. split; [exact Hrun|]. split; [exact He|].
  apply Hframe. vm_compute. discriminate.
Defined.

(** The sample file translated to Spanish with no network. *)
Lemma translate_srt_when_down_witness :
  (forall h r, exists e, http offline h r = Raise e /\ is_RequestException e = true)
  /\ assoc (u "Spanish") LANGUAGE_MAP = Some (u "es")
  /\ files sample_world !! u "in.srt" = Some (TextFile sample_srt)
  /\ forallb encodable sample_srt = true
  /\ parse_srt (universal_newlines sample_srt) <> []
  /\ writable offline (output_path_for (u "in.srt") (u "Spanish") (u "out")) = true
  /\ translate_srt offline (u "in.srt") (u "Spanish") (u "out") sample_world
     = (Ok (output_path_for (u "in.srt") (u "Spanish") (u "out")),
        with_file (output_path_for (u "in.srt") (u "Spanish") (u "out"))
          (write_newlines
             (srt_text (List.map pass_through (parse_srt (universal_newlines sample_srt)))))
          (add_requests
             (concat (List.map (retried_requests (u "es"))
                        (parse_srt (universal_newlines sample_srt))))
             sample_world)).
Proof.
  assert (forall h r, exists e,
            http offline h r = Raise e /\ is_RequestException e = true) as Hdown.
  { intros h r. eexists. split; reflexivity. }
  split; [exact Hdown|]. split; [vm_compute; reflexivity|].
  split; [vm_compute; reflexivity|]. split; [vm_compute; reflexivity|].
  split; [vm_compute; discriminate|]. split; [reflexivity|].
  apply (translate_srt_when_down offline Hdown (u "in.srt") (u "Spanish") (u "es")
           (u "out") sample_srt sample_world).
  - vm_compute; reflexivity.
  - vm_compute; reflexivity.
  - vm_compute; reflexivity.
  - vm_compute; discriminate.
  - reflexivity.
Defined.

(** No network: the probe answers [False] after two requests. *)
Lemma validate_translation_service_verdict_witness :
  validate_translation_service offline sample_world
  = (Ok false,
     add_requests [libretranslate_request (u "Hello") (u "es") (u "en");
                   mymemory_request (u "Hello") (u "es") (u "en")] sample_world).
Proof.
  pose proof (validate_translation_service_verdict offline sample_world) as H.
  cbv zeta in H. destruct H as (_ & H & _). apply H.
  intros h r. eexists. split; reflexivity.
Defined.

(** No API key. *)
Lemma transcribe_video_failures_witness :
  transcribe_video offline (u "talk.wav") (u "out") blank_world
  = (Raise (Exn ValueError (u "OpenAI API key not found in environment variables")),
     blank_world)
  /\ api_key blank_world = None.
Proof.
  split; [vm_compute; reflexivity|].
  destruct (transcribe_video_failures offline (u "talk.wav") (u "out") blank_world
              (Exn ValueError (u "OpenAI API key not found in environment variables"))
              blank_world) as [(_ & _ & [H|H])|[(k & ey & H & _)|(m & k & ey & H & _)]].
  - vm_compute; reflexivity.
  - exact H.
  - discriminate H.
  - discriminate H.
  - discriminate H.
Defined.

(** The transcript of the answering service, written and parsed. *)
Lemma transcribe_then_parse_witness :
  let transcript :=
    text_of ["1"; "00:00:01,000 --> 00:00:03,000"; "Hello world"; ""; ""]%string in
  api_key big_audio_world = Some (u "sk-test")
  /\ files big_audio_world !! u "talk.wav" = Some (BinaryFile 26214401)
  /\ whisper answering (u "sk-test") (BinaryFile 26214401) = Ok transcript
  /\ openai_client answering (u "sk-test") = Ok tt
  /\ forallb storable transcript = true
  /\ writable answering (path_join (u "out") (u "transcription.srt")) = true
  /\ exists w',
       transcribe_video answering (u "talk.wav") (u "out") big_audio_world
       = (Ok (path_join (u "out") (u "transcription.srt")), w')
       /\ parse_srt_file (path_join (u "out") (u "transcription.srt")) w'
          = (Ok (parse_srt transcript), w')
       /\ forallb well_formed (parse_srt transcript) = true.
Proof.
  intros transcript.
  split; [vm_compute; reflexivity|]. split; [vm_compute; reflexivity|].
  split; [vm_compute; reflexivity|]. split; [reflexivity|].
  split; [vm_compute; reflexivity|]. split; [reflexivity|].
  apply (transcribe_then_parse answering (u "talk.wav") (u "out") big_audio_world
           115 (u "k-test") (BinaryFile 26214401) transcript);
    vm_compute; reflexivity.
Defined.

(** A name with a colon, a question mark and spaces around it. *)
Lemma safe_filename_safe_witness :
  safe_filename 1700000000 (u " my:video?.mp4 ") = u "my_video_.mp4"
  /\ safe_filename 1700000000 (u " .. ") = u "file_1700000000"
  /\ forall now', safe_filename now' (safe_filename 1700000000 (u " .. "))
                  = safe_filename 1700000000 (u " .. ").
Proof.
  split; [vm_compute; reflexivity|]. split; [vm_compute; reflexivity|].
  pose proof (safe_filename_safe 1700000000 (u " .. ")) as H.
  cbv zeta in H. destruct H as (_ & _ & _ & _ & _ & H). exact H.
Defined.

(** The tool writes its output: the path returned is there. *)
Lemma burn_subtitles_outcome_witness :
  let run := burn_subtitles_to_video encoder (u "clip.mp4") (u "clip.srt") (u "out")
               None 24 (u "white") (u "bottom") media_world in
  run = (Ok (u "out/clip_with_subtitles.mp4"), snd run)
  /\ path_exists (u "out/clip_with_subtitles.mp4") (snd run) = true.
Proof.
  intros run.
  assert (run = (Ok (u "out/clip_with_subtitles.mp4"), snd run)) as Hrun
    by (vm_compute; reflexivity).
  split; [exact Hrun|].
  destruct (burn_subtitles_outcome encoder (u "clip.mp4") (u "clip.srt") (u "out")
              None 24 (u "white") (u "bottom") media_world _ _ Hrun) as [Hok _].
  by destruct (Hok _ eq_refl) as [H _].
Defined.

(** The tool exits with code 1: its error text does not reach the caller. *)
Lemma extract_audio_outcome_witness :
  let run := extract_audio_from_video failing_encoder (u "clip.mp4") (u "out")
               (u "wav") media_world in
  run = (fst run, media_world)
  /\ path_exists (u "clip.mp4") media_world = true
  /\ fst run = Raise (Exn Exception (u "Audio extraction failed: None")).
Proof.
  intros run.
  assert (run = (fst run, media_world)) as Hrun by (vm_compute; reflexivity).
  split; [exact Hrun|]. split; [vm_compute; reflexivity|].
  pose proof (extract_audio_outcome failing_encoder (u "clip.mp4") (u "out") (u "wav")
                media_world _ _ Hrun) as H.
  cbv zeta in H. destruct H as (_ & _ & H).
  apply (H 1%Z [] (u "Invalid data found")).
  - vm_compute; reflexivity.
  - reflexivity.
  - discriminate.
Defined.

(** Two texts of more than 500 characters that differ at their ends. *)
Lemma fallback_ignores_tail_witness :
  let t1 := repeat 97 500 ++ u "one end" in
  let t2 := repeat 97 500 ++ u "another end" in
  take 500 t1 = take 500 t2
  /\ t1 <> t2
  /\ fallback_attempt answering t1 (u "es") (u "en") sample_world
     = fallback_attempt answering t2 (u "es") (u "en") sample_world.
Proof.
  intros t1 t2.
  assert (take 500 t1 = take 500 t2) as Htake by (vm_compute; reflexivity).
  split; [exact Htake|]. split.
  - intros H. apply (f_equal (fun l => nth 500 l 0)) in H. vm_compute in H.
    discriminate H.
  - by destruct (fallback_ignores_tail answering t1 t2 (u "es") (u "en") sample_world
                   Htake) as (_ & H & _).
Defined.

(** The sample file with both kinds of line ends. *)
Lemma parse_srt_file_line_ends_witness :
  forallb (fun c => negb (c =? CR)) sample_srt = true
  /\ fst (parse_srt_file (u "in.srt")
            (with_file (u "in.srt")
               (flat_map (fun c => if c =? LF then [CR; LF] else [c]) sample_srt)
               sample_world))
     = Ok (parse_srt sample_srt).
Proof.
  assert (forallb (fun c => negb (c =? CR)) sample_srt = true) as Hcr
    by (vm_compute; reflexivity).
  split; [exact Hcr|].
  pose proof (parse_srt_file_line_ends (u "in.srt") sample_srt sample_world Hcr) as H.
  cbv zeta in H. destruct H as [H1 H2]. by rewrite H1.
Defined.

(** Spanish, Korean and French: the Spanish file is still there at the
    end. *)
Lemma batch_translate_files_witness :
  let run := batch_translate_srt answering (u "in.srt")
               [u "Spanish"; u "Korean"; u "French"] (u "out") sample_world in
  let d := match fst run with Ok d => d | Raise _ => ∅ end in
  run = (Ok d, snd run)
  /\ d !! u "Spanish" = Some (u "out/in_spanish.srt")
  /\ exists content,
       files (snd run) !! u "out/in_spanish.srt" = Some (TextFile content).
Proof.
  intros run d.
  assert (run = (Ok d, snd run)) as Hrun by (vm_compute; reflexivity).
  assert (d !! u "Spanish" = Some (u "out/in_spanish.srt")) as Hsp
    by (vm_compute; reflexivity).
  split; [exact Hrun|]. split; [exact Hsp|].
  by destruct (batch_translate_files answering _ _ _ _ _ _ Hrun _ _ Hsp)
    as (_ & _ & _ & H).
Defined.


